(** * 3D Room Planner: room geometry, wall culling, dragging, undo/redo

    A shallow embedding of the room-geometry and object-interaction engine
    (Room.js, FloorDimensionEditor.js, InteractionManager.js and
    SceneManager.js) together with the properties of its specification.

    Numbers: a JavaScript number is modelled as a real number of [R]
    (no NaN, no Infinity); [Math.sqrt] is [sqrt].  Arithmetic is exact
    except in the sign test [isClockwise], the one place where the sign
    of a sum that can be zero decides what the program does: there every
    operation is rounded as IEEE 754 binary64 rounds it, to the nearest
    double, ties to even ([round64]).
    Object identity: a scene object is named by an identifier and its
    mutable fields live in a store, so that two references to one object
    see the same fields.
    Diagnostics: [console.warn] lines are recorded; [console.log] lines
    are not. *)

From Stdlib Require Import Reals Lra Lia List Arith ZArith Bool String Permutation.
Import ListNotations.
Open Scope R_scope.

(** ** The parts of three.js the engine calls *)

Module THREE.

Record Vector3 := vec3 { vx : R; vy : R; vz : R }.

Record Quaternion := quat { qx : R; qy : R; qz : R; qw : R }.

Definition dot (a b : Vector3) : R :=
  vx a * vx b + vy a * vy b + vz a * vz b.

Definition add (a b : Vector3) : Vector3 :=
  vec3 (vx a + vx b) (vy a + vy b) (vz a + vz b).

Definition sub (a b : Vector3) : Vector3 :=
  vec3 (vx a - vx b) (vy a - vy b) (vz a - vz b).

Definition multiplyScalar (a : Vector3) (s : R) : Vector3 :=
  vec3 (vx a * s) (vy a * s) (vz a * s).

Definition length (a : Vector3) : R :=
  sqrt (vx a * vx a + vy a * vy a + vz a * vz a).

(** [normalize] is [divideScalar(this.length() || 1)]. *)
Definition normalize (a : Vector3) : Vector3 :=
  let l := length a in
  let d := if Req_dec_T l 0 then 1 else l in
  vec3 (vx a / d) (vy a / d) (vz a / d).

Definition distanceTo (a b : Vector3) : R := length (sub a b).

(** [Vector3.applyQuaternion]: v + w*t + q x t, with t = 2 (q x v). *)
Definition applyQuaternion (v : Vector3) (q : Quaternion) : Vector3 :=
  let tx := 2 * (qy q * vz v - qz q * vy v) in
  let ty := 2 * (qz q * vx v - qx q * vz v) in
  let tz := 2 * (qx q * vy v - qy q * vx v) in
  vec3 (vx v + qw q * tx + qy q * tz - qz q * ty)
       (vy v + qw q * ty + qz q * tx - qx q * tz)
       (vz v + qw q * tz + qx q * ty - qy q * tx).

Definition identityQuaternion : Quaternion := quat 0 0 0 1.

(** [Plane]: the points p with normal . p + constant = 0. *)
Record Plane := plane { normal : Vector3; constant : R }.

Definition setFromNormalAndCoplanarPoint (n p : Vector3) : Plane :=
  plane n (- dot p n).

Definition distanceToPoint (pl : Plane) (p : Vector3) : R :=
  dot (normal pl) p + constant pl.

Record Ray := ray { origin : Vector3; direction : Vector3 }.

Definition at_ (r : Ray) (t : R) : Vector3 :=
  add (origin r) (multiplyScalar (direction r) t).

(** [Ray.distanceToPlane]: null when the ray is parallel to the plane
    and off it, or when the plane is behind the ray. *)
Definition distanceToPlane (r : Ray) (pl : Plane) : option R :=
  let denominator := dot (normal pl) (direction r) in
  if Req_dec_T denominator 0 then
    if Req_dec_T (distanceToPoint pl (origin r)) 0 then Some 0 else None
  else
    let t := - (dot (origin r) (normal pl) + constant pl) / denominator in
    if Rle_dec 0 t then Some t else None.

Definition intersectPlane (r : Ray) (pl : Plane) : option Vector3 :=
  match distanceToPlane r pl with
  | Some t => Some (at_ r t)
  | None => None
  end.

End THREE.

Import THREE.

(** ** Room.js *)

Record Point2D := point { pt_x : R; pt_z : R }.

Definition Rltb (a b : R) : bool := if Rlt_dec a b then true else false.

(** [points[i]]; the loops below only read inside the array. *)
Definition point_at (points : list Point2D) (i : nat) : Point2D :=
  nth i points (point 0 0).

Definition next_index (points : list Point2D) (i : nat) : nat :=
  ((i + 1) mod List.length points)%nat.

(** *** Rounding to a double

    [round64 x] is the double nearest to [x]: the multiple of the
    spacing of the doubles at [x] that is nearest to [x], the one with
    the even significand when two are equally near.  The spacing is
    2^(e-52) for 2^e <= |x| < 2^(e+1), with [e] no less than -1022 (so
    that zero and the subnormal numbers are spaced by 2^-1074) and no
    more than 1023 (there is no overflow to Infinity). *)

(** The integer nearest to [y]; of two that are equally near, the even
    one.  [up y - 1] is the floor of [y]. *)
Definition nearest_even (y : R) : Z :=
  let f := (up y - 1)%Z in
  if Rlt_dec (y - IZR f) (1 / 2) then f
  else if Rlt_dec (1 / 2) (y - IZR f) then (f + 1)%Z
  else if Z.even f then f else (f + 1)%Z.

(** The floor of the logarithm to base 2. *)
Definition log2_floor (a : R) : Z := (up (ln a / ln 2) - 1)%Z.

Definition exponent (x : R) : Z :=
  if Rlt_dec (Rabs x) (powerRZ 2 (-1022)) then (-1022)%Z
  else Z.min 1023 (log2_floor (Rabs x)).

(** The spacing of the doubles at [x]. *)
Definition ulp (x : R) : R := powerRZ 2 (exponent x - 52).

Definition round64 (x : R) : R := IZR (nearest_even (x / ulp x)) * ulp x.

(** [(next.x - current.x) * (next.z + current.z)], each operation
    rounded. *)
Definition shoelace_term (current next : Point2D) : R :=
  round64 (round64 (pt_x next - pt_x current)
           * round64 (pt_z next + pt_z current)).

(** The loop of [isClockwise]: [sum += (next.x - current.x) * (next.z + current.z)],
    the sum rounded at every turn. *)
Definition shoelace_sum (points : list Point2D) : R :=
  fold_left
    (fun sum i =>
       round64 (sum + shoelace_term (point_at points i)
                                    (point_at points (next_index points i))))
    (seq 0 (List.length points)) 0.

Definition isClockwise (points : list Point2D) : bool :=
  if (List.length points <? 2)%nat then false
  else Rltb 0 (shoelace_sum points).

(** A console.warn line of Room.js. *)
Inductive Diagnostic :=
| NotEnoughPointsToBuild
| CreateFloorNotEnoughPoints
| CreateWallsNotEnoughPoints
| SkippingTinyWall (i : nat) (len : R).

(** [Math.atan2] on reals. *)
Definition atan2 (y x : R) : R :=
  if Rlt_dec 0 x then atan (y / x)
  else if Rlt_dec x 0 then
         if Rle_dec 0 y then atan (y / x) + PI else atan (y / x) - PI
       else if Rlt_dec 0 y then PI / 2
            else if Rlt_dec y 0 then - PI / 2 else 0.

(** A wall mesh.  [opacity] is [material.opacity]. *)
Record Wall := mkWall {
  wallIndex : nat;
  wallLength : R;
  geometryHeight : R;
  wall_position : Vector3;
  rotation_y : R;
  inwardNormalLocalXZ : option Vector3;
  visible : bool;
  opacity : R
}.

(** The watermark mesh placed on one wall. *)
Record Watermark := mkWatermark {
  wm_position : Vector3;
  wm_rotation_y : R;
  wm_scale : R;
  wm_originalScale : R;
  wm_opacity : R;
  wm_visible : bool;
  currentWallIndex : option nat
}.

Record WatermarkConfig := mkWatermarkConfig {
  enabled : bool;
  size_width : R;
  size_height : R;
  position_x : R;
  position_y : R;
  cfg_opacity : R;
  minScale : R;
  maxScale : R;
  scaleDistance : R;
  fadeDistance : R;
  alwaysVisible : bool
}.

(** A child of [this.group].  A wall child is the very mesh stored in
    [wallSegments], named here by its [wallIndex]. *)
Inductive Child :=
| RoomFloor (shape : list Point2D)
| RoomWall (index : nat)
| RoomWatermark.

Record Room := mkRoom {
  height : R;
  group_children : list Child;
  group_position : Vector3;
  group_quaternion : Quaternion;
  wallSegments : list Wall;
  _currentPoints : list Point2D;
  watermark : option Watermark;
  watermarkTexture : bool;
  watermarkConfig : WatermarkConfig;
  console : list Diagnostic
}.

Definition defaultWatermarkConfig : WatermarkConfig :=
  mkWatermarkConfig true 1.5 0.4 0 0.2 0.3 0.5 2 10 50 true.

(** [new Room(height)]. *)
Definition newRoom (h : R) : Room :=
  mkRoom h [] (vec3 0 0 0) identityQuaternion [] [] None false
         defaultWatermarkConfig [].

Definition warn (d : Diagnostic) (r : Room) : Room :=
  mkRoom (height r) (group_children r) (group_position r) (group_quaternion r)
         (wallSegments r) (_currentPoints r) (watermark r)
         (watermarkTexture r) (watermarkConfig r) (console r ++ [d]).

Definition set_children (c : list Child) (r : Room) : Room :=
  mkRoom (height r) c (group_position r) (group_quaternion r)
         (wallSegments r) (_currentPoints r) (watermark r)
         (watermarkTexture r) (watermarkConfig r) (console r).

Definition set_wallSegments (w : list Wall) (r : Room) : Room :=
  mkRoom (height r) (group_children r) (group_position r) (group_quaternion r)
         w (_currentPoints r) (watermark r)
         (watermarkTexture r) (watermarkConfig r) (console r).

Definition set_currentPoints (p : list Point2D) (r : Room) : Room :=
  mkRoom (height r) (group_children r) (group_position r) (group_quaternion r)
         (wallSegments r) p (watermark r)
         (watermarkTexture r) (watermarkConfig r) (console r).

Definition set_watermark (w : option Watermark) (r : Room) : Room :=
  mkRoom (height r) (group_children r) (group_position r) (group_quaternion r)
         (wallSegments r) (_currentPoints r) w
         (watermarkTexture r) (watermarkConfig r) (console r).

Definition set_watermarkTexture (t : bool) (r : Room) : Room :=
  mkRoom (height r) (group_children r) (group_position r) (group_quaternion r)
         (wallSegments r) (_currentPoints r) (watermark r)
         t (watermarkConfig r) (console r).

Definition set_group_position (p : Vector3) (r : Room) : Room :=
  mkRoom (height r) (group_children r) p (group_quaternion r)
         (wallSegments r) (_currentPoints r) (watermark r)
         (watermarkTexture r) (watermarkConfig r) (console r).

Definition is_watermark (c : Child) : bool :=
  match c with RoomWatermark => true | _ => false end.

(** [removeWatermark]: takes the watermark out of the group and forgets it. *)
Definition removeWatermark (r : Room) : Room :=
  match watermark r with
  | Some _ =>
      set_watermark None
        (set_children (filter (fun c => negb (is_watermark c)) (group_children r)) r)
  | None => r
  end.

(** [clearRoom]: removes the watermark, then every child of the group,
    then empties [wallSegments]. *)
Definition clearRoom (r : Room) : Room :=
  set_wallSegments [] (set_children [] (removeWatermark r)).

Definition createFloor (pointsToBuildWith : list Point2D) (r : Room) : Room :=
  if (List.length pointsToBuildWith <? 3)%nat then
    warn CreateFloorNotEnoughPoints r
  else
    set_children (group_children r ++ [RoomFloor pointsToBuildWith]) r.

(** One turn of the loop of [createWalls]. *)
Definition createWall (points : list Point2D) (r : Room) (i : nat) : Room :=
  let a := point_at points i in
  let b := point_at points (next_index points i) in
  let dx := pt_x b - pt_x a in
  let dz := pt_z b - pt_z a in
  let len := sqrt (dx * dx + dz * dz) in
  if Rltb len 0.001 then
    warn (SkippingTinyWall i len) r
  else
    let wall :=
      mkWall i len (height r)
             (vec3 ((pt_x a + pt_x b) / 2) (height r / 2) ((pt_z a + pt_z b) / 2))
             (- atan2 dz dx)
             (Some (normalize (vec3 (- dz) 0 dx)))
             true 1 in
    set_wallSegments (wallSegments r ++ [wall])
      (set_children (group_children r ++ [RoomWall i]) r).

Definition createWalls (pointsToBuildWith : list Point2D) (r : Room) : Room :=
  if (List.length pointsToBuildWith <? 3)%nat then
    warn CreateWallsNotEnoughPoints r
  else
    fold_left (createWall pointsToBuildWith)
              (seq 0 (List.length pointsToBuildWith))
              (set_wallSegments [] r).

(** [loadWatermarkTexture]: the loader hands back the texture object at
    once; the pixels arrive later. *)
Definition loadWatermarkTexture (r : Room) : Room :=
  if watermarkTexture r then r else set_watermarkTexture true r.

(** The [reduce] that adds up the points for the group offset. *)
Definition sum_points (points : list Point2D) : Point2D :=
  fold_left (fun acc p => point (pt_x acc + pt_x p) (pt_z acc + pt_z p))
            points (point 0 0).

(** [points.map(p => ({x: p.x, z: p.z}))], reversed when clockwise. *)
Definition processPoints (points : list Point2D) : list Point2D :=
  let processedPoints := map (fun p => point (pt_x p) (pt_z p)) points in
  if isClockwise processedPoints then rev processedPoints else processedPoints.

Definition buildFromPolygon (points : list Point2D) (isEmpty : bool) (r : Room)
  : Room :=
  if (List.length points <? 3)%nat then
    clearRoom (set_currentPoints [] (warn NotEnoughPointsToBuild r))
  else
    let r := set_currentPoints (processPoints points) r in
    let r := clearRoom r in
    let r := createFloor (_currentPoints r) r in
    let r := if isEmpty then r else createWalls (_currentPoints r) r in
    let center := sum_points (_currentPoints r) in
    let n := INR (List.length (_currentPoints r)) in
    let center :=
      if (0 <? List.length (_currentPoints r))%nat
      then point (pt_x center / n) (pt_z center / n) else center in
    let r := set_group_position (vec3 (- pt_x center) 0 (- pt_z center)) r in
    if enabled (watermarkConfig r) && negb isEmpty
    then loadWatermarkTexture r else r.

(** *** Wall visibility and the watermark *)

(** How a call ends: by returning, or by a TypeError thrown part way,
    with the state as it was when the error left the method. *)
Inductive Completion := Returned | Threw.

(** What the engine reads from the camera: its world position, the
    direction it looks in, and the ray through a pointer position
    ([Raycaster.setFromCamera]). *)
Record Camera := mkCamera {
  cam_worldPosition : Vector3;
  cam_worldDirection : Vector3;
  cam_ray : R * R -> Ray
}.

(** [getWorldPosition] of a child of the room group (the group is a
    child of the scene and is never scaled). *)
Definition getWorldPosition (r : Room) (local : Vector3) : Vector3 :=
  add (applyQuaternion local (group_quaternion r)) (group_position r).

Definition threshold : R := 0.4.

(** The body of the [forEach] of [updateWallVisibility]. *)
Definition updateWall (cameraWorldDirection : Vector3)
           (groupWorldQuaternion : Quaternion) (wall : Wall) : Wall :=
  match inwardNormalLocalXZ wall with
  | None =>
      mkWall (wallIndex wall) (wallLength wall) (geometryHeight wall)
             (wall_position wall) (rotation_y wall) None true (opacity wall)
  | Some n =>
      let worldInwardNormal := applyQuaternion n groupWorldQuaternion in
      let dotProduct := dot cameraWorldDirection worldInwardNormal in
      mkWall (wallIndex wall) (wallLength wall) (geometryHeight wall)
             (wall_position wall) (rotation_y wall) (Some n)
             (Rltb dotProduct threshold) (opacity wall)
  end.

(** The quaternion of the Euler rotation (0, theta, 0). *)
Definition setFromEulerY (theta : R) : Quaternion :=
  quat 0 (sin (theta / 2)) 0 (cos (theta / 2)).

(** The scoring loop of [findVisibleWallForWatermark]: [best] is
    [bestWall] with [bestScore], [None] while the score is -Infinity.
    A visible wall without a normal makes [.clone()] throw. *)
Fixpoint scoreWalls (r : Room) (camera : Camera) (visibleWalls : list Wall)
         (best : option (Wall * R)) : option (option (Wall * R)) :=
  match visibleWalls with
  | [] => Some best
  | wall :: rest =>
      match inwardNormalLocalXZ wall with
      | None => None
      | Some n =>
          let wallWorldPos := getWorldPosition r (wall_position wall) in
          let wallNormal := normalize (applyQuaternion n (group_quaternion r)) in
          let toWall := normalize (sub wallWorldPos (cam_worldPosition camera)) in
          let alignmentFactor := dot (cam_worldDirection camera) toWall in
          let facingFactor := - dot wallNormal toWall in
          let distance := distanceTo (cam_worldPosition camera) wallWorldPos in
          let score := (alignmentFactor * facingFactor) / (1 + distance * 0.1) in
          let better :=
            match best with
            | None => true
            | Some (_, bestScore) => Rltb bestScore score
            end in
          if Rltb 0 alignmentFactor && Rltb 0 facingFactor && better
          then scoreWalls r camera rest (Some (wall, score))
          else scoreWalls r camera rest best
      end
  end.

(** [findVisibleWallForWatermark]: [None] when the scoring threw. *)
Definition findVisibleWallForWatermark (r : Room) (camera : Camera)
  : option (option Wall) :=
  match wallSegments r with
  | [] => Some None
  | _ =>
      let visibleWalls := filter visible (wallSegments r) in
      match visibleWalls with
      | [] => Some None
      | first :: _ =>
          match scoreWalls r camera visibleWalls None with
          | None => None
          | Some (Some (bestWall, _)) => Some (Some bestWall)
          | Some None => Some (Some first)
          end
      end
  end.

Definition or_one (v : R) : R := if Req_dec_T v 0 then 1 else v.

(** [positionWatermarkOnWall] on a freshly made watermark. *)
Definition positionWatermarkOnWall (r : Room) (wall : Wall) (w : Watermark)
  : Watermark :=
  let q := setFromEulerY (rotation_y wall) in
  let wallRight := applyQuaternion (vec3 1 0 0) q in
  let wallUp := applyQuaternion (vec3 0 1 0) q in
  let wallForward := applyQuaternion (vec3 0 0 1) q in
  let cfg := watermarkConfig r in
  let p := add (add (add (wall_position wall)
                         (multiplyScalar wallRight (position_x cfg)))
                    (multiplyScalar wallUp (position_y cfg)))
               (multiplyScalar wallForward 0.01) in
  let maxWatermarkSize :=
    Rmin (or_one (wallLength wall) * 0.6) (height r * 0.4) in
  let currentSize := Rmax (size_width cfg) (size_height cfg) in
  let autoScale := maxWatermarkSize / currentSize in
  if Rltb maxWatermarkSize currentSize then
    mkWatermark p (rotation_y wall) autoScale autoScale (wm_opacity w)
                (wm_visible w) (currentWallIndex w)
  else
    mkWatermark p (rotation_y wall) (wm_scale w) (wm_originalScale w)
                (wm_opacity w) (wm_visible w) (currentWallIndex w).

Definition createWatermark (wall : Wall) (r : Room) : Room :=
  if negb (watermarkTexture r) || negb (enabled (watermarkConfig r)) then r
  else
    let r := removeWatermark r in
    let fresh :=
      mkWatermark (vec3 0 0 0) 0 1 1 (cfg_opacity (watermarkConfig r)) true None in
    set_children (group_children r ++ [RoomWatermark])
      (set_watermark (Some (positionWatermarkOnWall r wall fresh)) r).

Definition updateWatermarkDistanceEffects (camera : Camera) (r : Room) : Room :=
  match watermark r with
  | None => r
  | Some w =>
      let cfg := watermarkConfig r in
      let distance :=
        distanceTo (cam_worldPosition camera) (getWorldPosition r (wm_position w)) in
      let originalScale := or_one (wm_originalScale w) in
      let scaleMultiplier :=
        if Rltb (scaleDistance cfg) distance then
          Rmax (Rmin (distance / scaleDistance cfg) (maxScale cfg / minScale cfg))
               (minScale cfg)
        else 1 in
      let opacityMultiplier :=
        if negb (alwaysVisible cfg) && Rltb (fadeDistance cfg) distance then
          let fadeRange := fadeDistance cfg * 2 in
          let fadeProgress := Rmin ((distance - fadeDistance cfg) / fadeRange) 1 in
          Rmax (1 - fadeProgress) 0.1
        else 1 in
      set_watermark
        (Some (mkWatermark (wm_position w) (wm_rotation_y w)
                           (originalScale * scaleMultiplier) (wm_originalScale w)
                           (cfg_opacity cfg * opacityMultiplier)
                           (wm_visible w) (currentWallIndex w))) r
  end.

Definition set_wm_visible (v : bool) (r : Room) : Room :=
  match watermark r with
  | None => r
  | Some w =>
      set_watermark
        (Some (mkWatermark (wm_position w) (wm_rotation_y w) (wm_scale w)
                           (wm_originalScale w) (wm_opacity w) v
                           (currentWallIndex w))) r
  end.

Definition set_currentWallIndex (i : nat) (r : Room) : Room :=
  match watermark r with
  | None => r
  | Some w =>
      set_watermark
        (Some (mkWatermark (wm_position w) (wm_rotation_y w) (wm_scale w)
                           (wm_originalScale w) (wm_opacity w) (wm_visible w)
                           (Some i))) r
  end.

Definition same_wall (current : option nat) (i : nat) : bool :=
  match current with Some j => Nat.eqb j i | None => false end.

Definition updateWatermarkPosition (camera : Camera) (r : Room)
  : Completion * Room :=
  if negb (enabled (watermarkConfig r)) || negb (watermarkTexture r) then
    (Returned, r)
  else
    match findVisibleWallForWatermark r camera with
    | None => (Threw, r)
    | Some None => (Returned, set_wm_visible false r)
    | Some (Some bestWall) =>
        let newWallIndex := wallIndex bestWall in
        let moved :=
          match watermark r with
          | None => true
          | Some w => negb (same_wall (currentWallIndex w) newWallIndex)
          end in
        let r :=
          if moved
          then set_currentWallIndex newWallIndex (createWatermark bestWall r)
          else r in
        let r := updateWatermarkDistanceEffects camera r in
        (Returned, set_wm_visible true r)
    end.

(** [updateWallVisibility(camera)]; [None] is a missing camera. *)
Definition updateWallVisibility (camera : option Camera) (r : Room)
  : Completion * Room :=
  match camera, wallSegments r with
  | None, _ => (Returned, r)
  | Some _, [] => (Returned, r)
  | Some cam, walls =>
      let cameraWorldDirection := cam_worldDirection cam in
      let groupWorldQuaternion := group_quaternion r in
      let r :=
        set_wallSegments
          (map (updateWall cameraWorldDirection groupWorldQuaternion) walls) r in
      updateWatermarkPosition cam r
  end.

(** ** FloorDimensionEditor.js *)

Record LabelStyle := mkLabelStyle { offsetFromEdge : R; yPosition : R }.

Definition labelStyle : LabelStyle := mkLabelStyle 0.18 0.02.

(** A dimension sprite: the length it prints and where it sits. *)
Record EdgeLabel := mkEdgeLabel { label_length : R; label_position : Vector3 }.

Record Handle := mkHandle { vertexIndex : nat; handle_position : Vector3 }.

Record FloorDimensionEditor := mkEditor {
  ed_points : list Point2D;
  handles : list Handle;
  edgeLabels : list EdgeLabel;
  floorMesh : option (list Point2D);
  isActive : bool
}.

(** One turn of the loop of [_createEdgeLabels]. *)
Definition createEdgeLabel (points : list Point2D) (i : nat) : EdgeLabel :=
  let p1 := point_at points i in
  let p2 := point_at points (next_index points i) in
  let dx := pt_x p2 - pt_x p1 in
  let dz := pt_z p2 - pt_z p1 in
  let len := sqrt (dx * dx + dz * dz) in
  let midX := pt_x p1 + dx / 2 in
  let midZ := pt_z p1 + dz / 2 in
  let segmentLength := Rmax 0.001 len in
  let perpDx := - dz / segmentLength in
  let perpDz := dx / segmentLength in
  let offsetX := perpDx * offsetFromEdge labelStyle in
  let offsetZ := perpDz * offsetFromEdge labelStyle in
  mkEdgeLabel len (vec3 (midX + offsetX) (yPosition labelStyle) (midZ + offsetZ)).

Definition _createEdgeLabels (e : FloorDimensionEditor) : FloorDimensionEditor :=
  mkEditor (ed_points e) (handles e)
           (map (createEdgeLabel (ed_points e)) (seq 0 (List.length (ed_points e))))
           (floorMesh e) (isActive e).

Definition _createHandles (e : FloorDimensionEditor) : FloorDimensionEditor :=
  mkEditor (ed_points e)
           (map (fun i => let p := point_at (ed_points e) i in
                          mkHandle i (vec3 (pt_x p) (yPosition labelStyle) (pt_z p)))
                (seq 0 (List.length (ed_points e))))
           (edgeLabels e) (floorMesh e) (isActive e).

Definition _createFloorMesh (e : FloorDimensionEditor) : FloorDimensionEditor :=
  if (List.length (ed_points e) <? 3)%nat then e
  else mkEditor (ed_points e) (handles e) (edgeLabels e) (Some (ed_points e))
                (isActive e).

Definition clearEditor (e : FloorDimensionEditor) : FloorDimensionEditor :=
  mkEditor [] [] [] None false.

Definition initEditor (initialPoints : list Point2D) (e : FloorDimensionEditor)
  : FloorDimensionEditor :=
  let e := clearEditor e in
  if (List.length initialPoints <? 3)%nat then e
  else
    let e := mkEditor initialPoints (handles e) (edgeLabels e) (floorMesh e)
                      (isActive e) in
    let e := _createEdgeLabels (_createHandles (_createFloorMesh e)) in
    mkEditor (ed_points e) (handles e) (edgeLabels e) (floorMesh e) true.

(** ** InteractionManager.js and SceneManager.js *)

(** A reference to a placed object. *)
Definition ObjId := nat.

Record Euler := euler { ex : R; ey : R; ez : R }.

(** [object.userData]: plain data, so that its JSON copy equals it.
    [boundingBoxHelper] tells whether the selection box is attached. *)
Record UserData := mkUserData {
  isModelRoot : bool;
  selectable : bool;
  modelType : string;
  finalYPosition : R;
  isPinned : bool;
  boundingBoxHelper : bool
}.

Record Object3D := mkObject {
  position : Vector3;
  rotation : Euler;
  scale : Vector3;
  userData : UserData
}.

(** What [getObjectState] captures. *)
Record ObjectState := mkState {
  st_position : Vector3;
  st_rotation : Euler;
  st_scale : Vector3;
  st_userData : UserData
}.

(** An entry of the undo or redo stack; a field the object literal does
    not have, or that holds [undefined], is [None]. *)
Record Action := mkAction {
  type : string;
  object : ObjId;
  properties : option ObjectState;
  previousProperties : option ObjectState;
  newProperties : option ObjectState
}.

Record InteractionManager := mkInteractionManager {
  im_selectedObject : option ObjId;
  pinnedObjects : list ObjId;
  isDragging : bool;
  isRotating : bool;
  interactionMode : string;
  dragStartPosition : Vector3;
  objectStartPosition : Vector3;
  objectStartRotation : Euler;
  dragPlane : Plane;
  dragOffset : Vector3;
  pointer : R * R;
  startPointer : R * R;
  orbitControls_enabled : bool
}.

Record SceneManager := mkSceneManager {
  scene_children : list ObjId;
  store : list (ObjId * Object3D);
  camera : Camera;
  objects : list ObjId;
  selectedObject : option ObjId;
  interactionManager : option InteractionManager;
  undoStack : list Action;
  redoStack : list Action;
  dispatched : list string
}.

Definition set_scene_children (c : list ObjId) (s : SceneManager) :=
  mkSceneManager c (store s) (camera s) (objects s) (selectedObject s)
                 (interactionManager s) (undoStack s) (redoStack s) (dispatched s).

Definition set_store (h : list (ObjId * Object3D)) (s : SceneManager) :=
  mkSceneManager (scene_children s) h (camera s) (objects s) (selectedObject s)
                 (interactionManager s) (undoStack s) (redoStack s) (dispatched s).

Definition set_objects (o : list ObjId) (s : SceneManager) :=
  mkSceneManager (scene_children s) (store s) (camera s) o (selectedObject s)
                 (interactionManager s) (undoStack s) (redoStack s) (dispatched s).

Definition set_selectedObject (o : option ObjId) (s : SceneManager) :=
  mkSceneManager (scene_children s) (store s) (camera s) (objects s) o
                 (interactionManager s) (undoStack s) (redoStack s) (dispatched s).

Definition set_interactionManager (m : option InteractionManager)
           (s : SceneManager) :=
  mkSceneManager (scene_children s) (store s) (camera s) (objects s)
                 (selectedObject s) m (undoStack s) (redoStack s) (dispatched s).

Definition set_undoStack (u : list Action) (s : SceneManager) :=
  mkSceneManager (scene_children s) (store s) (camera s) (objects s)
                 (selectedObject s) (interactionManager s) u (redoStack s)
                 (dispatched s).

Definition set_redoStack (u : list Action) (s : SceneManager) :=
  mkSceneManager (scene_children s) (store s) (camera s) (objects s)
                 (selectedObject s) (interactionManager s) (undoStack s) u
                 (dispatched s).

(** [container.dispatchEvent(new CustomEvent(name))]. *)
Definition dispatchEvent (name : string) (s : SceneManager) :=
  mkSceneManager (scene_children s) (store s) (camera s) (objects s)
                 (selectedObject s) (interactionManager s) (undoStack s)
                 (redoStack s) (dispatched s ++ [name]).

(** The object a reference points to. *)
Fixpoint lookup (o : ObjId) (h : list (ObjId * Object3D)) : option Object3D :=
  match h with
  | [] => None
  | (k, v) :: rest => if Nat.eqb k o then Some v else lookup o rest
  end.

(** Writing fields of the object a reference points to. *)
Fixpoint update (o : ObjId) (f : Object3D -> Object3D)
         (h : list (ObjId * Object3D)) : list (ObjId * Object3D) :=
  match h with
  | [] => []
  | (k, v) :: rest =>
      if Nat.eqb k o then (k, f v) :: rest else (k, v) :: update o f rest
  end.

Definition same_object (a : option ObjId) (o : ObjId) : bool :=
  match a with Some b => Nat.eqb b o | None => false end.

Definition without (o : ObjId) (l : list ObjId) : list ObjId :=
  filter (fun obj => negb (Nat.eqb obj o)) l.

(** [scene.remove(object)] and [scene.add(object)]; [add] first takes
    the object away from its parent. *)
Definition scene_remove (o : ObjId) (s : SceneManager) : SceneManager :=
  set_scene_children (without o (scene_children s)) s.

Definition scene_add (o : ObjId) (s : SceneManager) : SceneManager :=
  set_scene_children (without o (scene_children s) ++ [o]) s.

(** Arrays used as stacks: [push] appends, [pop] takes the last. *)
Definition push {A : Type} (l : list A) (a : A) : list A := l ++ [a].

Definition pop {A : Type} (l : list A) : option (A * list A) :=
  match rev l with
  | [] => None
  | a :: r => Some (a, rev r)
  end.

Definition set_boundingBoxHelper (b : bool) (v : Object3D) : Object3D :=
  let u := userData v in
  mkObject (position v) (rotation v) (scale v)
           (mkUserData (isModelRoot u) (selectable u) (modelType u)
                       (finalYPosition u) (isPinned u) b).

(** [InteractionManager.deselect], with the [onObjectDeselected]
    callback of the scene manager. *)
Definition deselect (im : InteractionManager) (s : SceneManager) : SceneManager :=
  match im_selectedObject im with
  | None => s
  | Some o =>
      let s := set_store (update o (set_boundingBoxHelper false) (store s)) s in
      let im :=
        mkInteractionManager None (pinnedObjects im) false (isRotating im)
          (interactionMode im) (dragStartPosition im) (objectStartPosition im)
          (objectStartRotation im) (dragPlane im) (dragOffset im) (pointer im)
          (startPointer im) (orbitControls_enabled im) in
      let s := set_interactionManager (Some im) s in
      dispatchEvent "object-deselected" (set_selectedObject None s)
  end.

(** [InteractionManager.select], with the [onObjectSelected] callback. *)
Definition select (o : ObjId) (im : InteractionManager) (s : SceneManager)
  : SceneManager :=
  if same_object (im_selectedObject im) o then s
  else
    let s := deselect im s in
    match interactionManager s with
    | None => s
    | Some im =>
        let im :=
          mkInteractionManager (Some o) (pinnedObjects im) (isDragging im)
            (isRotating im) (interactionMode im) (dragStartPosition im)
            (objectStartPosition im) (objectStartRotation im) (dragPlane im)
            (dragOffset im) (pointer im) (startPointer im)
            (orbitControls_enabled im) in
        let s := set_store (update o (set_boundingBoxHelper true) (store s)) s in
        let s := set_interactionManager (Some im) s in
        dispatchEvent "object-selected" (set_selectedObject (Some o) s)
    end.

(** [SceneManager.deselectObject] and [selectObject]. *)
Definition deselectObject (s : SceneManager) : SceneManager :=
  match interactionManager s with
  | Some im => deselect im s
  | None => s
  end.

Definition selectObject (o : ObjId) (s : SceneManager) : SceneManager :=
  match interactionManager s with
  | Some im => select o im s
  | None => s
  end.

Definition isPinned_ (im : InteractionManager) (o : ObjId) : bool :=
  existsb (Nat.eqb o) (pinnedObjects im).

(** [startDrag(object, hitPoint)]. *)
Definition startDrag (o : ObjId) (hitPoint : Vector3) (im : InteractionManager)
           (s : SceneManager) : SceneManager :=
  if isPinned_ im o then s
  else
    match lookup o (store s) with
    | None => s
    | Some obj =>
        let rotating := String.eqb (interactionMode im) "rotate" in
        let plane_ :=
          if rotating then dragPlane im
          else setFromNormalAndCoplanarPoint (vec3 0 1 0) (vec3 0 0 0) in
        let offset :=
          if rotating then dragOffset im
          else vec3 (vx hitPoint - vx (position obj)) 0
                    (vz hitPoint - vz (position obj)) in
        set_interactionManager
          (Some (mkInteractionManager (im_selectedObject im) (pinnedObjects im)
                   true rotating (interactionMode im) hitPoint (position obj)
                   (rotation obj) plane_ offset (pointer im) (startPointer im)
                   (orbitControls_enabled im))) s
    end.

Definition set_position (p : Vector3) (v : Object3D) : Object3D :=
  mkObject p (rotation v) (scale v) (userData v).

Definition set_rotation_y (a : R) (v : Object3D) : Object3D :=
  mkObject (position v) (euler (ex (rotation v)) a (ez (rotation v)))
           (scale v) (userData v).

(** [handleTranslation], for the selected object [o]. *)
Definition handleTranslation (o : ObjId) (im : InteractionManager)
           (s : SceneManager) : SceneManager :=
  match intersectPlane (cam_ray (camera s) (pointer im)) (dragPlane im),
        lookup o (store s) with
  | Some intersection, Some obj =>
      let currentY := vy (position obj) in
      let newPosition :=
        vec3 (vx intersection - vx (dragOffset im)) currentY
             (vz intersection - vz (dragOffset im)) in
      set_store (update o (set_position newPosition) (store s)) s
  | _, _ => s
  end.

(** [handleRotation], for the selected object [o]. *)
Definition handleRotation (o : ObjId) (im : InteractionManager)
           (s : SceneManager) : SceneManager :=
  let deltaX := fst (pointer im) - fst (startPointer im) in
  let rotationSensitivity := 5 in
  let rotationAngle := deltaX * rotationSensitivity in
  set_store
    (update o (set_rotation_y (ey (objectStartRotation im) + rotationAngle))
            (store s)) s.

(** [getObjectState] of the object behind a reference. *)
Definition getObjectState (v : Object3D) : ObjectState :=
  mkState (position v) (rotation v) (scale v) (userData v).

(** [addToUndoStack]. *)
Definition addToUndoStack (a : Action) (s : SceneManager) : SceneManager :=
  set_redoStack [] (set_undoStack (push (undoStack s) a) s).

(** The [onObjectChanged] callback.  The interaction manager calls it
    with the object alone, so [previousState] is undefined. *)
Definition onObjectChanged (o : ObjId) (previousState : option ObjectState)
           (s : SceneManager) : SceneManager :=
  match lookup o (store s) with
  | None => s
  | Some obj =>
      addToUndoStack
        (mkAction "transform" o None previousState (Some (getObjectState obj))) s
  end.

Definition set_pointer (p : R * R) (im : InteractionManager) : InteractionManager :=
  mkInteractionManager (im_selectedObject im) (pinnedObjects im) (isDragging im)
    (isRotating im) (interactionMode im) (dragStartPosition im)
    (objectStartPosition im) (objectStartRotation im) (dragPlane im)
    (dragOffset im) p (startPointer im) (orbitControls_enabled im).

(** [onPointerMove], the event at normalized pointer coordinates [p]. *)
Definition onPointerMove (p : R * R) (s : SceneManager) : SceneManager :=
  match interactionManager s with
  | None => s
  | Some im =>
      let im := set_pointer p im in
      let s := set_interactionManager (Some im) s in
      match im_selectedObject im with
      | Some o =>
          if isDragging im && negb (isPinned_ im o) then
            let s := if isRotating im then handleRotation o im s
                     else handleTranslation o im s in
            onObjectChanged o None s
          else s
      | None => s
      end
  end.

Definition set_orbit (b : bool) (s : SceneManager) : SceneManager :=
  match interactionManager s with
  | None => s
  | Some im =>
      set_interactionManager
        (Some (mkInteractionManager (im_selectedObject im) (pinnedObjects im)
                 (isDragging im) (isRotating im) (interactionMode im)
                 (dragStartPosition im) (objectStartPosition im)
                 (objectStartRotation im) (dragPlane im) (dragOffset im)
                 (pointer im) (startPointer im) b)) s
  end.

(** [onPointerDown] for a plain left click at [p]; [hit] is the first
    intersection of the ray with a selectable object, as its root model
    and the point hit. *)
Definition onPointerDown (p : R * R) (hit : option (ObjId * Vector3))
           (s : SceneManager) : SceneManager :=
  match interactionManager s with
  | None => s
  | Some im =>
      let im :=
        mkInteractionManager (im_selectedObject im) (pinnedObjects im)
          (isDragging im) (isRotating im) (interactionMode im)
          (dragStartPosition im) (objectStartPosition im)
          (objectStartRotation im) (dragPlane im) (dragOffset im) p p
          (orbitControls_enabled im) in
      let s := set_interactionManager (Some im) s in
      match hit with
      | Some (selected, hitPoint) =>
          let s :=
            if same_object (im_selectedObject im) selected
            then startDrag selected hitPoint im s
            else select selected im s in
          set_orbit false s
      | None => set_orbit true (deselect im s)
      end
  end.

(** [onPointerUp]. *)
Definition onPointerUp (s : SceneManager) : SceneManager :=
  match interactionManager s with
  | None => s
  | Some im =>
      match im_selectedObject im with
      | Some _ =>
          if isDragging im then
            set_interactionManager
              (Some (mkInteractionManager (im_selectedObject im)
                       (pinnedObjects im) false false (interactionMode im)
                       (dragStartPosition im) (objectStartPosition im)
                       (objectStartRotation im) (dragPlane im) (dragOffset im)
                       (pointer im) (startPointer im) true)) s
          else s
      | None => s
      end
  end.

(** Sequencing of calls that may throw. *)
Definition andThen (c : Completion * SceneManager)
           (k : SceneManager -> Completion * SceneManager)
  : Completion * SceneManager :=
  match c with
  | (Returned, s) => k s
  | (Threw, s) => (Threw, s)
  end.

(** [applyObjectState(object, state)]: reading [state.position] of an
    undefined state throws. *)
Definition applyObjectState (o : ObjId) (state : option ObjectState)
           (s : SceneManager) : Completion * SceneManager :=
  match state with
  | None => (Threw, s)
  | Some st =>
      (Returned,
       set_store
         (update o (fun _ => mkObject (st_position st) (st_rotation st)
                                      (st_scale st) (st_userData st))
                 (store s)) s)
  end.

(** [this.interactionManager.updateControlsForObject(object)]: the class
    InteractionManager has no such method, so the call throws. *)
Definition updateControlsForObject (o : ObjId) (s : SceneManager)
  : Completion * SceneManager :=
  match interactionManager s with
  | Some _ => (Threw, s)
  | None => (Returned, s)
  end.

Definition pushRedo (a : Action) (s : SceneManager) : Completion * SceneManager :=
  (Returned, set_redoStack (push (redoStack s) a) s).

Definition pushUndo (a : Action) (s : SceneManager) : Completion * SceneManager :=
  (Returned, set_undoStack (push (undoStack s) a) s).

(** The removal both [undo] of an add and [redo] of a remove perform. *)
Definition takeOut (o : ObjId) (s : SceneManager) : SceneManager :=
  let s := scene_remove o s in
  let s := set_objects (without o (objects s)) s in
  if same_object (selectedObject s) o then deselectObject s else s.

(** The insertion both [undo] of a remove and [redo] of an add perform. *)
Definition putBack (o : ObjId) (state : option ObjectState) (s : SceneManager)
  : Completion * SceneManager :=
  let s := scene_add o s in
  let s := set_objects (push (objects s) o) s in
  applyObjectState o state s.

Definition undo (s : SceneManager) : Completion * SceneManager :=
  match pop (undoStack s) with
  | None => (Returned, s)
  | Some (action, rest) =>
      let s := set_undoStack rest s in
      if String.eqb (type action) "add" then
        pushRedo action (takeOut (object action) s)
      else if String.eqb (type action) "remove" then
        andThen (putBack (object action) (properties action) s)
                (pushRedo action)
      else if String.eqb (type action) "transform" then
        andThen (applyObjectState (object action) (previousProperties action) s)
                (fun s => andThen (updateControlsForObject (object action) s)
                                  (pushRedo action))
      else
        pushRedo action s
  end.

Definition redo (s : SceneManager) : Completion * SceneManager :=
  match pop (redoStack s) with
  | None => (Returned, s)
  | Some (action, rest) =>
      let s := set_redoStack rest s in
      if String.eqb (type action) "add" then
        andThen (putBack (object action) (properties action) s)
                (pushUndo action)
      else if String.eqb (type action) "remove" then
        pushUndo action (takeOut (object action) s)
      else if String.eqb (type action) "transform" then
        andThen (applyObjectState (object action) (newProperties action) s)
                (fun s => andThen (updateControlsForObject (object action) s)
                                  (pushUndo action))
      else
        pushUndo action s
  end.

(** The tail of the load callback of [addModel], from [scene.add] on. *)
Definition addModel (o : ObjId) (model : Object3D) (s : SceneManager)
  : SceneManager :=
  let s := set_store ((o, model) :: store s) s in
  let s := scene_add o s in
  let s := set_objects (push (objects s) o) s in
  let s := addToUndoStack (mkAction "add" o (Some (getObjectState model)) None None) s in
  selectObject o s.

(** [removeObject(objectToRemove)]. *)
Definition removeObject (o : ObjId) (s : SceneManager) : SceneManager :=
  match lookup o (store s) with
  | None => s
  | Some obj =>
      let s := addToUndoStack
                 (mkAction "remove" o (Some (getObjectState obj)) None None) s in
      let s := if same_object (selectedObject s) o then deselectObject s else s in
      let s := scene_remove o s in
      set_objects (without o (objects s)) s
  end.

(** ** Notions the statements use *)

(** The cyclic edges of a polygon, in loop order. *)
Definition edge_at (points : list Point2D) (i : nat) : Point2D * Point2D :=
  (point_at points i, point_at points (next_index points i)).

Definition edges (points : list Point2D) : list (Point2D * Point2D) :=
  map (edge_at points) (seq 0 (List.length points)).


Definition span (e : Point2D * Point2D) : R :=
  let dx := pt_x (snd e) - pt_x (fst e) in
  let dz := pt_z (snd e) - pt_z (fst e) in
  sqrt (dx * dx + dz * dz).

(** An edge the wall loop skips. *)
Definition degenerate (e : Point2D * Point2D) : bool := Rltb (span e) 0.001.


Definition Rsum (l : list R) : R := fold_right Rplus 0 l.

(** The shoelace term of an edge and the shoelace sum of a polygon as
    the specification writes them, in exact arithmetic:
    the sum of (x_{i+1} - x_i) * (z_{i+1} + z_i) over the cyclic edges. *)
Definition term (e : Point2D * Point2D) : R :=
  (pt_x (snd e) - pt_x (fst e)) * (pt_z (snd e) + pt_z (fst e)).

Definition shoelace_exact (points : list Point2D) : R :=
  Rsum (map term (edges points)).

(** Coordinates that are multiples of 1/1024 and at most 1024 in size.
    On polygons of such points, of at most 1024 points, no operation of
    the loop of [isClockwise] rounds. *)
Definition on_grid (p : Point2D) : Prop :=
  exists a b : Z,
    (Z.abs a <= 2 ^ 20)%Z /\ (Z.abs b <= 2 ^ 20)%Z /\
    pt_x p = IZR a / 1024 /\ pt_z p = IZR b / 1024.

(** The wall the loop makes for edge [i] when it does not skip it. *)
Definition wallOf (h : R) (points : list Point2D) (i : nat) : Wall :=
  let a := point_at points i in
  let b := point_at points (next_index points i) in
  let dx := pt_x b - pt_x a in
  let dz := pt_z b - pt_z a in
  mkWall i (sqrt (dx * dx + dz * dz)) h
         (vec3 ((pt_x a + pt_x b) / 2) (h / 2) ((pt_z a + pt_z b) / 2))
         (- atan2 dz dx)
         (Some (normalize (vec3 (- dz) 0 dx)))
         true 1.

(** The indices of the edges the wall loop keeps. *)
Definition keptEdges (points : list Point2D) : list nat :=
  filter (fun i => negb (degenerate (edge_at points i)))
         (seq 0 (List.length points)).

(** The indices of the edges the wall loop skips. *)
Definition skippedEdges (points : list Point2D) : list nat :=
  filter (fun i => degenerate (edge_at points i))
         (seq 0 (List.length points)).

(** The midpoint of edge [i]. *)
Definition midpoint (points : list Point2D) (i : nat) : Point2D :=
  let p1 := point_at points i in
  let p2 := point_at points (next_index points i) in
  point ((pt_x p1 + pt_x p2) / 2) ((pt_z p1 + pt_z p2) / 2).

(** The index, in the reversed list of [n] points, of the edge that
    edge [i] of the list becomes. *)
Definition reversed_edge (n i : nat) : nat :=
  if (S i =? n)%nat then i else (n - 2 - i)%nat.

(** A position [q] is on the outer side of edge [i] of a convex polygon
    when, seen from the midpoint of the edge, no vertex of the polygon
    lies in the half plane that [q] lies in. *)
Definition on_outer_side (points : list Point2D) (i : nat) (q : Vector3) : Prop :=
  let m := midpoint points i in
  forall p, In p points ->
    (vx q - pt_x m) * (pt_x p - pt_x m) + (vz q - pt_z m) * (pt_z p - pt_z m) <= 0.

(** ** Concrete polygons, rooms and cameras *)

(** A triangle listed clockwise: its shoelace sum is 1. *)
Definition cw_triangle : list Point2D := [point 0 0; point 0 1; point 1 0].

Definition two_points : list Point2D := [point 0 0; point 1 0].

(** The room [SceneManager.initRoom] starts with. *)
Definition defaultRoomPoints : list Point2D :=
  [point (-5) (-3); point 5 (-3); point 5 3; point (-5) 3].


(** The walls on the first and the last edge of that room, as the wall
    loop makes them, with inward normals along z and along x, in a room
    whose watermark texture is not loaded. *)
Definition wall_z : Wall :=
  mkWall 0 10 2.5 (vec3 0 1.25 (-3)) 0 (Some (vec3 0 0 1)) true 1.

Definition wall_x : Wall :=
  mkWall 3 6 2.5 (vec3 (-5) 1.25 0) (PI / 2) (Some (vec3 1 0 0)) true 1.

Definition two_wall_room : Room :=
  mkRoom 2.5 [RoomWall 0; RoomWall 3] (vec3 0 0 0) identityQuaternion
         [wall_z; wall_x] [] None false defaultWatermarkConfig [].

(** A camera looking down into the room along the unit direction
    (0.4, -sqrt(0.6879), 0.39): its dot product with the normal of
    [wall_z] is 0.39 and with the normal of [wall_x] is 0.4. *)
Definition borderline_camera : Camera :=
  mkCamera (vec3 (-4) 8 (-4))
           (vec3 0.4 (- sqrt 0.6879) 0.39)
           (fun _ => ray (vec3 (-4) 8 (-4)) (vec3 0.4 (- sqrt 0.6879) 0.39)).

(** ** A concrete scene *)

(** A chair standing on the floor at (0, 0, 2). *)
Definition chair : Object3D :=
  mkObject (vec3 0 0 2) (euler 0 0 0) (vec3 1 1 1)
           (mkUserData true true "chair" 0 false false).

(** A camera at (0, 3, 4) looking down at the floor; the ray through
    the pointer position (px, py) leaves it along (px, py - 3/5, -4/5),
    a unit vector at the centre of the screen. *)
Definition tilted_camera : Camera :=
  mkCamera (vec3 0 3 4) (vec3 0 (- 3 / 5) (- 4 / 5))
           (fun p => ray (vec3 0 3 4) (vec3 (fst p) (snd p - 3 / 5) (- 4 / 5))).

(** The interaction manager as its constructor leaves it. *)
Definition idle_manager : InteractionManager :=
  mkInteractionManager None [] false false "translate" (vec3 0 0 0)
    (vec3 0 0 0) (euler 0 0 0) (plane (vec3 1 0 0) 0) (vec3 0 0 0)
    (0, 0) (0, 0) true.

Definition empty_scene : SceneManager :=
  mkSceneManager [] [] tilted_camera [] None (Some idle_manager) [] [] [].

(** The chair is added, which selects it. *)
Definition scene_with_chair : SceneManager := addModel 1%nat chair empty_scene.

(** The point on top of the chair that the ray through the centre of
    the screen hits. *)
Definition grab_point : Vector3 := vec3 0 1.5 2.

(** Pointer down on the chair at the centre of the screen, one pointer
    move at that same position, pointer up. *)
Definition grabbed : SceneManager :=
  onPointerDown (0, 0) (Some (1%nat, grab_point)) scene_with_chair.

Definition dragged : SceneManager := onPointerMove (0, 0) grabbed.

Definition released : SceneManager := onPointerUp dragged.

(** The drag plane of a translate drag: the floor, y = 0. *)
Definition floorPlane : Plane :=
  setFromNormalAndCoplanarPoint (vec3 0 1 0) (vec3 0 0 0).

(** The interaction manager while the chair is dragged. *)
Definition dragging_manager : InteractionManager :=
  mkInteractionManager (Some 1%nat) [] true false "translate" grab_point
    (vec3 0 0 2) (euler 0 0 0) floorPlane (vec3 (0 - 0) 0 (2 - 2))
    (0, 0) (0, 0) false.

(** The chair after the drag, and the two actions on the undo stack. *)
Definition dragged_chair : Object3D :=
  set_position (vec3 0 0 0) (set_boundingBoxHelper true chair).

Definition add_chair : Action :=
  mkAction "add" 1%nat (Some (getObjectState chair)) None None.

Definition move_chair : Action :=
  mkAction "transform" 1%nat None None (Some (getObjectState dragged_chair)).

(** An action of a kind the stacks do not know. *)
Definition paint : Action := mkAction "paint" 1%nat None None None.

Definition scene_with_paint : SceneManager :=
  set_undoStack [paint] scene_with_chair.

Definition scene_with_redo_paint : SceneManager :=
  set_redoStack [paint] scene_with_chair.

(** ** More of Room.js *)

(** [getCurrentPoints]: a copy of the stored points. *)
Definition getCurrentPoints (r : Room) : list Point2D :=
  map (fun p => point (pt_x p) (pt_z p)) (_currentPoints r).

Definition set_watermarkConfig (c : WatermarkConfig) (r : Room) : Room :=
  mkRoom (height r) (group_children r) (group_position r) (group_quaternion r)
         (wallSegments r) (_currentPoints r) (watermark r)
         (watermarkTexture r) c (console r).

Definition with_enabled (b : bool) (c : WatermarkConfig) : WatermarkConfig :=
  mkWatermarkConfig b (size_width c) (size_height c) (position_x c)
                    (position_y c) (cfg_opacity c) (minScale c) (maxScale c)
                    (scaleDistance c) (fadeDistance c) (alwaysVisible c).

(** [setWatermarkEnabled(enabled)], which is [configureWatermark] with
    the one key [enabled]: the key is copied into the configuration,
    then [false] removes the watermark and [true] asks for the texture
    when there is no watermark. *)
Definition setWatermarkEnabled (b : bool) (r : Room) : Room :=
  let r := set_watermarkConfig (with_enabled b (watermarkConfig r)) r in
  if b then
    match watermark r with
    | None => loadWatermarkTexture r
    | Some _ => r
    end
  else removeWatermark r.

(** [Room.dispose]. *)
Definition dispose (r : Room) : Room :=
  set_currentPoints [] (clearRoom (set_watermarkTexture false r)).

(** ** More of FloorDimensionEditor.js *)

(** [l[i] = x] for an index inside the array. *)
Fixpoint replace_at {A : Type} (i : nat) (x : A) (l : list A) : list A :=
  match l, i with
  | [], _ => []
  | _ :: t, O => x :: t
  | h :: t, S j => h :: replace_at j x t
  end.

Definition _updateFloorGeometry (e : FloorDimensionEditor) : FloorDimensionEditor :=
  match floorMesh e with
  | None => e
  | Some _ =>
      if (List.length (ed_points e) <? 3)%nat then e
      else mkEditor (ed_points e) (handles e) (edgeLabels e)
                    (Some (ed_points e)) (isActive e)
  end.

Definition _updateEdgeLabels (e : FloorDimensionEditor) : FloorDimensionEditor :=
  _createEdgeLabels e.

(** [_onDrag(event)], when the drag controls have moved handle number
    [k] of [this.handles] to [p].  The handle is put back to the label
    height, its x and z are written into the point it stands for, and
    floor and labels are made again.  Writing into a point the array
    does not have throws. *)
Definition _onDrag (k : nat) (p : Vector3) (e : FloorDimensionEditor)
  : Completion * FloorDimensionEditor :=
  match nth_error (handles e) k with
  | None => (Returned, e)
  | Some handle =>
      let index := vertexIndex handle in
      let moved := mkHandle index (vec3 (vx p) (yPosition labelStyle) (vz p)) in
      let e := mkEditor (ed_points e) (replace_at k moved (handles e))
                        (edgeLabels e) (floorMesh e) (isActive e) in
      if (index <? List.length (ed_points e))%nat then
        let e := mkEditor (replace_at index (point (vx p) (vz p)) (ed_points e))
                          (handles e) (edgeLabels e) (floorMesh e) (isActive e) in
        (Returned, _updateEdgeLabels (_updateFloorGeometry e))
      else (Threw, e)
  end.

(** ** More of SceneManager.js: the floor editor session *)

Definition conjugate (q : Quaternion) : Quaternion :=
  quat (- qx q) (- qy q) (- qz q) (qw q).

(** [new Vector3(p.x, 0, p.z).applyMatrix4(room.group.matrixWorld)],
    read back as a floor point. *)
Definition localToWorld (r : Room) (localPoint : Point2D) : Point2D :=
  let worldPoint :=
    getWorldPosition r (vec3 (pt_x localPoint) 0 (pt_z localPoint)) in
  point (vx worldPoint) (vz worldPoint).

(** [new Vector3(p.x, 0, p.z).applyMatrix4(inverse of matrixWorld)]: the
    inverse of the world matrix of an unscaled group with a unit
    quaternion takes the translation away and turns back. *)
Definition worldToLocal (r : Room) (worldPoint : Point2D) : Point2D :=
  let localP :=
    applyQuaternion
      (sub (vec3 (pt_x worldPoint) 0 (pt_z worldPoint)) (group_position r))
      (conjugate (group_quaternion r)) in
  point (vx localP) (vz localP).

(** The scene manager with its room and its floor editor.
    [onPointsUpdated] tells whether the editor holds the commit callback
    that [toggleFloorEditor] hands to [initEditor], or null. *)
Record Planner := mkPlanner {
  sceneManager : SceneManager;
  room : Room;
  floorDimensionEditorInstance : FloorDimensionEditor;
  onPointsUpdated : bool
}.

(** The callback [toggleFloorEditor] hands to the editor: the points
    come back to room-local space and the room is built from them. *)
Definition onFloorPointsUpdated (updatedWorldPoints : list Point2D)
           (a : Planner) : Planner :=
  let newLocalPoints := map (worldToLocal (room a)) updatedWorldPoints in
  mkPlanner (dispatchEvent "room-shape-updated" (sceneManager a))
            (buildFromPolygon newLocalPoints false (room a))
            (floorDimensionEditorInstance a) (onPointsUpdated a).

(** [toggleFloorEditor]: closes an active editor and gives the orbit
    controls back; otherwise, for a room of three points or more,
    deselects and opens the editor on the room's points in world space.
    (The [enabled] flag it writes on the interaction manager is read by
    nothing and is not kept here.) *)
Definition toggleFloorEditor (a : Planner) : Planner :=
  if isActive (floorDimensionEditorInstance a) then
    mkPlanner (set_orbit true (sceneManager a)) (room a)
              (clearEditor (floorDimensionEditorInstance a)) false
  else
    let localRoomPoints := getCurrentPoints (room a) in
    if (3 <=? List.length localRoomPoints)%nat then
      let initialPointsForEditor := map (localToWorld (room a)) localRoomPoints in
      mkPlanner (deselectObject (sceneManager a)) (room a)
                (initEditor initialPointsForEditor (floorDimensionEditorInstance a))
                true
    else a.

(** [_onDragEnd]: the orbit controls come back and the callback, when
    there is one, gets a copy of the points. *)
Definition _onDragEnd (a : Planner) : Planner :=
  let a := mkPlanner (set_orbit true (sceneManager a)) (room a)
                     (floorDimensionEditorInstance a) (onPointsUpdated a) in
  if onPointsUpdated a then
    onFloorPointsUpdated
      (map (fun p => point (pt_x p) (pt_z p))
           (ed_points (floorDimensionEditorInstance a))) a
  else a.

(** ** More of InteractionManager.js and SceneManager.js *)

Definition set_pinnedObjects (l : list ObjId) (im : InteractionManager)
  : InteractionManager :=
  mkInteractionManager (im_selectedObject im) l (isDragging im)
    (isRotating im) (interactionMode im) (dragStartPosition im)
    (objectStartPosition im) (objectStartRotation im) (dragPlane im)
    (dragOffset im) (pointer im) (startPointer im) (orbitControls_enabled im).

Definition set_isPinned (b : bool) (v : Object3D) : Object3D :=
  let u := userData v in
  mkObject (position v) (rotation v) (scale v)
           (mkUserData (isModelRoot u) (selectable u) (modelType u)
                       (finalYPosition u) b (boundingBoxHelper u)).

(** [pinnedObjects.add(uuid)] on the set. *)
Definition set_add (o : ObjId) (l : list ObjId) : list ObjId :=
  if existsb (Nat.eqb o) l then l else l ++ [o].

(** [pinObject(object)], with the [onObjectPinned] callback.  (The pin
    mesh that [updatePinVisual] hangs on the object is a child of the
    object and is not among the fields kept here.) *)
Definition pinObject (o : ObjId) (im : InteractionManager) (s : SceneManager)
  : SceneManager :=
  let im := set_pinnedObjects (set_add o (pinnedObjects im)) im in
  let s := set_store (update o (set_isPinned true) (store s)) s in
  dispatchEvent "object-pinned" (set_interactionManager (Some im) s).

(** [unpinObject(object)], with the [onObjectUnpinned] callback. *)
Definition unpinObject (o : ObjId) (im : InteractionManager) (s : SceneManager)
  : SceneManager :=
  let im := set_pinnedObjects (without o (pinnedObjects im)) im in
  let s := set_store (update o (set_isPinned false) (store s)) s in
  dispatchEvent "object-unpinned" (set_interactionManager (Some im) s).

(** [togglePin(object)]. *)
Definition togglePin (o : ObjId) (im : InteractionManager) (s : SceneManager)
  : SceneManager :=
  if isPinned_ im o then unpinObject o im s else pinObject o im s.

(** [THREE.MathUtils.degToRad]. *)
Definition degToRad (degrees : R) : R := degrees * (PI / 180).

(** [rotateObject(object, angleDegrees)] of the interaction manager. *)
Definition rotateObject (o : ObjId) (angleDegrees : R)
           (im : InteractionManager) (s : SceneManager) : SceneManager :=
  if isPinned_ im o then s
  else
    let angleRadians := degToRad angleDegrees in
    let s :=
      set_store
        (update o (fun v => set_rotation_y (ey (rotation v) + angleRadians) v)
                (store s)) s in
    onObjectChanged o None s.

(** The [onObjectDeleted] callback. *)
Definition onObjectDeleted (o : ObjId) (s : SceneManager) : SceneManager :=
  match lookup o (store s) with
  | None => s
  | Some obj =>
      let originalState := getObjectState obj in
      let s := set_objects (without o (objects s)) s in
      addToUndoStack (mkAction "remove" o (Some originalState) None None) s
  end.

(** [deleteSelected]. *)
Definition deleteSelected (im : InteractionManager) (s : SceneManager)
  : SceneManager :=
  match im_selectedObject im with
  | None => s
  | Some objectToDelete =>
      let s := deselect im s in
      let s :=
        match interactionManager s with
        | Some im =>
            set_interactionManager
              (Some (set_pinnedObjects (without objectToDelete (pinnedObjects im)) im)) s
        | None => s
        end in
      let s := scene_remove objectToDelete s in
      onObjectDeleted objectToDelete s
  end.

(** The tail of the callback of [duplicateObject]: [clone] names the
    copy the loader made of [objectToDuplicate]. *)
Definition duplicateObject (objectToDuplicate clone : ObjId) (s : SceneManager)
  : SceneManager :=
  match lookup objectToDuplicate (store s) with
  | None => s
  | Some orig =>
      let u := userData orig in
      let copy :=
        mkObject (vec3 (vx (position orig) + 0.5) (vy (position orig))
                       (vz (position orig) + 0.5))
                 (rotation orig) (scale orig)
                 (mkUserData true true (modelType u) (finalYPosition u)
                             (isPinned u) (boundingBoxHelper u)) in
      let s := set_store ((clone, copy) :: store s) s in
      let s := set_objects (push (objects s) clone) s in
      let s := scene_add clone s in
      let s := addToUndoStack
                 (mkAction "add" clone (Some (getObjectState copy)) None None) s in
      selectObject clone s
  end.

(** ** More notions and concrete rooms *)

(** The group holds one watermark mesh when the room has a watermark,
    and none when it has not. *)
Definition watermark_consistent (r : Room) : Prop :=
  filter is_watermark (group_children r)
  = match watermark r with Some _ => [RoomWatermark] | None => [] end.

Definition has_normal (w : Wall) : bool :=
  match inwardNormalLocalXZ w with Some _ => true | None => false end.

(** What the watermark step may not touch. *)
Definition same_but_watermark (r r' : Room) : Prop :=
  height r' = height r /\
  group_position r' = group_position r /\
  group_quaternion r' = group_quaternion r /\
  wallSegments r' = wallSegments r /\
  _currentPoints r' = _currentPoints r /\
  watermarkTexture r' = watermarkTexture r /\
  watermarkConfig r' = watermarkConfig r /\
  console r' = console r.

(** The wall facing [wall_z], on the third edge of the default room. *)
Definition wall_z_back : Wall :=
  mkWall 2 10 2.5 (vec3 0 1.25 3) PI (Some (vec3 0 0 (-1))) true 1.

Definition facing_walls_room : Room :=
  mkRoom 2.5 [RoomWall 0; RoomWall 2] (vec3 0 0 0) identityQuaternion
         [wall_z; wall_z_back] [] None false defaultWatermarkConfig [].

(** The two-wall room once the watermark texture has been asked for. *)
Definition textured_room : Room := set_watermarkTexture true two_wall_room.

(** The same room with a watermark on its first wall. *)
Definition watermarked_room : Room :=
  set_currentWallIndex 0 (createWatermark wall_z textured_room).

(** The selection of the scene manager is that of its interaction
    manager. *)
Definition in_sync (s : SceneManager) : Prop :=
  match interactionManager s with
  | Some im => selectedObject s = im_selectedObject im
  | None => True
  end.

(** The interaction manager once the chair is added, which selects it. *)
Definition selecting_manager : InteractionManager :=
  mkInteractionManager (Some 1%nat) [] false false "translate" (vec3 0 0 0)
    (vec3 0 0 0) (euler 0 0 0) (plane (vec3 1 0 0) 0) (vec3 0 0 0)
    (0, 0) (0, 0) true.

(** Settles the comparisons of numerals that a concrete run meets. *)
Ltac settle_Rltb :=
  repeat match goal with
         | |- context [Rltb ?a ?b] =>
             first [ replace (Rltb a b) with true
                       by (symmetry; unfold Rltb; destruct (Rlt_dec a b);
                           [reflexivity|lra])
                   | replace (Rltb a b) with false
                       by (symmetry; unfold Rltb; destruct (Rlt_dec a b);
                           [lra|reflexivity]) ]
         end.

(** Reads the fields of a scene manager that setters have built. *)
Ltac scene_fields :=
  cbv [dispatchEvent set_selectedObject set_interactionManager set_store
       set_redoStack set_undoStack set_objects set_scene_children
       scene_children store camera objects selectedObject interactionManager
       undoStack redoStack dispatched].

(** Runs the operations on a scene manager down to the tests they make
    and goes through the outcomes of each test. *)
Ltac run_operations :=
  cbv [onPointerDown onPointerMove onPointerUp selectObject deselectObject
       select deselect addModel removeObject duplicateObject undo redo
       deleteSelected togglePin pinObject unpinObject rotateObject startDrag
       set_orbit set_pointer handleTranslation handleRotation onObjectChanged
       addToUndoStack takeOut putBack applyObjectState updateControlsForObject
       pushRedo pushUndo andThen scene_add scene_remove onObjectDeleted
       set_pinnedObjects dispatchEvent set_selectedObject
       set_interactionManager set_store set_redoStack set_undoStack
       set_objects set_scene_children scene_children store camera objects
       selectedObject interactionManager undoStack redoStack dispatched
       im_selectedObject pinnedObjects isDragging isRotating interactionMode
       dragStartPosition objectStartPosition objectStartRotation dragPlane
       dragOffset pointer startPointer orbitControls_enabled fst snd];
  repeat (match goal with
          | |- context [match ?x with _ => _ end] =>
              lazymatch x with
              | context [match _ with _ => _ end] => fail
              | _ => destruct x
              end
          end; cbv beta iota zeta).

(** * Properties *)

(** ** Rounding to a double *)

Lemma floor_bounds (y : R) : IZR (up y - 1) <= y < IZR (up y - 1) + 1.
Proof.
  destruct (archimed y) as [A B]. rewrite minus_IZR. lra.
Qed.

Lemma nearest_even_near (y : R) (n : Z) :
  Rabs (y - IZR n) < 1 / 2 -> nearest_even y = n.
Proof.
  intros H. apply Rabs_def2 in H. destruct H as [H1 H2].
  unfold nearest_even. pose proof (floor_bounds y) as [F1 F2].
  set (f := (up y - 1)%Z) in *.
  assert (C : (n = f \/ n = f + 1)%Z).
  { assert (IZR n < IZR f + 3 / 2) by lra.
    assert (IZR f - 1 / 2 < IZR n) by lra.
    assert (IZR n < IZR (f + 2)) by (rewrite plus_IZR; lra).
    assert (IZR (f - 1) < IZR n) by (rewrite minus_IZR; lra).
    apply lt_IZR in H3, H4. lia. }
  destruct C as [-> | ->].
  - destruct (Rlt_dec (y - IZR f) (1 / 2)); [reflexivity|lra].
  - rewrite plus_IZR in H1, H2.
    destruct (Rlt_dec (y - IZR f) (1 / 2)); [lra|].
    destruct (Rlt_dec (1 / 2) (y - IZR f)); [reflexivity|lra].
Qed.

Lemma nearest_even_tie (y : R) (n : Z) :
  y = IZR n + 1 / 2 -> nearest_even y = if Z.even n then n else (n + 1)%Z.
Proof.
  intros H. unfold nearest_even. pose proof (floor_bounds y) as [F1 F2].
  set (f := (up y - 1)%Z) in *.
  assert (C : n = f).
  { assert (IZR n < IZR (f + 1)) by (rewrite plus_IZR; lra).
    assert (IZR (f - 1) < IZR n) by (rewrite minus_IZR; lra).
    apply lt_IZR in H0, H1. lia. }
  subst n.
  destruct (Rlt_dec (y - IZR f) (1 / 2)); [lra|].
  destruct (Rlt_dec (1 / 2) (y - IZR f)); [lra|]. reflexivity.
Qed.

Lemma nearest_even_IZR (n : Z) : nearest_even (IZR n) = n.
Proof.
  apply nearest_even_near. rewrite Rminus_diag, Rabs_R0. lra.
Qed.

Lemma nearest_even_opp (y : R) : nearest_even (- y) = (- nearest_even y)%Z.
Proof.
  pose proof (floor_bounds y) as [F1 F2]. set (f := (up y - 1)%Z) in *.
  destruct (Rtotal_order (y - IZR f) (1 / 2)) as [L|[E|G]].
  - rewrite (nearest_even_near y f) by (apply Rabs_def1; lra).
    apply nearest_even_near. rewrite opp_IZR. apply Rabs_def1; lra.
  - assert (Y : y = IZR f + 1 / 2) by lra.
    rewrite (nearest_even_tie y f Y).
    assert (Y' : - y = IZR (- (f + 1)) + 1 / 2)
      by (rewrite opp_IZR, plus_IZR; lra).
    rewrite (nearest_even_tie (- y) _ Y').
    rewrite Z.even_opp. replace (f + 1)%Z with (Z.succ f) by lia.
    rewrite Z.even_succ, <- Z.negb_even.
    destruct (Z.even f); simpl; lia.
  - rewrite (nearest_even_near y (f + 1))
      by (rewrite plus_IZR; apply Rabs_def1; lra).
    apply nearest_even_near. rewrite opp_IZR, plus_IZR.
    apply Rabs_def1; lra.
Qed.

Lemma pow2_pos (e : Z) : 0 < powerRZ 2 e.
Proof. apply powerRZ_lt. lra. Qed.

Lemma pow2_add (a b : Z) : powerRZ 2 (a + b) = powerRZ 2 a * powerRZ 2 b.
Proof. apply powerRZ_add. lra. Qed.

Lemma pow2_succ (e : Z) : powerRZ 2 (e + 1) = 2 * powerRZ 2 e.
Proof. rewrite pow2_add. simpl. lra. Qed.

Lemma pow2_IZR (k : Z) : (0 <= k)%Z -> powerRZ 2 k = IZR (2 ^ k).
Proof.
  intros H. rewrite <- (Z2Nat.id k H), <- pow_powerRZ, <- pow_IZR.
  reflexivity.
Qed.

Lemma pow2_ge1 (k : Z) : (0 <= k)%Z -> 1 <= powerRZ 2 k.
Proof.
  intros H. rewrite <- (Z2Nat.id k H), <- pow_powerRZ.
  apply pow_R1_Rle. lra.
Qed.

Lemma pow2_le (n m : Z) : (n <= m)%Z -> powerRZ 2 n <= powerRZ 2 m.
Proof.
  intros H. replace m with (n + (m - n))%Z by lia. rewrite pow2_add.
  pose proof (pow2_pos n). pose proof (pow2_ge1 (m - n) ltac:(lia)). nra.
Qed.

Lemma pow2_lt (n m : Z) : (n < m)%Z -> powerRZ 2 n < powerRZ 2 m.
Proof.
  intros H. pose proof (pow2_le (n + 1) m ltac:(lia)) as L.
  rewrite pow2_succ in L. pose proof (pow2_pos n). lra.
Qed.

Lemma pow2_lt_inv (n m : Z) : powerRZ 2 n < powerRZ 2 m -> (n < m)%Z.
Proof.
  intros H. destruct (Z_lt_le_dec n m) as [L|L]; [exact L|].
  pose proof (pow2_le m n L). lra.
Qed.

Lemma pow2_exp (e : Z) : powerRZ 2 e = exp (IZR e * ln 2).
Proof. rewrite powerRZ_Rpower by lra. reflexivity. Qed.

Lemma log2_floor_spec (a : R) :
  0 < a -> powerRZ 2 (log2_floor a) <= a < powerRZ 2 (log2_floor a + 1).
Proof.
  intros A. unfold log2_floor.
  pose proof (floor_bounds (ln a / ln 2)) as [F1 F2].
  set (f := (up (ln a / ln 2) - 1)%Z) in *.
  pose proof ln_lt_2 as L2.
  assert (P : 0 < ln 2) by lra.
  assert (B1 : IZR f * ln 2 <= ln a).
  { apply (Rmult_le_compat_r (ln 2)) in F1; [|lra].
    unfold Rdiv in F1. rewrite Rmult_assoc, Rinv_l, Rmult_1_r in F1 by lra.
    exact F1. }
  assert (B2 : ln a < IZR (f + 1) * ln 2).
  { rewrite plus_IZR. apply (Rmult_lt_compat_r (ln 2)) in F2; [|lra].
    unfold Rdiv in F2. rewrite Rmult_assoc, Rinv_l, Rmult_1_r in F2 by lra.
    exact F2. }
  rewrite !pow2_exp. split.
  - apply Rle_trans with (exp (ln a)); [|rewrite (exp_ln a A); lra].
    destruct B1 as [B1|B1];
      [left; apply exp_increasing, B1|right; rewrite B1; reflexivity].
  - apply Rle_lt_trans with (exp (ln a)); [rewrite (exp_ln a A); lra|].
    apply exp_increasing, B2.
Qed.

Lemma exponent_range (x : R) : (-1022 <= exponent x <= 1023)%Z.
Proof.
  unfold exponent. destruct (Rlt_dec (Rabs x) (powerRZ 2 (-1022))) as [S|S]; [lia|].
  assert (A : 0 < Rabs x) by (pose proof (pow2_pos (-1022)); lra).
  destruct (log2_floor_spec (Rabs x) A) as [_ U].
  assert (powerRZ 2 (-1022) < powerRZ 2 (log2_floor (Rabs x) + 1)) by lra.
  apply pow2_lt_inv in H. lia.
Qed.

Lemma exponent_lower (x : R) :
  (-1022 < exponent x)%Z -> powerRZ 2 (exponent x) <= Rabs x.
Proof.
  unfold exponent. destruct (Rlt_dec (Rabs x) (powerRZ 2 (-1022))) as [S|S]; [lia|].
  intros _.
  assert (A : 0 < Rabs x) by (pose proof (pow2_pos (-1022)); lra).
  destruct (log2_floor_spec (Rabs x) A) as [L _].
  pose proof (pow2_le (Z.min 1023 (log2_floor (Rabs x))) (log2_floor (Rabs x))
                      ltac:(lia)).
  lra.
Qed.

Lemma exponent_upper (x : R) :
  (exponent x < 1023)%Z -> Rabs x < powerRZ 2 (exponent x + 1).
Proof.
  unfold exponent. destruct (Rlt_dec (Rabs x) (powerRZ 2 (-1022))) as [S|S].
  - intros _. pose proof (pow2_lt (-1022) (-1022 + 1) ltac:(lia)). lra.
  - intros H.
    assert (A : 0 < Rabs x) by (pose proof (pow2_pos (-1022)); lra).
    destruct (log2_floor_spec (Rabs x) A) as [_ U].
    replace (Z.min 1023 (log2_floor (Rabs x))) with (log2_floor (Rabs x))
      by lia.
    exact U.
Qed.

(** The exponent is the one the bounds name. *)
Lemma exponent_eq (x : R) (e : Z) :
  (-1022 <= e <= 1023)%Z ->
  ((-1022 < e)%Z -> powerRZ 2 e <= Rabs x) ->
  ((e < 1023)%Z -> Rabs x < powerRZ 2 (e + 1)) ->
  exponent x = e.
Proof.
  intros R L U. pose proof (exponent_range x) as R'.
  destruct (Z.lt_trichotomy (exponent x) e) as [H|[H|H]]; [|exact H|].
  - pose proof (exponent_upper x ltac:(lia)) as U'.
    pose proof (L ltac:(lia)) as L'.
    pose proof (pow2_le (exponent x + 1) e ltac:(lia)). lra.
  - pose proof (exponent_lower x ltac:(lia)) as L'.
    pose proof (U ltac:(lia)) as U'.
    pose proof (pow2_le (e + 1) (exponent x) ltac:(lia)). lra.
Qed.

Lemma exponent_opp (x : R) : exponent (- x) = exponent x.
Proof. unfold exponent. rewrite Rabs_Ropp. reflexivity. Qed.

Lemma ulp_pos (x : R) : 0 < ulp x.
Proof. apply pow2_pos. Qed.

Lemma round64_opp (x : R) : round64 (- x) = - round64 x.
Proof.
  unfold round64, ulp. rewrite exponent_opp.
  pose proof (pow2_pos (exponent x - 52)) as P.
  generalize dependent (powerRZ 2 (exponent x - 52)). intros u P.
  replace (- x / u) with (- (x / u)) by (field; lra).
  rewrite nearest_even_opp, opp_IZR. ring.
Qed.

(** A number of the form [m * 2^k] with [2^k] no finer than the spacing
    at the number is kept. *)
Lemma round64_multiple (x : R) (m : Z) (k : Z) :
  x = IZR m * powerRZ 2 k -> (exponent x - 52 <= k)%Z -> round64 x = x.
Proof.
  intros X K. unfold round64, ulp.
  generalize dependent (exponent x - 52)%Z. intros u K.
  pose proof (pow2_pos u) as P.
  assert (Q : x / powerRZ 2 u = IZR (m * 2 ^ (k - u))).
  { rewrite mult_IZR, <- pow2_IZR by lia. rewrite X at 1.
    replace k with (u + (k - u))%Z at 1 by lia. rewrite pow2_add.
    revert P. generalize (powerRZ 2 u) (powerRZ 2 (k - u)).
    intros a b Pa. field. lra. }
  rewrite Q, nearest_even_IZR, <- Q.
  revert P. generalize (powerRZ 2 u). intros a Pa. field. lra.
Qed.

(** Numbers with a significand of 53 bits and an exponent in range. *)
Lemma round64_exact (m k : Z) :
  (Z.abs m < 2 ^ 53)%Z -> (-1074 <= k)%Z -> (k + 52 <= 1023)%Z ->
  round64 (IZR m * powerRZ 2 k) = IZR m * powerRZ 2 k.
Proof.
  intros M K1 K2. apply (round64_multiple _ m k); [reflexivity|].
  set (x := IZR m * powerRZ 2 k).
  pose proof (exponent_range x) as R.
  destruct (Z_le_gt_dec (exponent x - 52) k) as [L|G]; [exact L|exfalso].
  pose proof (exponent_lower x ltac:(lia)) as Lo.
  assert (A : Rabs x < powerRZ 2 (k + 53)).
  { unfold x. rewrite Rabs_mult, (Rabs_pos_eq (powerRZ 2 k))
      by (apply Rlt_le, pow2_pos).
    replace (k + 53)%Z with (53 + k)%Z by lia. rewrite pow2_add.
    apply Rmult_lt_compat_r; [apply pow2_pos|].
    rewrite <- abs_IZR, pow2_IZR by lia. apply IZR_lt. exact M. }
  pose proof (pow2_le (k + 53) (exponent x) ltac:(lia)). lra.
Qed.



Lemma round64_0 : round64 0 = 0.
Proof.
  replace 0 with (IZR 0 * powerRZ 2 0) at 1 by (simpl; lra).
  rewrite round64_exact by (simpl; lia). simpl. lra.
Qed.


(** Rounding a number half way between two neighbours. *)
Lemma round64_half (x : R) (e n : Z) :
  (-1022 <= e <= 1023)%Z ->
  ((-1022 < e)%Z -> powerRZ 2 e <= Rabs x) ->
  ((e < 1023)%Z -> Rabs x < powerRZ 2 (e + 1)) ->
  x = (IZR n + 1 / 2) * powerRZ 2 (e - 52) ->
  round64 x = IZR (if Z.even n then n else n + 1) * powerRZ 2 (e - 52).
Proof.
  intros R L U N. unfold round64, ulp.
  rewrite (exponent_eq x e R L U). f_equal. f_equal.
  apply nearest_even_tie.
  pose proof (pow2_pos (e - 52)) as P. rewrite N. field. lra.
Qed.



Lemma round64_pos_half (x : R) (e n k den : Z) :
  (-1022 < e < 1023)%Z -> k = (52 - e)%Z -> (0 <= k)%Z -> den = (2 ^ k)%Z ->
  4503599627370496 / IZR den <= x < 9007199254740992 / IZR den ->
  x = (IZR n + 1 / 2) / IZR den ->
  round64 x = IZR (if Z.even n then n else n + 1) / IZR den.
Proof.
  intros E K K0 D B N.
  assert (P : 0 < IZR den).
  { rewrite D, <- pow2_IZR by lia. apply pow2_pos. }
  assert (U : powerRZ 2 (e - 52) = / IZR den).
  { replace (e - 52)%Z with (- k)%Z by lia.
    rewrite powerRZ_neg', pow2_IZR, D by lia. reflexivity. }
  assert (X : 0 < x).
  { apply Rlt_le_trans with (4503599627370496 / IZR den); [|lra].
    apply Rdiv_lt_0_compat; lra. }
  unfold Rdiv. rewrite <- U.
  apply round64_half.
  - lia.
  - intros _. rewrite (Rabs_pos_eq x) by lra.
    replace e with (52 + (e - 52))%Z at 1 by lia.
    rewrite pow2_add, U. simpl powerRZ. lra.
  - intros _. rewrite (Rabs_pos_eq x) by lra.
    replace (e + 1)%Z with (53 + (e - 52))%Z by lia.
    rewrite pow2_add, U. simpl powerRZ. lra.
  - rewrite U. exact N.
Qed.

Lemma round64_neg_half (x : R) (e n k den : Z) :
  (-1022 < e < 1023)%Z -> k = (52 - e)%Z -> (0 <= k)%Z -> den = (2 ^ k)%Z ->
  4503599627370496 / IZR den <= - x < 9007199254740992 / IZR den ->
  - x = (IZR n + 1 / 2) / IZR den ->
  round64 x = - (IZR (if Z.even n then n else n + 1) / IZR den).
Proof.
  intros E K K0 D B N.
  rewrite <- (Ropp_involutive x), round64_opp.
  rewrite (round64_pos_half (- x) e n k den E K K0 D B N). reflexivity.
Qed.

(** ** Cyclic edges under reversal *)








Lemma Rsum_perm (l l' : list R) : Permutation l l' -> Rsum l = Rsum l'.
Proof.
  induction 1; simpl; try lra.
Qed.



Lemma Rltb_true (a b : R) : Rltb a b = true <-> a < b.
Proof.
  unfold Rltb. destruct (Rlt_dec a b); split; intros; try easy.
Qed.

Lemma Rltb_false (a b : R) : Rltb a b = false <-> b <= a.
Proof.
  unfold Rltb. destruct (Rlt_dec a b); split; intros; try easy; lra.
Qed.

Lemma isClockwise_true (l : list Point2D) :
  (2 <= List.length l)%nat -> (isClockwise l = true <-> 0 < shoelace_sum l).
Proof.
  intros H. unfold isClockwise.
  destruct (Nat.ltb_spec (List.length l) 2); [lia|]. apply Rltb_true.
Qed.

(** *** The rounded sum of a triangle *)







(** *** Polygons on which the loop rounds nowhere *)

Lemma round64_dyadic (m k : Z) :
  (Z.abs m < 2 ^ 53)%Z -> (0 <= k <= 1074)%Z ->
  round64 (IZR m / IZR (2 ^ k)) = IZR m / IZR (2 ^ k).
Proof.
  intros M K. unfold Rdiv. rewrite <- pow2_IZR by lia.
  rewrite <- powerRZ_neg'. apply round64_exact; lia.
Qed.

Lemma point_at_on_grid (points : list Point2D) (i : nat) :
  Forall on_grid points -> on_grid (point_at points i).
Proof.
  intros F. unfold point_at.
  destruct (nth_in_or_default i points (point 0 0)) as [I|E].
  - rewrite Forall_forall in F. apply F, I.
  - rewrite E. exists 0%Z, 0%Z. cbn [pt_x pt_z]. repeat split; try lia; lra.
Qed.

(** On the grid a term of the loop is the exact term, a multiple of
    2^-20 of size at most 2^22. *)
Lemma shoelace_term_on_grid (p q : Point2D) :
  on_grid p -> on_grid q ->
  exists t : Z,
    (Z.abs t <= 2 ^ 42)%Z /\
    shoelace_term p q = IZR t / IZR (2 ^ 20) /\
    term (p, q) = IZR t / IZR (2 ^ 20).
Proof.
  intros (a & b & A & B & X & Z) (a' & b' & A' & B' & X' & Z').
  exists ((a' - a) * (b' + b))%Z.
  assert (T : (Z.abs ((a' - a) * (b' + b)) <= 2 ^ 42)%Z).
  { rewrite Z.abs_mul. change (2 ^ 42)%Z with (2 ^ 21 * 2 ^ 21)%Z.
    apply Z.mul_le_mono_nonneg; lia. }
  split; [exact T|].
  assert (E : (pt_x q - pt_x p) * (pt_z q + pt_z p)
              = IZR ((a' - a) * (b' + b)) / IZR (2 ^ 20)).
  { rewrite X, Z, X', Z', mult_IZR, minus_IZR, plus_IZR.
    change (IZR (2 ^ 20)) with 1048576. lra. }
  split; [|exact E].
  unfold shoelace_term.
  replace (pt_x q - pt_x p) with (IZR (a' - a) / IZR (2 ^ 10))
    by (rewrite X, X', minus_IZR; change (IZR (2 ^ 10)) with 1024; lra).
  replace (pt_z q + pt_z p) with (IZR (b' + b) / IZR (2 ^ 10))
    by (rewrite Z, Z', plus_IZR; change (IZR (2 ^ 10)) with 1024; lra).
  rewrite !round64_dyadic by lia.
  replace (IZR (a' - a) / IZR (2 ^ 10) * (IZR (b' + b) / IZR (2 ^ 10)))
    with (IZR ((a' - a) * (b' + b)) / IZR (2 ^ 20))
    by (rewrite mult_IZR; change (IZR (2 ^ 10)) with 1024;
        change (IZR (2 ^ 20)) with 1048576; lra).
  apply round64_dyadic; lia.
Qed.

Lemma shoelace_fold_on_grid (points : list Point2D) (idx : list nat) (s : Z) :
  Forall on_grid points ->
  (Z.abs s + Z.of_nat (List.length idx) * 2 ^ 42 <= 2 ^ 52)%Z ->
  fold_left
    (fun sum i =>
       round64 (sum + shoelace_term (point_at points i)
                                    (point_at points (next_index points i))))
    idx (IZR s / IZR (2 ^ 20))
  = IZR s / IZR (2 ^ 20) + Rsum (map (fun i => term (edge_at points i)) idx).
Proof.
  intros F. revert s. induction idx as [|i idx IH]; intros s B.
  - simpl. lra.
  - cbn [fold_left map Rsum fold_right].
    destruct (shoelace_term_on_grid
                (point_at points i) (point_at points (next_index points i))
                (point_at_on_grid points i F)
                (point_at_on_grid points (next_index points i) F))
      as (t & T & E1 & E2).
    cbn [List.length] in B.
    unfold edge_at at 1. rewrite E1, E2.
    replace (IZR s / IZR (2 ^ 20) + IZR t / IZR (2 ^ 20))
      with (IZR (s + t) / IZR (2 ^ 20))
      by (rewrite plus_IZR; change (IZR (2 ^ 20)) with 1048576; lra).
    rewrite round64_dyadic by lia.
    rewrite IH by lia.
    rewrite plus_IZR. change (IZR (2 ^ 20)) with 1048576. unfold Rsum. lra.
Qed.

(** On the grid the loop computes the exact shoelace sum. *)
Lemma shoelace_sum_on_grid (points : list Point2D) :
  Forall on_grid points -> (List.length points <= 1024)%nat ->
  shoelace_sum points = shoelace_exact points.
Proof.
  intros F L. unfold shoelace_sum, shoelace_exact, edges.
  replace 0 with (IZR 0 / IZR (2 ^ 20)) at 1
    by (change (IZR (2 ^ 20)) with 1048576; lra).
  rewrite shoelace_fold_on_grid.
  - rewrite map_map. change (IZR (2 ^ 20)) with 1048576. lra.
  - exact F.
  - rewrite length_seq. change (2 ^ 52)%Z with (1024 * 2 ^ 42)%Z.
    simpl Z.abs. nia.
Qed.


Lemma copy_points (points : list Point2D) :
  map (fun p => point (pt_x p) (pt_z p)) points = points.
Proof.
  induction points as [|[x z] l IH]; simpl; [|rewrite IH]; reflexivity.
Qed.

Lemma processPoints_cases (points : list Point2D) :
  processPoints points = if isClockwise points then rev points else points.
Proof.
  unfold processPoints. rewrite copy_points. reflexivity.
Qed.

Lemma processPoints_length (points : list Point2D) :
  List.length (processPoints points) = List.length points.
Proof.
  rewrite processPoints_cases. destruct (isClockwise points);
    [apply length_rev|reflexivity].
Qed.


(** ** What the build leaves in the room *)

Lemma buildFromPolygon_currentPoints (points : list Point2D) (isEmpty : bool)
      (r : Room) :
  (3 <= List.length points)%nat ->
  _currentPoints (buildFromPolygon points isEmpty r) = processPoints points.
Proof.
  intros H. unfold buildFromPolygon.
  destruct (Nat.ltb_spec (List.length points) 3); [lia|].
  assert (Hw : forall pts q, _currentPoints (createWalls pts q) = _currentPoints q).
  { intros pts q. unfold createWalls.
    destruct (List.length pts <? 3)%nat; [reflexivity|].
    generalize (seq 0 (List.length pts)).
    assert (G : forall idx q', _currentPoints (fold_left (createWall pts) idx q')
                               = _currentPoints q').
    { induction idx as [|i idx IH]; intros q'; simpl; [reflexivity|].
      rewrite IH. unfold createWall.
      destruct (Rltb _ 0.001); reflexivity. }
    intros idx. rewrite G. reflexivity. }
  assert (Hf : forall pts q, _currentPoints (createFloor pts q) = _currentPoints q).
  { intros pts q. unfold createFloor.
    destruct (List.length pts <? 3)%nat; reflexivity. }
  assert (Hc : forall q, _currentPoints (clearRoom q) = _currentPoints q).
  { intros q. unfold clearRoom, removeWatermark.
    destruct (watermark q); reflexivity. }
  cbv zeta.
  match goal with
  | |- _currentPoints (if ?c then loadWatermarkTexture ?q else ?q) = _ =>
      assert (E : _currentPoints q = processPoints points)
  end.
  { simpl _currentPoints at 1.
    destruct isEmpty; rewrite ?Hw, Hf, Hc; reflexivity. }
  match goal with
  | |- _currentPoints (if ?c then _ else _) = _ => destruct c
  end; [|exact E].
  unfold loadWatermarkTexture.
  match goal with
  | |- _currentPoints (if ?c then _ else _) = _ => destruct c
  end; exact E.
Qed.

Lemma createWall_cases (pts : list Point2D) (q : Room) (i : nat) :
  createWall pts q i =
  if degenerate (edge_at pts i)
  then warn (SkippingTinyWall i (span (edge_at pts i))) q
  else set_wallSegments (wallSegments q ++ [wallOf (height q) pts i])
         (set_children (group_children q ++ [RoomWall i]) q).
Proof. reflexivity. Qed.

(** The wall loop, turn by turn: kept edges add a wall and a child,
    skipped edges add a warning, and nothing else changes. *)
Lemma createWall_loop (pts : list Point2D) (idx : list nat) (q : Room) :
  fold_left (createWall pts) idx q =
  mkRoom (height q)
         (group_children q
          ++ map RoomWall
                 (filter (fun i => negb (degenerate (edge_at pts i))) idx))
         (group_position q) (group_quaternion q)
         (wallSegments q
          ++ map (wallOf (height q) pts)
                 (filter (fun i => negb (degenerate (edge_at pts i))) idx))
         (_currentPoints q) (watermark q) (watermarkTexture q)
         (watermarkConfig q)
         (console q
          ++ map (fun i => SkippingTinyWall i (span (edge_at pts i)))
                 (filter (fun i => degenerate (edge_at pts i)) idx)).
Proof.
  revert q. induction idx as [|i idx IH]; intros q.
  - simpl. rewrite !app_nil_r. destruct q; reflexivity.
  - simpl fold_left. rewrite IH, createWall_cases. simpl filter.
    destruct (degenerate (edge_at pts i)); simpl;
      rewrite <- ?app_assoc; reflexivity.
Qed.

Lemma clearRoom_fields (q : Room) :
  clearRoom q =
  mkRoom (height q) [] (group_position q) (group_quaternion q) []
         (_currentPoints q) None (watermarkTexture q) (watermarkConfig q)
         (console q).
Proof.
  unfold clearRoom, removeWatermark.
  destruct q as [h c p gq w cp wm t cfg log]. destruct wm; reflexivity.
Qed.

(** The room after a build with walls, for a polygon of three points or
    more, up to the group offset and the texture request. *)
Lemma buildFromPolygon_walls (points : list Point2D) (r : Room) :
  (3 <= List.length points)%nat ->
  let P := processPoints points in
  let r' := buildFromPolygon points false r in
  wallSegments r' = map (wallOf (height r) P) (keptEdges P) /\
  group_children r' = RoomFloor P :: map RoomWall (keptEdges P) /\
  _currentPoints r' = P /\
  watermark r' = None /\
  console r' =
    console r ++ map (fun i => SkippingTinyWall i (span (edge_at P i)))
                     (skippedEdges P).
Proof.
  intros H P r'. subst r'. unfold buildFromPolygon.
  destruct (Nat.ltb_spec (List.length points) 3); [lia|].
  fold P. cbv zeta. rewrite clearRoom_fields. simpl.
  unfold createFloor. simpl.
  assert (HP : List.length P = List.length points)
    by apply processPoints_length.
  destruct (Nat.ltb_spec (List.length P) 3); [lia|].
  unfold createWalls. simpl.
  destruct (Nat.ltb_spec (List.length P) 3); [lia|].
  rewrite createWall_loop. simpl.
  unfold loadWatermarkTexture.
  destruct (enabled (watermarkConfig r)); simpl;
    [destruct (watermarkTexture r); simpl|]; repeat split; reflexivity.
Qed.







Lemma keptEdges_spec (P : list Point2D) (i : nat) :
  In i (keptEdges P) <->
  (i < List.length P)%nat /\ 0.001 <= span (edge_at P i).
Proof.
  unfold keptEdges. rewrite filter_In, in_seq, negb_true_iff.
  unfold degenerate. rewrite Rltb_false. split; intros [A B]; split;
    try assumption; lia.
Qed.



(** C8.  A build from fewer than three points warns that there are not
    enough points and leaves the room empty: no child in the group, no
    wall segment, no watermark, no stored point. *)
Theorem build_rejects_short_polygon
        (points : list Point2D) (isEmpty : bool) (r : Room) :
  (List.length points < 3)%nat ->
  let r' := buildFromPolygon points isEmpty r in
  console r' = console r ++ [NotEnoughPointsToBuild] /\
  group_children r' = [] /\
  wallSegments r' = [] /\
  _currentPoints r' = [] /\
  watermark r' = None.
Proof.
  intros H r'. subst r'. unfold buildFromPolygon.
  destruct (Nat.ltb_spec (List.length points) 3); [|lia].
  rewrite clearRoom_fields. simpl. repeat split; reflexivity.
Qed.

Lemma cw_triangle_on_grid : Forall on_grid cw_triangle.
Proof.
  unfold cw_triangle.
  repeat constructor.
  - exists 0%Z, 0%Z. cbn [pt_x pt_z]. repeat split; try (simpl; lia); lra.
  - exists 0%Z, 1024%Z. cbn [pt_x pt_z]. repeat split; try (simpl; lia); lra.
  - exists 1024%Z, 0%Z. cbn [pt_x pt_z]. repeat split; try (simpl; lia); lra.
Qed.

(** The clockwise triangle: the loop's sum is 1, the sign test finds
    the triangle clockwise and the normalization reverses it. *)
Lemma cw_triangle_is_reversed :
  shoelace_sum cw_triangle = 1 /\
  isClockwise cw_triangle = true /\
  processPoints cw_triangle = rev cw_triangle.
Proof.
  assert (E : shoelace_sum cw_triangle = 1).
  { rewrite (shoelace_sum_on_grid cw_triangle cw_triangle_on_grid)
      by (simpl; lia).
    unfold shoelace_exact.
    change (edges cw_triangle)
      with [(point 0 0, point 0 1); (point 0 1, point 1 0);
            (point 1 0, point 0 0)].
    unfold Rsum, term. simpl. lra. }
  assert (C : isClockwise cw_triangle = true)
    by (apply isClockwise_true; [simpl; lia|rewrite E; lra]).
  split; [exact E|]. split; [exact C|].
  rewrite processPoints_cases, C. reflexivity.
Qed.



Lemma build_rejects_short_polygon_witness :
  (List.length two_points < 3)%nat /\
  let r' := buildFromPolygon two_points false (newRoom 2.5) in
  console r' = console (newRoom 2.5) ++ [NotEnoughPointsToBuild] /\
  group_children r' = [] /\
  wallSegments r' = [] /\
  _currentPoints r' = [] /\
  watermark r' = None.
Proof.
  split.
  - simpl. lia.
  - apply (build_rejects_short_polygon two_points false (newRoom 2.5)).
    simpl. lia.
Defined.

(** *** The bow-tie: the loop's sum, step by step *)








(** ** Wall visibility *)

Lemma set_wm_visible_walls (v : bool) (r : Room) :
  wallSegments (set_wm_visible v r) = wallSegments r.
Proof. unfold set_wm_visible. destruct (watermark r); reflexivity. Qed.

Lemma set_currentWallIndex_walls (i : nat) (r : Room) :
  wallSegments (set_currentWallIndex i r) = wallSegments r.
Proof. unfold set_currentWallIndex. destruct (watermark r); reflexivity. Qed.

Lemma removeWatermark_walls (r : Room) :
  wallSegments (removeWatermark r) = wallSegments r.
Proof. unfold removeWatermark. destruct (watermark r); reflexivity. Qed.

Lemma createWatermark_walls (wall : Wall) (r : Room) :
  wallSegments (createWatermark wall r) = wallSegments r.
Proof.
  unfold createWatermark.
  destruct (negb (watermarkTexture r) || negb (enabled (watermarkConfig r)));
    [reflexivity|].
  simpl. apply removeWatermark_walls.
Qed.

Lemma updateWatermarkDistanceEffects_walls (cam : Camera) (r : Room) :
  wallSegments (updateWatermarkDistanceEffects cam r) = wallSegments r.
Proof.
  unfold updateWatermarkDistanceEffects. destruct (watermark r); reflexivity.
Qed.

(** The watermark step writes the watermark only, never a wall. *)
Lemma updateWatermarkPosition_walls (cam : Camera) (r : Room) :
  wallSegments (snd (updateWatermarkPosition cam r)) = wallSegments r.
Proof.
  unfold updateWatermarkPosition.
  destruct (negb (enabled (watermarkConfig r)) || negb (watermarkTexture r));
    [reflexivity|].
  destruct (findVisibleWallForWatermark r cam) as [[bestWall|]|]; simpl.
  - rewrite set_wm_visible_walls, updateWatermarkDistanceEffects_walls.
    match goal with |- wallSegments (if ?c then _ else _) = _ => destruct c end;
      [|reflexivity].
    rewrite set_currentWallIndex_walls. apply createWatermark_walls.
  - apply set_wm_visible_walls.
  - reflexivity.
Qed.

(** The walls after an update with a camera: each wall passed through
    the body of the loop. *)
Lemma updateWallVisibility_walls (cam : Camera) (r : Room) :
  wallSegments (snd (updateWallVisibility (Some cam) r))
  = map (updateWall (cam_worldDirection cam) (group_quaternion r))
        (wallSegments r).
Proof.
  unfold updateWallVisibility. destruct (wallSegments r) as [|w ws] eqn:E.
  - simpl. exact E.
  - rewrite updateWatermarkPosition_walls. reflexivity.
Qed.







Lemma borderline_camera_unit :
  dot (cam_worldDirection borderline_camera)
      (cam_worldDirection borderline_camera) = 1.
Proof.
  unfold dot, borderline_camera. cbn [cam_worldDirection vx vy vz].
  replace (- sqrt 0.6879 * - sqrt 0.6879) with (sqrt 0.6879 * sqrt 0.6879)
    by ring.
  rewrite sqrt_sqrt by lra. lra.
Qed.


(** ** Edge labels of the floor dimension editor *)

Lemma span_sqr (e : Point2D * Point2D) :
  span e * span e
  = (pt_x (snd e) - pt_x (fst e)) * (pt_x (snd e) - pt_x (fst e))
    + (pt_z (snd e) - pt_z (fst e)) * (pt_z (snd e) - pt_z (fst e)).
Proof.
  unfold span. cbv zeta. apply sqrt_sqrt.
  apply Rplus_le_le_0_compat; apply Rle_0_sqr.
Qed.

Lemma createEdgeLabel_edge (points : list Point2D) (i : nat) :
  createEdgeLabel points i =
  let e := edge_at points i in
  let dx := pt_x (snd e) - pt_x (fst e) in
  let dz := pt_z (snd e) - pt_z (fst e) in
  let segmentLength := Rmax 0.001 (span e) in
  mkEdgeLabel (span e)
    (vec3 (pt_x (fst e) + dx / 2 + - dz / segmentLength * 0.18) 0.02
          (pt_z (fst e) + dz / 2 + dx / segmentLength * 0.18)).
Proof. reflexivity. Qed.








(** The clockwise triangle, as the editor would hold it: the label of
    its first edge, from (0, 0) to (0, 1), is at (-0.18, 0.02, 0.5), on
    the outer side of the edge, and the wall the build makes on that
    edge, edge 1 of the reversed points, has the inward normal (1, 0, 0),
    the opposite of the label's offset direction. *)
Lemma clockwise_triangle_label_on_the_outer_side :
  isClockwise cw_triangle = true /\
  label_position (createEdgeLabel cw_triangle 0) = vec3 (- 0.18) 0.02 0.5 /\
  on_outer_side cw_triangle 0 (label_position (createEdgeLabel cw_triangle 0)) /\
  reversed_edge (List.length cw_triangle) 0 = 1%nat /\
  In (wallOf 2.5 (rev cw_triangle) 1)
     (wallSegments (buildFromPolygon cw_triangle false (newRoom 2.5))) /\
  inwardNormalLocalXZ (wallOf 2.5 (rev cw_triangle) 1) = Some (vec3 1 0 0).
Proof.
  destruct cw_triangle_is_reversed as (_ & C & _).
  assert (S1 : span (edge_at cw_triangle 0) = 1).
  { unfold span, edge_at, cw_triangle, point_at, next_index.
    cbn [List.length Nat.modulo Nat.divmod fst snd nth pt_x pt_z Nat.add Nat.sub].
    replace ((0 - 0) * (0 - 0) + (1 - 0) * (1 - 0)) with 1 by ring.
    apply sqrt_1. }
  assert (S2 : span (edge_at (rev cw_triangle) 1) = 1).
  { unfold span, edge_at, cw_triangle, point_at, next_index.
    cbn [rev app List.length Nat.modulo Nat.divmod fst snd nth pt_x pt_z
         Nat.add Nat.sub].
    replace ((0 - 0) * (0 - 0) + (0 - 1) * (0 - 1)) with 1 by ring.
    apply sqrt_1. }
  assert (Lab : label_position (createEdgeLabel cw_triangle 0)
                = vec3 (- 0.18) 0.02 0.5).
  { rewrite createEdgeLabel_edge. cbv zeta. rewrite S1.
    unfold edge_at, cw_triangle, point_at, next_index.
    cbn [List.length Nat.modulo Nat.divmod fst snd nth pt_x pt_z
         Nat.add Nat.sub label_position].
    rewrite Rmax_right by lra. f_equal; lra. }
  split; [exact C|]. split; [exact Lab|]. split; [|split; [reflexivity|split]].
  - rewrite Lab. unfold on_outer_side, midpoint, cw_triangle, point_at, next_index.
    cbv zeta.
    cbn [List.length Nat.modulo Nat.divmod fst snd nth pt_x pt_z
         Nat.add Nat.sub vx vz].
    intros p [<-|[<-|[<-|[]]]]; cbn [pt_x pt_z]; lra.
  - destruct (buildFromPolygon_walls cw_triangle (newRoom 2.5)) as (W & _);
      [simpl; lia|].
    rewrite W, processPoints_cases, C. apply in_map.
    apply keptEdges_spec. rewrite S2. split; [simpl; lia|lra].
  - unfold wallOf. cbv zeta. cbn [inwardNormalLocalXZ].
    unfold cw_triangle, point_at, next_index.
    cbn [rev app List.length Nat.modulo Nat.divmod fst snd nth pt_x pt_z
         Nat.add Nat.sub].
    f_equal. unfold normalize, THREE.length. cbn [vx vy vz].
    replace (- (0 - 1) * - (0 - 1) + 0 * 0 + (0 - 0) * (0 - 0)) with 1 by ring.
    rewrite sqrt_1. destruct (Req_dec_T 1 0); [lra|]. f_equal; lra.
Qed.

Lemma defaultRoomPoints_edges :
  edges defaultRoomPoints
  = [(point (-5) (-3), point 5 (-3)); (point 5 (-3), point 5 3);
     (point 5 3, point (-5) 3); (point (-5) 3, point (-5) (-3))].
Proof. reflexivity. Qed.

Lemma defaultRoomPoints_on_grid : Forall on_grid defaultRoomPoints.
Proof.
  unfold defaultRoomPoints.
  repeat constructor.
  - exists (-5120)%Z, (-3072)%Z. cbn [pt_x pt_z].
    repeat split; try (simpl; lia); lra.
  - exists 5120%Z, (-3072)%Z. cbn [pt_x pt_z].
    repeat split; try (simpl; lia); lra.
  - exists 5120%Z, 3072%Z. cbn [pt_x pt_z].
    repeat split; try (simpl; lia); lra.
  - exists (-5120)%Z, 3072%Z. cbn [pt_x pt_z].
    repeat split; try (simpl; lia); lra.
Qed.

(** The default room is listed the way the build keeps it: the loop's
    sum is -120. *)
Lemma defaultRoomPoints_kept : processPoints defaultRoomPoints = defaultRoomPoints.
Proof.
  rewrite processPoints_cases.
  replace (isClockwise defaultRoomPoints) with false; [reflexivity|].
  symmetry. unfold isClockwise. cbn [List.length Nat.ltb Nat.leb].
  apply Rltb_false.
  rewrite (shoelace_sum_on_grid _ defaultRoomPoints_on_grid) by (simpl; lia).
  unfold shoelace_exact. rewrite defaultRoomPoints_edges.
  unfold Rsum, term.
  cbn [map fold_right fst snd pt_x pt_z]. lra.
Qed.

Lemma defaultRoomPoints_spans :
  map span (edges defaultRoomPoints) = [10; 6; 10; 6].
Proof.
  rewrite defaultRoomPoints_edges. unfold span.
  cbn [map fst snd pt_x pt_z].
  replace ((5 - -5) * (5 - -5) + (-3 - -3) * (-3 - -3)) with (10 * 10) by ring.
  replace ((5 - 5) * (5 - 5) + (3 - -3) * (3 - -3)) with (6 * 6) by ring.
  replace ((-5 - 5) * (-5 - 5) + (3 - 3) * (3 - 3)) with (10 * 10) by ring.
  replace ((-5 - -5) * (-5 - -5) + (-3 - 3) * (-3 - 3)) with (6 * 6) by ring.
  rewrite !sqrt_square by lra. reflexivity.
Qed.

(** The scenario of the default room: four walls, of lengths 10, 6, 10
    and 6, and no warning. *)
Example default_room_has_four_walls :
  let r := buildFromPolygon defaultRoomPoints false (newRoom 2.5) in
  map wallIndex (wallSegments r) = [0; 1; 2; 3]%nat /\
  map wallLength (wallSegments r) = [10; 6; 10; 6] /\
  console r = [].
Proof.
  cbv zeta.
  destruct (buildFromPolygon_walls defaultRoomPoints (newRoom 2.5))
    as (W & _ & _ & _ & L); [simpl; lia|].
  rewrite defaultRoomPoints_kept in W, L.
  pose proof defaultRoomPoints_spans as Sp.
  rewrite defaultRoomPoints_edges in Sp. cbn [map] in Sp.
  injection Sp as S0 S1 S2 S3.
  assert (K : keptEdges defaultRoomPoints = [0; 1; 2; 3]%nat
              /\ skippedEdges defaultRoomPoints = []).
  { unfold keptEdges, skippedEdges, degenerate.
    change (seq 0 (List.length defaultRoomPoints)) with [0; 1; 2; 3]%nat.
    cbn [filter].
    change (edge_at defaultRoomPoints 0) with (point (-5) (-3), point 5 (-3)).
    change (edge_at defaultRoomPoints 1) with (point 5 (-3), point 5 3).
    change (edge_at defaultRoomPoints 2) with (point 5 3, point (-5) 3).
    change (edge_at defaultRoomPoints 3) with (point (-5) 3, point (-5) (-3)).
    rewrite S0, S1, S2, S3. settle_Rltb.
    split; reflexivity. }
  destruct K as [K1 K2]. rewrite K1 in W. rewrite K2 in L.
  rewrite W, L. cbn [map wallOf wallIndex wallLength].
  split; [reflexivity|]. split; [|reflexivity].
  unfold wallOf. cbn [map wallLength].
  repeat match goal with
         | |- context [sqrt ?x] =>
             first [ change (sqrt x) with (span (point (-5) (-3), point 5 (-3)));
                     rewrite S0
                   | change (sqrt x) with (span (point 5 (-3), point 5 3));
                     rewrite S1
                   | change (sqrt x) with (span (point 5 3, point (-5) 3));
                     rewrite S2
                   | change (sqrt x) with (span (point (-5) 3, point (-5) (-3)));
                     rewrite S3 ]
         end.
  reflexivity.
Qed.



(** ** Dragging *)

Lemma lookup_update (o : ObjId) (f : Object3D -> Object3D)
      (h : list (ObjId * Object3D)) :
  lookup o (update o f h) = option_map f (lookup o h).
Proof.
  induction h as [|[k v] h IH]; simpl; [reflexivity|].
  destruct (Nat.eqb k o) eqn:E; simpl; rewrite E; [reflexivity|exact IH].
Qed.

(** A ray that points downwards from above the floor meets the drag
    plane y = 0, at parameter origin.y / -direction.y. *)
Lemma intersectPlane_floor (o d : Vector3) :
  vy d < 0 -> 0 <= vy o ->
  intersectPlane (ray o d) floorPlane = Some (at_ (ray o d) (vy o / - vy d)).
Proof.
  intros Hd Ho. unfold intersectPlane, distanceToPlane, floorPlane,
    setFromNormalAndCoplanarPoint, distanceToPoint, dot.
  cbn [normal constant origin direction vx vy vz].
  destruct (Req_dec_T (0 * vx d + 1 * vy d + 0 * vz d) 0) as [E|E]; [lra|].
  assert (T : - (vx o * 0 + vy o * 1 + vz o * 0 + - (0 * 0 + 0 * 1 + 0 * 0))
              / (0 * vx d + 1 * vy d + 0 * vz d) = vy o / - vy d)
    by (field; lra).
  rewrite T.
  destruct (Rle_dec 0 (vy o / - vy d)) as [L|L]; [reflexivity|].
  exfalso. apply L. apply Rmult_le_pos; [lra|].
  left. apply Rinv_0_lt_compat. lra.
Qed.

(** What a translate drag does to the object: after [startDrag] at
    [hitPoint], a pointer move whose ray meets the drag plane at
    [intersection] puts the object at its old place moved by
    [intersection - hitPoint] in x and z. *)
Lemma grab_then_move (o : ObjId) (hitPoint intersection : Vector3)
      (im im1 : InteractionManager) (s : SceneManager) (obj : Object3D) :
  isPinned_ im o = false ->
  interactionMode im = "translate"%string ->
  lookup o (store s) = Some obj ->
  interactionManager (startDrag o hitPoint im s) = Some im1 ->
  intersectPlane (cam_ray (camera (startDrag o hitPoint im s)) (pointer im1))
                 (dragPlane im1) = Some intersection ->
  lookup o (store (handleTranslation o im1 (startDrag o hitPoint im s)))
  = Some (set_position
            (vec3 (vx (position obj) + (vx intersection - vx hitPoint))
                  (vy (position obj))
                  (vz (position obj) + (vz intersection - vz hitPoint)))
            obj).
Proof.
  intros Hpin Hmode Hobj Him1 Hint.
  unfold handleTranslation. rewrite Hint.
  unfold startDrag in *. rewrite Hpin, Hobj, Hmode in *.
  cbn [String.eqb Ascii.eqb Bool.eqb store set_interactionManager
       interactionManager] in *.
  injection Him1 as <-. rewrite Hobj.
  cbn [store set_store dragOffset vx vz]. rewrite lookup_update, Hobj.
  cbn [option_map]. do 2 f_equal. f_equal; lra.
Qed.

(** The drag as designed: when the ray meets the drag plane straight
    below or above the point that was grabbed, and so whenever the
    object is grabbed at floor level, the object stays where it was. *)
Lemma no_drift_when_grabbed_on_the_drag_plane
      (o : ObjId) (hitPoint intersection : Vector3)
      (im im1 : InteractionManager) (s : SceneManager) (obj : Object3D) :
  isPinned_ im o = false ->
  interactionMode im = "translate"%string ->
  lookup o (store s) = Some obj ->
  interactionManager (startDrag o hitPoint im s) = Some im1 ->
  intersectPlane (cam_ray (camera (startDrag o hitPoint im s)) (pointer im1))
                 (dragPlane im1) = Some intersection ->
  vx intersection = vx hitPoint ->
  vz intersection = vz hitPoint ->
  lookup o (store (handleTranslation o im1 (startDrag o hitPoint im s)))
  = Some obj.
Proof.
  intros Hpin Hmode Hobj Him1 Hint Hx Hz.
  rewrite (grab_then_move o hitPoint intersection im im1 s obj) by assumption.
  rewrite Hx, Hz. destruct obj as [[x y z] rot sc ud]. unfold set_position.
  cbn [position rotation scale userData vx vy vz]. do 3 f_equal; lra.
Qed.

Lemma grabbed_fields :
  interactionManager grabbed = Some dragging_manager /\
  store grabbed = [(1%nat, set_boundingBoxHelper true chair)] /\
  camera grabbed = tilted_camera /\
  undoStack grabbed = [add_chair].
Proof. repeat split; reflexivity. Qed.

Lemma dragged_fields :
  store dragged = [(1%nat, dragged_chair)] /\
  interactionManager dragged = Some dragging_manager /\
  undoStack dragged = [add_chair; move_chair] /\
  redoStack dragged = [] /\
  camera dragged = tilted_camera.
Proof.
  destruct grabbed_fields as (M & S & C & U).
  assert (E : dragged =
              onObjectChanged 1%nat None
                (set_store [(1%nat, dragged_chair)] grabbed)).
  { unfold dragged, onPointerMove. rewrite M.
    change (set_pointer (0, 0) dragging_manager) with dragging_manager.
    cbn [dragging_manager im_selectedObject isDragging isPinned_ pinnedObjects
         existsb negb andb isRotating].
    fold dragging_manager.
    replace (set_interactionManager (Some dragging_manager) grabbed)
      with grabbed
      by (unfold set_interactionManager; rewrite <- M;
          destruct grabbed; reflexivity).
    unfold handleTranslation. rewrite C, S.
    change (dragPlane dragging_manager) with floorPlane.
    change (cam_ray tilted_camera (pointer dragging_manager))
      with (ray (vec3 0 3 4) (vec3 (fst (0, 0)) (snd (0, 0) - 3 / 5) (- 4 / 5))).
    rewrite intersectPlane_floor by (cbn [vy fst snd]; lra).
    cbn [lookup Nat.eqb update].
    do 4 f_equal. unfold dragged_chair, set_position. f_equal.
    unfold at_, add, multiplyScalar.
    cbn [origin direction vx vy vz dragOffset dragging_manager fst snd
         position set_boundingBoxHelper chair].
    f_equal; field. }
  rewrite E. unfold onObjectChanged.
  cbn [store set_store lookup Nat.eqb].
  unfold addToUndoStack.
  cbn [store set_store set_redoStack set_undoStack undoStack redoStack
       interactionManager camera].
  rewrite U, M, C. repeat split; reflexivity.
Qed.

(** C6, on the code.  The chair stands at (0, 0, 2).  It is grabbed at
    the point (0, 1.5, 2) on its top, which the ray through the centre
    of the screen hits, the pointer moves without leaving the centre of
    the screen, and is released: the chair now stands at (0, 0, 0), two
    units from where it was.  The offset is taken from the point hit on
    the object, the new position from the point where the same ray
    meets the floor. *)
Theorem drag_released_at_grab_position_drifts :
  at_ (cam_ray (camera scene_with_chair) (0, 0)) 2.5 = grab_point /\
  option_map position (lookup 1%nat (store scene_with_chair))
    = Some (vec3 0 0 2) /\
  option_map startPointer (interactionManager released) = Some (0, 0) /\
  option_map pointer (interactionManager released) = Some (0, 0) /\
  camera released = camera scene_with_chair /\
  option_map position (lookup 1%nat (store released)) = Some (vec3 0 0 0).
Proof.
  destruct dragged_fields as (S & M & _ & _ & C).
  assert (R : released
              = set_interactionManager
                  (Some (mkInteractionManager (Some 1%nat) [] false false
                           "translate" grab_point (vec3 0 0 2) (euler 0 0 0)
                           floorPlane (vec3 (0 - 0) 0 (2 - 2)) (0, 0) (0, 0)
                           true)) dragged).
  { unfold released, onPointerUp. rewrite M. reflexivity. }
  split; [|split; [reflexivity|]].
  - unfold at_, add, multiplyScalar, grab_point.
    change (cam_ray (camera scene_with_chair) (0, 0))
      with (ray (vec3 0 3 4) (vec3 0 (0 - 3 / 5) (- 4 / 5))).
    cbn [origin direction vx vy vz]. f_equal; lra.
  - rewrite R. cbn [interactionManager camera store set_interactionManager
                    option_map startPointer pointer].
    rewrite C, S. repeat split; reflexivity.
Qed.

(** ** Undo and redo *)

Lemma pop_push {A : Type} (l : list A) (a : A) : pop (l ++ [a]) = Some (a, l).
Proof.
  unfold pop. rewrite rev_app_distr. simpl. rewrite rev_involutive.
  reflexivity.
Qed.

(** C10.  With an empty undo stack [undo] returns at once and changes
    nothing of the scene manager, and with an empty redo stack so does
    [redo]. *)
Theorem undo_redo_on_empty_stack (s : SceneManager) :
  (undoStack s = [] -> undo s = (Returned, s)) /\
  (redoStack s = [] -> redo s = (Returned, s)).
Proof.
  split; intros H.
  - unfold undo. rewrite H. reflexivity.
  - unfold redo. rewrite H. reflexivity.
Qed.

Lemma undo_redo_on_empty_stack_witness :
  undoStack empty_scene = [] /\ redoStack empty_scene = [] /\
  undo empty_scene = (Returned, empty_scene) /\
  redo empty_scene = (Returned, empty_scene).
Proof.
  split; [reflexivity|]. split; [reflexivity|].
  split.
  - apply (undo_redo_on_empty_stack empty_scene). reflexivity.
  - apply (undo_redo_on_empty_stack empty_scene). reflexivity.
Defined.

Lemma unknown_kind (a : Action) :
  type a <> "add"%string -> type a <> "remove"%string ->
  type a <> "transform"%string ->
  String.eqb (type a) "add" = false /\
  String.eqb (type a) "remove" = false /\
  String.eqb (type a) "transform" = false.
Proof.
  intros A1 A2 A3. repeat split; apply String.eqb_neq; assumption.
Qed.

(** C7, as the code has it.  For an action of unknown kind, [undo]
    takes it off the undo stack and puts it on the redo stack, [redo]
    takes it off the redo stack and puts it on the undo stack, and
    neither changes anything else of the scene manager: the scene, the
    objects, their fields and the selection stay as they were.  The
    action is kept, on the other stack, so that an undo followed by a
    redo gives back the scene manager as it was. *)
Theorem unknown_action_moves_to_the_other_stack
        (s : SceneManager) (a : Action) (rest : list Action) :
  type a <> "add"%string -> type a <> "remove"%string ->
  type a <> "transform"%string ->
  (undoStack s = rest ++ [a] ->
   undo s = (Returned, set_redoStack (redoStack s ++ [a]) (set_undoStack rest s))
   /\ andThen (undo s) redo = (Returned, s)) /\
  (redoStack s = rest ++ [a] ->
   redo s = (Returned, set_undoStack (undoStack s ++ [a]) (set_redoStack rest s))
   /\ andThen (redo s) undo = (Returned, s)).
Proof.
  intros A1 A2 A3.
  destruct (unknown_kind a A1 A2 A3) as (E1 & E2 & E3).
  split; intros H.
  - assert (U : undo s = (Returned, set_redoStack (redoStack s ++ [a])
                                                  (set_undoStack rest s))).
    { unfold undo. rewrite H, pop_push, E1, E2, E3. reflexivity. }
    split; [exact U|]. rewrite U. unfold andThen, redo.
    cbn [redoStack set_redoStack set_undoStack undoStack].
    rewrite pop_push, E1, E2, E3. unfold pushUndo, push.
    cbn [redoStack set_redoStack set_undoStack undoStack].
    rewrite <- H. destruct s; reflexivity.
  - assert (U : redo s = (Returned, set_undoStack (undoStack s ++ [a])
                                                  (set_redoStack rest s))).
    { unfold redo. rewrite H, pop_push, E1, E2, E3. reflexivity. }
    split; [exact U|]. rewrite U. unfold andThen, undo.
    cbn [redoStack set_redoStack set_undoStack undoStack].
    rewrite pop_push, E1, E2, E3. unfold pushRedo, push.
    cbn [redoStack set_redoStack set_undoStack undoStack].
    rewrite <- H. destruct s; reflexivity.
Qed.

Lemma unknown_action_moves_to_the_other_stack_witness :
  undoStack scene_with_paint = [] ++ [paint] /\
  redoStack scene_with_redo_paint = [] ++ [paint] /\
  (undo scene_with_paint
   = (Returned, set_redoStack (redoStack scene_with_paint ++ [paint])
                              (set_undoStack [] scene_with_paint))
   /\ andThen (undo scene_with_paint) redo = (Returned, scene_with_paint)) /\
  (redo scene_with_redo_paint
   = (Returned, set_undoStack (undoStack scene_with_redo_paint ++ [paint])
                              (set_redoStack [] scene_with_redo_paint))
   /\ andThen (redo scene_with_redo_paint) undo
      = (Returned, scene_with_redo_paint)).
Proof.
  split; [reflexivity|]. split; [reflexivity|]. split.
  - apply (unknown_action_moves_to_the_other_stack scene_with_paint paint []);
      try discriminate.
    reflexivity.
  - apply (unknown_action_moves_to_the_other_stack
             scene_with_redo_paint paint []); try discriminate.
    reflexivity.
Defined.

(** C7 fails on the code: after [undo] of an action of unknown kind the
    undo stack, which the action was popped from, is empty, the action
    is on the redo stack, and a second [undo] finds nothing. *)
Lemma unknown_action_leaves_its_stack :
  undoStack scene_with_paint = [paint] /\
  undoStack (snd (undo scene_with_paint)) = [] /\
  redoStack (snd (undo scene_with_paint)) = [paint] /\
  undo (snd (undo scene_with_paint)) = (Returned, snd (undo scene_with_paint)).
Proof. repeat split; reflexivity. Qed.

(** C5, on the code.  With an interaction manager in place, [undo] of a
    transform action throws: the action has left the undo stack and
    never reaches the redo stack.  When the redo stack was empty, as it
    is after any new action, the [redo] that follows finds nothing, so
    that the action is on neither stack after undo and redo. *)
Theorem undo_of_transform_throws
        (s : SceneManager) (a : Action) (rest : list Action)
        (im : InteractionManager) :
  undoStack s = rest ++ [a] ->
  type a = "transform"%string ->
  interactionManager s = Some im ->
  exists s',
    undo s = (Threw, s') /\
    undoStack s' = rest /\
    redoStack s' = redoStack s /\
    (redoStack s = [] -> redo s' = (Returned, s')).
Proof.
  intros H T M. unfold undo. rewrite H, pop_push, T.
  cbn [String.eqb Ascii.eqb Bool.eqb].
  unfold applyObjectState.
  destruct (previousProperties a) as [st|].
  - unfold andThen, updateControlsForObject.
    cbn [interactionManager set_store set_undoStack]. rewrite M.
    eexists. split; [reflexivity|].
    split; [reflexivity|]. split; [reflexivity|].
    intros R. unfold redo. cbn [redoStack set_store set_undoStack].
    rewrite R. reflexivity.
  - unfold andThen.
    eexists. split; [reflexivity|].
    split; [reflexivity|]. split; [reflexivity|].
    intros R. unfold redo. cbn [redoStack set_undoStack].
    rewrite R. reflexivity.
Qed.

Lemma undo_of_transform_throws_witness :
  undoStack dragged = [add_chair] ++ [move_chair] /\
  type move_chair = "transform"%string /\
  interactionManager dragged = Some dragging_manager /\
  exists s',
    undo dragged = (Threw, s') /\
    undoStack s' = [add_chair] /\
    redoStack s' = redoStack dragged /\
    (redoStack dragged = [] -> redo s' = (Returned, s')).
Proof.
  destruct dragged_fields as (S & M & U & R & _).
  split; [exact U|]. split; [reflexivity|]. split; [exact M|].
  apply (undo_of_transform_throws dragged move_chair [add_chair]
                                  dragging_manager).
  - exact U.
  - reflexivity.
  - exact M.
Defined.

(** *** The add and remove cases, which do come back *)

Lemma lookup_update_other (o o2 : ObjId) (f : Object3D -> Object3D)
      (h : list (ObjId * Object3D)) :
  o2 <> o -> lookup o (update o2 f h) = lookup o h.
Proof.
  intros N. induction h as [|[k v] h IH]; simpl; [reflexivity|].
  destruct (Nat.eqb k o2) eqn:E2; simpl.
  - apply Nat.eqb_eq in E2. subst k.
    destruct (Nat.eqb o2 o) eqn:E; [apply Nat.eqb_eq in E; contradiction|].
    reflexivity.
  - destruct (Nat.eqb k o); [reflexivity|exact IH].
Qed.

(** Deselecting moves no object and touches neither stack nor the
    lists of the scene. *)
Lemma deselectObject_keeps (o : ObjId) (s : SceneManager) (obj : Object3D) :
  lookup o (store s) = Some obj ->
  undoStack (deselectObject s) = undoStack s /\
  redoStack (deselectObject s) = redoStack s /\
  scene_children (deselectObject s) = scene_children s /\
  objects (deselectObject s) = objects s /\
  exists obj',
    lookup o (store (deselectObject s)) = Some obj' /\
    position obj' = position obj /\
    rotation obj' = rotation obj /\
    scale obj' = scale obj.
Proof.
  intros L. unfold deselectObject.
  destruct (interactionManager s) as [im|];
    [|repeat split; try reflexivity; exists obj; auto].
  unfold deselect. destruct (im_selectedObject im) as [o2|];
    [|repeat split; try reflexivity; exists obj; auto].
  repeat split; try reflexivity.
  cbn [store dispatchEvent set_selectedObject set_interactionManager set_store].
  destruct (Nat.eq_dec o2 o) as [->|N].
  - rewrite lookup_update, L. eexists. split; [reflexivity|].
    repeat split; reflexivity.
  - rewrite lookup_update_other by exact N. exists obj. auto.
Qed.

Lemma takeOut_keeps (o : ObjId) (s : SceneManager) (obj : Object3D) :
  lookup o (store s) = Some obj ->
  undoStack (takeOut o s) = undoStack s /\
  redoStack (takeOut o s) = redoStack s /\
  scene_children (takeOut o s) = without o (scene_children s) /\
  objects (takeOut o s) = without o (objects s) /\
  exists obj',
    lookup o (store (takeOut o s)) = Some obj' /\
    position obj' = position obj /\
    rotation obj' = rotation obj /\
    scale obj' = scale obj.
Proof.
  intros L. unfold takeOut.
  match goal with
  | |- context [if ?c then deselectObject ?q else ?q] =>
      destruct c;
      [destruct (deselectObject_keeps o q obj L) as (U & R & C & O & X)|]
  end.
  - rewrite U, R, C, O. repeat split; try reflexivity. exact X.
  - repeat split; try reflexivity. exists obj. auto.
Qed.

Lemma not_in_without (o : ObjId) (l : list ObjId) : ~ In o (without o l).
Proof.
  unfold without. intros H. apply filter_In in H. destruct H as [_ H].
  rewrite Nat.eqb_refl in H. discriminate.
Qed.

(** For an add action that carries the state of its object, undo and
    then redo return, leave both stacks as they were, and leave the
    object in the scene and in the object list, with the position,
    rotation and scale the action recorded. *)
Lemma undo_then_redo_of_add
      (s : SceneManager) (a : Action) (rest : list Action)
      (st : ObjectState) (obj : Object3D) :
  undoStack s = rest ++ [a] ->
  type a = "add"%string ->
  properties a = Some st ->
  lookup (object a) (store s) = Some obj ->
  exists s' obj',
    andThen (undo s) redo = (Returned, s') /\
    undoStack s' = undoStack s /\
    redoStack s' = redoStack s /\
    In (object a) (scene_children s') /\
    In (object a) (objects s') /\
    lookup (object a) (store s') = Some obj' /\
    position obj' = st_position st /\
    rotation obj' = st_rotation st /\
    scale obj' = st_scale st.
Proof.
  intros H T P L.
  destruct (takeOut_keeps (object a) (set_undoStack rest s) obj L)
    as (U & R & C & O & obj1 & L1 & _).
  unfold undo. rewrite H, pop_push, T.
  cbn [String.eqb Ascii.eqb Bool.eqb]. unfold pushRedo, andThen, redo.
  cbn [redoStack set_redoStack]. unfold push at 1. rewrite pop_push, T.
  cbn [String.eqb Ascii.eqb Bool.eqb].
  unfold putBack, applyObjectState. rewrite P. unfold pushUndo.
  do 2 eexists. split; [reflexivity|].
  cbn [undoStack redoStack set_undoStack set_redoStack set_store set_objects
       scene_add set_scene_children scene_children objects store].
  rewrite U, R, lookup_update, L1. unfold push.
  cbn [undoStack redoStack set_undoStack option_map].
  repeat split; try reflexivity.
  - apply in_or_app. right. left. reflexivity.
  - apply in_or_app. right. left. reflexivity.
Qed.

(** For a remove action that carries the state of its object, undo and
    then redo return, leave both stacks as they were, and leave the
    object out of the scene and out of the object list, with the
    position, rotation and scale the action recorded. *)
Lemma undo_then_redo_of_remove
      (s : SceneManager) (a : Action) (rest : list Action)
      (st : ObjectState) (obj : Object3D) :
  undoStack s = rest ++ [a] ->
  type a = "remove"%string ->
  properties a = Some st ->
  lookup (object a) (store s) = Some obj ->
  exists s' obj',
    andThen (undo s) redo = (Returned, s') /\
    undoStack s' = undoStack s /\
    redoStack s' = redoStack s /\
    ~ In (object a) (scene_children s') /\
    ~ In (object a) (objects s') /\
    lookup (object a) (store s') = Some obj' /\
    position obj' = st_position st /\
    rotation obj' = st_rotation st /\
    scale obj' = st_scale st.
Proof.
  intros H T P L.
  unfold undo. rewrite H, pop_push, T.
  cbn [String.eqb Ascii.eqb Bool.eqb].
  unfold putBack, applyObjectState. rewrite P.
  unfold andThen at 2. unfold pushRedo. unfold andThen, redo.
  cbn [redoStack set_redoStack]. unfold push at 1. rewrite pop_push, T.
  cbn [String.eqb Ascii.eqb Bool.eqb]. unfold pushUndo.
  match goal with
  | |- context [takeOut (object a) ?q] =>
      assert (Lq : lookup (object a) (store q)
                   = Some (mkObject (st_position st) (st_rotation st)
                                    (st_scale st) (st_userData st)))
        by (cbn [store set_redoStack set_store]; rewrite lookup_update;
            cbn [store set_objects scene_add set_scene_children set_undoStack];
            rewrite L; reflexivity);
      destruct (takeOut_keeps (object a) q _ Lq)
        as (U & R & C & O & obj1 & L1 & E1 & E2 & E3)
  end.
  eexists. exists obj1.
  split; [reflexivity|].
  cbn [undoStack redoStack scene_children objects store set_undoStack].
  rewrite U, R, C, O.
  cbn [undoStack redoStack set_undoStack set_redoStack set_store set_objects
       scene_add set_scene_children].
  repeat split; try assumption.
  - apply not_in_without.
  - apply not_in_without.
Qed.

(** * Further properties *)

(** ** The room after a build, field by field *)

(** The mean of the points, as the build computes it. *)
Lemma sum_points_Rsum (l : list Point2D) (acc : Point2D) :
  fold_left (fun acc p => point (pt_x acc + pt_x p) (pt_z acc + pt_z p)) l acc
  = point (pt_x acc + Rsum (map pt_x l)) (pt_z acc + Rsum (map pt_z l)).
Proof.
  revert acc. induction l as [|p l IH]; intros acc; simpl.
  - destruct acc as [x z]. simpl. f_equal; lra.
  - rewrite IH. simpl. f_equal; lra.
Qed.

Lemma sum_points_rev (l : list Point2D) : sum_points (rev l) = sum_points l.
Proof.
  unfold sum_points. rewrite !sum_points_Rsum. simpl.
  rewrite !map_rev.
  rewrite (Rsum_perm _ _ (Permutation_sym (Permutation_rev (map pt_x l)))).
  rewrite (Rsum_perm _ _ (Permutation_sym (Permutation_rev (map pt_z l)))).
  reflexivity.
Qed.

Lemma sum_points_processPoints (points : list Point2D) :
  sum_points (processPoints points) = sum_points points.
Proof.
  rewrite processPoints_cases. destruct (isClockwise points);
    [apply sum_points_rev|reflexivity].
Qed.

(** All of the room after a build from three points or more. *)
Lemma buildFromPolygon_result (points : list Point2D) (isEmpty : bool) (r : Room) :
  (3 <= List.length points)%nat ->
  let P := processPoints points in
  let n := INR (List.length points) in
  buildFromPolygon points isEmpty r =
  mkRoom (height r)
         (RoomFloor P :: if isEmpty then [] else map RoomWall (keptEdges P))
         (vec3 (- (pt_x (sum_points points) / n)) 0
               (- (pt_z (sum_points points) / n)))
         (group_quaternion r)
         (if isEmpty then [] else map (wallOf (height r) P) (keptEdges P))
         P None
         (if enabled (watermarkConfig r) && negb isEmpty then true
          else watermarkTexture r)
         (watermarkConfig r)
         (console r
          ++ if isEmpty then []
             else map (fun i => SkippingTinyWall i (span (edge_at P i)))
                      (skippedEdges P)).
Proof.
  intros H P n. unfold buildFromPolygon.
  destruct (Nat.ltb_spec (List.length points) 3); [lia|].
  fold P. cbv zeta. rewrite clearRoom_fields. simpl.
  unfold createFloor. simpl.
  assert (HP : List.length P = List.length points)
    by apply processPoints_length.
  destruct (Nat.ltb_spec (List.length P) 3); [lia|].
  assert (SP : sum_points P = sum_points points)
    by apply sum_points_processPoints.
  destruct isEmpty; simpl.
  - destruct (List.length P) as [|m] eqn:E; [lia|].
    cbn [Nat.ltb Nat.leb]. rewrite andb_false_r, SP, app_nil_r.
    cbn [pt_x pt_z]. unfold n. rewrite <- HP. reflexivity.
  - unfold createWalls. simpl.
    destruct (Nat.ltb_spec (List.length P) 3); [lia|].
    rewrite createWall_loop. simpl.
    destruct (List.length P) as [|m] eqn:E; [lia|].
    cbn [Nat.ltb Nat.leb]. rewrite andb_true_r, SP.
    cbn [pt_x pt_z]. unfold n. rewrite <- HP.
    unfold loadWatermarkTexture, keptEdges, skippedEdges. rewrite E.
    destruct (enabled (watermarkConfig r)); simpl;
      [destruct (watermarkTexture r); reflexivity|reflexivity].
Qed.

Lemma Rsum_shift {A : Type} (f : A -> R) (c : R) (l : list A) :
  Rsum (map (fun a => f a + c) l) = Rsum (map f l) + INR (List.length l) * c.
Proof.
  induction l as [|a l IH].
  - simpl. lra.
  - cbn [map Rsum fold_right List.length]. fold (Rsum (map (fun a => f a + c) l)).
    fold (Rsum (map f l)). rewrite IH, S_INR. lra.
Qed.

(** X1.  After a build from three points or more the group sits at
    minus the mean of the given points, at height 0, so that the stored
    points, moved by the group's position, have their mean at the
    origin. *)
Theorem build_centres_the_room (points : list Point2D) (isEmpty : bool) (r : Room) :
  (3 <= List.length points)%nat ->
  let n := INR (List.length points) in
  let r' := buildFromPolygon points isEmpty r in
  let moved :=
    map (fun p => point (pt_x p + vx (group_position r'))
                        (pt_z p + vz (group_position r')))
        (_currentPoints r') in
  group_position r'
    = vec3 (- (pt_x (sum_points points) / n)) 0
           (- (pt_z (sum_points points) / n)) /\
  sum_points moved = point 0 0.
Proof.
  intros H n r' moved. subst moved r'.
  rewrite (buildFromPolygon_result points isEmpty r H).
  cbn [group_position _currentPoints vx vz]. split; [reflexivity|].
  fold n. unfold sum_points at 1. rewrite sum_points_Rsum, !map_map.
  cbn [pt_x pt_z].
  rewrite (Rsum_shift pt_x), (Rsum_shift pt_z).
  pose proof (sum_points_processPoints points) as SP.
  unfold sum_points in SP. rewrite !sum_points_Rsum in SP.
  cbn [pt_x pt_z] in SP. injection SP as Sx Sz.
  rewrite processPoints_length. fold n.
  assert (Hn : n <> 0).
  { unfold n. apply not_0_INR. lia. }
  unfold sum_points. rewrite sum_points_Rsum. cbn [pt_x pt_z].
  f_equal; field_simplify; try exact Hn; lra.
Qed.

Lemma build_centres_the_room_witness :
  (3 <= List.length cw_triangle)%nat /\
  let n := INR (List.length cw_triangle) in
  let r' := buildFromPolygon cw_triangle false (newRoom 2.5) in
  let moved :=
    map (fun p => point (pt_x p + vx (group_position r'))
                        (pt_z p + vz (group_position r')))
        (_currentPoints r') in
  group_position r'
    = vec3 (- (pt_x (sum_points cw_triangle) / n)) 0
           (- (pt_z (sum_points cw_triangle) / n)) /\
  sum_points moved = point 0 0.
Proof.
  split; [simpl; lia|].
  apply (build_centres_the_room cw_triangle false (newRoom 2.5)). simpl. lia.
Defined.

(** The unit vector that [normalize] makes of (-dz, 0, dx). *)
Lemma normalize_left_normal (dx dz len : R) :
  len = sqrt (dx * dx + dz * dz) -> 0 < len ->
  normalize (vec3 (- dz) 0 dx) = vec3 (- dz / len) (0 / len) (dx / len).
Proof.
  intros E L. unfold normalize, THREE.length. cbn [vx vy vz].
  replace (- dz * - dz + 0 * 0 + dx * dx) with (dx * dx + dz * dz) by ring.
  rewrite <- E. destruct (Req_dec_T len 0); [lra|reflexivity].
Qed.

Lemma sqrt_sum_sqr (dx dz : R) :
  sqrt (dx * dx + dz * dz) * sqrt (dx * dx + dz * dz) = dx * dx + dz * dz.
Proof.
  apply sqrt_sqrt. apply Rplus_le_le_0_compat; apply Rle_0_sqr.
Qed.

(** X2.  Every wall a build leaves stands on an edge of the normalized
    polygon that is at least 0.001 long: it has that edge's length, it
    stands over the edge's midpoint at half the room's height, it is
    shown and opaque, and its inward normal is a horizontal unit vector
    at a right angle to the edge. *)
Theorem built_walls_are_well_formed
        (points : list Point2D) (r : Room) (wall : Wall) :
  (3 <= List.length points)%nat ->
  In wall (wallSegments (buildFromPolygon points false r)) ->
  let P := processPoints points in
  let i := wallIndex wall in
  let a := point_at P i in
  let b := point_at P (next_index P i) in
  (i < List.length points)%nat /\
  0.001 <= wallLength wall /\
  wallLength wall = span (edge_at P i) /\
  wall_position wall
    = vec3 (pt_x (midpoint P i)) (height r / 2) (pt_z (midpoint P i)) /\
  geometryHeight wall = height r /\
  visible wall = true /\ opacity wall = 1 /\
  exists N,
    inwardNormalLocalXZ wall = Some N /\
    vy N = 0 /\
    dot N N = 1 /\
    vx N * (pt_x b - pt_x a) + vz N * (pt_z b - pt_z a) = 0.
Proof.
  intros H Hin P i a b.
  rewrite (buildFromPolygon_result points false r H) in Hin.
  cbn [wallSegments] in Hin. fold P in Hin.
  apply in_map_iff in Hin. destruct Hin as (j & <- & Hj).
  apply keptEdges_spec in Hj. destruct Hj as [Hlt Hlen].
  subst i a b. cbn [wallOf wallIndex wallLength wall_position geometryHeight
                    visible opacity inwardNormalLocalXZ].
  unfold P in Hlt. rewrite processPoints_length in Hlt. fold P.
  split; [exact Hlt|]. split; [exact Hlen|]. split; [reflexivity|].
  split; [reflexivity|]. split; [reflexivity|]. split; [reflexivity|].
  split; [reflexivity|].
  set (dx := pt_x (point_at P (next_index P j)) - pt_x (point_at P j)).
  set (dz := pt_z (point_at P (next_index P j)) - pt_z (point_at P j)).
  assert (E : span (edge_at P j) = sqrt (dx * dx + dz * dz)) by reflexivity.
  pose proof (sqrt_sum_sqr dx dz) as Sq. rewrite <- E in Sq.
  remember (span (edge_at P j)) as len eqn:Hl. clear Hl.
  exists (vec3 (- dz / len) (0 / len) (dx / len)).
  split; [f_equal; apply normalize_left_normal; [exact E|lra]|].
  unfold dot. cbn [vx vy vz].
  split; [field; lra|]. split.
  - replace (- dz / len * (- dz / len) + 0 / len * (0 / len)
             + dx / len * (dx / len))
      with ((dx * dx + dz * dz) / (len * len)) by (field; lra).
    rewrite <- Sq. field; lra.
  - field; lra.
Qed.

Lemma first_wall_of_the_triangle :
  In (wallOf 2.5 (processPoints cw_triangle) 0)
     (wallSegments (buildFromPolygon cw_triangle false (newRoom 2.5))).
Proof.
  rewrite buildFromPolygon_result by (simpl; lia).
  cbn [wallSegments height newRoom]. apply in_map.
  apply keptEdges_spec. rewrite processPoints_length.
  split; [simpl; lia|].
  destruct cw_triangle_is_reversed as (_ & C & _).
  rewrite processPoints_cases, C.
  change (edge_at (rev cw_triangle) 0) with (point 1 0, point 0 1).
  unfold span. cbn [fst snd pt_x pt_z].
  replace ((0 - 1) * (0 - 1) + (1 - 0) * (1 - 0)) with 2 by ring.
  apply Rsqr_incr_0_var; [|apply sqrt_pos].
  unfold Rsqr. rewrite sqrt_sqrt by lra. lra.
Qed.

Lemma built_walls_are_well_formed_witness :
  let wall := wallOf 2.5 (processPoints cw_triangle) 0 in
  let P := processPoints cw_triangle in
  let i := wallIndex wall in
  let a := point_at P i in
  let b := point_at P (next_index P i) in
  (i < List.length cw_triangle)%nat /\
  0.001 <= wallLength wall /\
  wallLength wall = span (edge_at P i) /\
  wall_position wall
    = vec3 (pt_x (midpoint P i)) (height (newRoom 2.5) / 2)
           (pt_z (midpoint P i)) /\
  geometryHeight wall = height (newRoom 2.5) /\
  visible wall = true /\ opacity wall = 1 /\
  exists N,
    inwardNormalLocalXZ wall = Some N /\
    vy N = 0 /\
    dot N N = 1 /\
    vx N * (pt_x b - pt_x a) + vz N * (pt_z b - pt_z a) = 0.
Proof.
  apply (built_walls_are_well_formed cw_triangle (newRoom 2.5)
           (wallOf 2.5 (processPoints cw_triangle) 0)).
  - simpl. lia.
  - exact first_wall_of_the_triangle.
Defined.

(** X3.  A build is a full rebuild: for three points or more, what it
    leaves in the group, the wall segments, the stored points, the
    group's position and the absence of a watermark depend on the
    points, the flag and the room's height alone, not on what the room
    held before. *)
Theorem build_forgets_the_old_room
        (points : list Point2D) (isEmpty : bool) (r1 r2 : Room) :
  (3 <= List.length points)%nat ->
  height r1 = height r2 ->
  let a := buildFromPolygon points isEmpty r1 in
  let b := buildFromPolygon points isEmpty r2 in
  group_children a = group_children b /\
  wallSegments a = wallSegments b /\
  _currentPoints a = _currentPoints b /\
  group_position a = group_position b /\
  watermark a = None /\ watermark b = None.
Proof.
  intros H Hh a b. subst a b.
  rewrite (buildFromPolygon_result points isEmpty r1 H).
  rewrite (buildFromPolygon_result points isEmpty r2 H).
  cbn [group_children wallSegments _currentPoints group_position watermark].
  rewrite Hh. repeat split; reflexivity.
Qed.

Lemma build_forgets_the_old_room_witness :
  (3 <= List.length cw_triangle)%nat /\
  height two_wall_room = height (newRoom 2.5) /\
  let a := buildFromPolygon cw_triangle false two_wall_room in
  let b := buildFromPolygon cw_triangle false (newRoom 2.5) in
  group_children a = group_children b /\
  wallSegments a = wallSegments b /\
  _currentPoints a = _currentPoints b /\
  group_position a = group_position b /\
  watermark a = None /\ watermark b = None.
Proof.
  split; [simpl; lia|]. split; [reflexivity|].
  apply (build_forgets_the_old_room cw_triangle false two_wall_room
                                    (newRoom 2.5)).
  - simpl. lia.
  - reflexivity.
Defined.

(** X4.  A build with [isEmpty] set, from three points or more, leaves
    the floor alone in the group: no wall segment, no warning, no
    watermark, and no request for the watermark texture. *)
Theorem empty_build_has_the_floor_only (points : list Point2D) (r : Room) :
  (3 <= List.length points)%nat ->
  let r' := buildFromPolygon points true r in
  group_children r' = [RoomFloor (processPoints points)] /\
  wallSegments r' = [] /\
  console r' = console r /\
  watermark r' = None /\
  watermarkTexture r' = watermarkTexture r.
Proof.
  intros H r'. subst r'.
  rewrite (buildFromPolygon_result points true r H).
  cbn [group_children wallSegments console watermark watermarkTexture].
  rewrite andb_false_r, app_nil_r. repeat split; reflexivity.
Qed.

Lemma empty_build_has_the_floor_only_witness :
  (3 <= List.length cw_triangle)%nat /\
  let r' := buildFromPolygon cw_triangle true two_wall_room in
  group_children r' = [RoomFloor (processPoints cw_triangle)] /\
  wallSegments r' = [] /\
  console r' = console two_wall_room /\
  watermark r' = None /\
  watermarkTexture r' = watermarkTexture two_wall_room.
Proof.
  split; [simpl; lia|].
  apply (empty_build_has_the_floor_only cw_triangle two_wall_room).
  simpl. lia.
Defined.

(** ** The watermark step and the walls *)

Lemma same_but_watermark_refl (r : Room) : same_but_watermark r r.
Proof. unfold same_but_watermark. repeat split; reflexivity. Qed.

Lemma same_but_watermark_trans (a b c : Room) :
  same_but_watermark a b -> same_but_watermark b c -> same_but_watermark a c.
Proof.
  unfold same_but_watermark.
  intros (A1 & A2 & A3 & A4 & A5 & A6 & A7 & A8)
         (B1 & B2 & B3 & B4 & B5 & B6 & B7 & B8).
  repeat split; congruence.
Qed.

Lemma set_watermark_same (w : option Watermark) (r : Room) :
  same_but_watermark r (set_watermark w r).
Proof. unfold same_but_watermark. repeat split; reflexivity. Qed.

Lemma set_wm_visible_same (v : bool) (r : Room) :
  same_but_watermark r (set_wm_visible v r).
Proof.
  unfold set_wm_visible. destruct (watermark r);
    [apply set_watermark_same|apply same_but_watermark_refl].
Qed.

Lemma set_currentWallIndex_same (i : nat) (r : Room) :
  same_but_watermark r (set_currentWallIndex i r).
Proof.
  unfold set_currentWallIndex. destruct (watermark r);
    [apply set_watermark_same|apply same_but_watermark_refl].
Qed.

Lemma removeWatermark_same (r : Room) : same_but_watermark r (removeWatermark r).
Proof.
  unfold removeWatermark. destruct (watermark r);
    [|apply same_but_watermark_refl].
  unfold same_but_watermark. repeat split; reflexivity.
Qed.

Lemma createWatermark_same (wall : Wall) (r : Room) :
  same_but_watermark r (createWatermark wall r).
Proof.
  unfold createWatermark.
  destruct (negb (watermarkTexture r) || negb (enabled (watermarkConfig r)));
    [apply same_but_watermark_refl|].
  eapply same_but_watermark_trans; [apply removeWatermark_same|].
  unfold same_but_watermark. repeat split; reflexivity.
Qed.

Lemma updateWatermarkDistanceEffects_same (cam : Camera) (r : Room) :
  same_but_watermark r (updateWatermarkDistanceEffects cam r).
Proof.
  unfold updateWatermarkDistanceEffects. destruct (watermark r);
    [apply set_watermark_same|apply same_but_watermark_refl].
Qed.

(** The watermark step writes the watermark and the group's children,
    and nothing else of the room. *)
Lemma updateWatermarkPosition_same (cam : Camera) (r : Room) :
  same_but_watermark r (snd (updateWatermarkPosition cam r)).
Proof.
  unfold updateWatermarkPosition.
  destruct (negb (enabled (watermarkConfig r)) || negb (watermarkTexture r));
    [apply same_but_watermark_refl|].
  destruct (findVisibleWallForWatermark r cam) as [[bestWall|]|]; simpl.
  - eapply same_but_watermark_trans; [|apply set_wm_visible_same].
    eapply same_but_watermark_trans;
      [|apply updateWatermarkDistanceEffects_same].
    match goal with |- same_but_watermark _ (if ?c then _ else _) => destruct c end;
      [|apply same_but_watermark_refl].
    eapply same_but_watermark_trans; [|apply set_currentWallIndex_same].
    apply createWatermark_same.
  - apply set_wm_visible_same.
  - apply same_but_watermark_refl.
Qed.

Lemma updateWallVisibility_quaternion (camera : option Camera) (r : Room) :
  group_quaternion (snd (updateWallVisibility camera r)) = group_quaternion r.
Proof.
  unfold updateWallVisibility. destruct camera as [cam|]; [|reflexivity].
  destruct (wallSegments r) as [|w ws]; [reflexivity|].
  match goal with
  | |- group_quaternion (snd (updateWatermarkPosition cam ?q)) = _ =>
      destruct (updateWatermarkPosition_same cam q) as (_ & _ & Q & _)
  end.
  rewrite Q. reflexivity.
Qed.

Lemma updateWall_twice (d : Vector3) (q : Quaternion) (w : Wall) :
  updateWall d q (updateWall d q w) = updateWall d q w.
Proof.
  unfold updateWall. destruct (inwardNormalLocalXZ w) eqn:E; cbn; reflexivity.
Qed.

(** X5.  A visibility update writes the visible flag of the walls and
    nothing else of them, it depends on the camera through its view
    direction alone, and a second update with the same camera leaves the
    walls as the first left them. *)
Theorem visibility_update_is_idempotent
        (position1 position2 d : Vector3) (ray1 ray2 : R * R -> Ray) (r : Room) :
  let cam := mkCamera position1 d ray1 in
  let r1 := snd (updateWallVisibility (Some cam) r) in
  let r2 := snd (updateWallVisibility (Some cam) r1) in
  wallSegments r2 = wallSegments r1 /\
  wallSegments (snd (updateWallVisibility (Some (mkCamera position2 d ray2)) r))
    = wallSegments r1 /\
  map wallIndex (wallSegments r1) = map wallIndex (wallSegments r) /\
  map wallLength (wallSegments r1) = map wallLength (wallSegments r) /\
  map wall_position (wallSegments r1) = map wall_position (wallSegments r) /\
  map rotation_y (wallSegments r1) = map rotation_y (wallSegments r) /\
  map inwardNormalLocalXZ (wallSegments r1)
    = map inwardNormalLocalXZ (wallSegments r) /\
  map opacity (wallSegments r1) = map opacity (wallSegments r).
Proof.
  intros cam r1 r2. subst r2 r1.
  rewrite !updateWallVisibility_walls, updateWallVisibility_quaternion.
  cbn [cam_worldDirection cam].
  split; [|split; [reflexivity|]].
  - rewrite map_map. apply map_ext. intros w. apply updateWall_twice.
  - rewrite !map_map.
    repeat split; apply map_ext; intros w; unfold updateWall;
      destruct (inwardNormalLocalXZ w) eqn:E; cbn; auto.
Qed.

Lemma applyQuaternion_opp (n : Vector3) (q : Quaternion) (d : Vector3) :
  dot d (applyQuaternion (vec3 (- vx n) (- vy n) (- vz n)) q)
  = - dot d (applyQuaternion n q).
Proof.
  unfold dot, applyQuaternion. cbn [vx vy vz]. ring.
Qed.

(** X6.  Two walls whose inward normals are opposite, as those of two
    facing walls are, are never both hidden by a visibility update: at
    least one of them is shown. *)
Theorem facing_walls_are_not_both_hidden
        (cam : Camera) (r : Room) (i j : nat) (w1 w2 : Wall) (n : Vector3) :
  nth_error (wallSegments r) i = Some w1 ->
  nth_error (wallSegments r) j = Some w2 ->
  inwardNormalLocalXZ w1 = Some n ->
  inwardNormalLocalXZ w2 = Some (vec3 (- vx n) (- vy n) (- vz n)) ->
  let r' := snd (updateWallVisibility (Some cam) r) in
  option_map visible (nth_error (wallSegments r') i) = Some true \/
  option_map visible (nth_error (wallSegments r') j) = Some true.
Proof.
  intros H1 H2 N1 N2 r'. subst r'.
  rewrite updateWallVisibility_walls, !nth_error_map, H1, H2.
  cbn [option_map]. unfold updateWall. rewrite N1, N2. cbn [visible].
  rewrite applyQuaternion_opp. unfold threshold.
  set (x := dot (cam_worldDirection cam) (applyQuaternion n (group_quaternion r))).
  destruct (Rlt_dec x 0.4) as [L|L].
  - left. f_equal. apply Rltb_true. exact L.
  - right. f_equal. apply Rltb_true. lra.
Qed.

Lemma facing_walls_are_not_both_hidden_witness :
  let r' := snd (updateWallVisibility (Some borderline_camera)
                                      facing_walls_room) in
  option_map visible (nth_error (wallSegments r') 0) = Some true \/
  option_map visible (nth_error (wallSegments r') 1) = Some true.
Proof.
  apply (facing_walls_are_not_both_hidden borderline_camera facing_walls_room
           0 1 wall_z wall_z_back (vec3 0 0 1)); try reflexivity.
  cbn [wall_z_back inwardNormalLocalXZ vx vy vz].
  do 2 f_equal; lra.
Defined.

(** ** Where the watermark goes *)

Lemma scoreWalls_total (r : Room) (cam : Camera) (l : list Wall)
      (best : option (Wall * R)) :
  forallb has_normal l = true ->
  exists res, scoreWalls r cam l best = Some res /\
    match res with
    | Some (w, _) =>
        In w l \/ exists sc, best = Some (w, sc)
    | None => best = None
    end.
Proof.
  revert best. induction l as [|w l IH]; intros best H.
  - simpl. exists best. split; [reflexivity|].
    destruct best as [[w sc]|]; [right; exists sc|]; reflexivity.
  - simpl in H. apply andb_true_iff in H. destruct H as [Hw Hl].
    unfold has_normal in Hw. simpl.
    destruct (inwardNormalLocalXZ w) as [n|]; [|discriminate].
    match goal with
    | |- context [if ?c then _ else _] => destruct c
    end.
    + match goal with
      | |- context [scoreWalls r cam l (Some (w, ?sc))] =>
          destruct (IH (Some (w, sc)) Hl) as (res & E & P)
      end.
      exists res. split; [exact E|].
      destruct res as [[w' sc']|]; [|discriminate].
      destruct P as [P|[sc P]]; [left; right; exact P|].
      injection P as <- _. left. left. reflexivity.
    + destruct (IH best Hl) as (res & E & P).
      exists res. split; [exact E|].
      destruct res as [[w' sc']|]; [|exact P].
      destruct P as [P|P]; [left; right; exact P|right; exact P].
Qed.

Lemma forallb_filter {A : Type} (f g : A -> bool) (l : list A) :
  forallb f l = true -> forallb f (filter g l) = true.
Proof.
  induction l as [|a l IH]; simpl; [reflexivity|].
  intros H. apply andb_true_iff in H. destruct H as [Ha Hl].
  destruct (g a); simpl; [rewrite Ha|]; auto.
Qed.

(** With a normal on every wall the search for a wall returns, and what
    it returns is one of the walls that are shown; it returns none only
    when no wall is shown. *)
Lemma findVisibleWallForWatermark_visible (r : Room) (cam : Camera) :
  forallb has_normal (wallSegments r) = true ->
  exists res, findVisibleWallForWatermark r cam = Some res /\
    match res with
    | Some w => In w (wallSegments r) /\ visible w = true
    | None => filter visible (wallSegments r) = []
    end.
Proof.
  intros H. unfold findVisibleWallForWatermark.
  remember (wallSegments r) as walls eqn:E. clear E.
  destruct walls as [|w0 ws]; [exists None; split; reflexivity|].
  remember (w0 :: ws) as l eqn:E. clear E w0 ws.
  destruct (filter visible l) as [|first rest] eqn:F.
  - exists None. split; reflexivity.
  - destruct (scoreWalls_total r cam (first :: rest) None) as (res & S & P).
    { rewrite <- F. apply forallb_filter, H. }
    rewrite S. destruct res as [[b sc]|].
    + exists (Some b). split; [reflexivity|].
      destruct P as [P|[sc' P]]; [|discriminate].
      rewrite <- F in P. apply filter_In in P. exact P.
    + exists (Some first). split; [reflexivity|].
      assert (I : In first (filter visible l))
        by (rewrite F; left; reflexivity).
      apply filter_In in I. exact I.
Qed.

Lemma updateWall_has_normal (d : Vector3) (q : Quaternion) (l : list Wall) :
  forallb has_normal (map (updateWall d q) l) = forallb has_normal l.
Proof.
  induction l as [|w l IH]; simpl; [reflexivity|]. rewrite IH. f_equal.
  unfold updateWall, has_normal.
  destruct (inwardNormalLocalXZ w); reflexivity.
Qed.

(** X7.  When the watermark is enabled, its texture is there and every
    wall carries a normal, a visibility update returns, and the
    watermark it leaves shown sits on one of the walls it leaves shown;
    when it leaves no wall shown, it leaves no watermark shown. *)
Theorem watermark_sits_on_a_shown_wall (cam : Camera) (r : Room) :
  enabled (watermarkConfig r) = true ->
  watermarkTexture r = true ->
  wallSegments r <> [] ->
  forallb has_normal (wallSegments r) = true ->
  let r' := snd (updateWallVisibility (Some cam) r) in
  fst (updateWallVisibility (Some cam) r) = Returned /\
  (forall w, watermark r' = Some w -> wm_visible w = true ->
     exists wall, In wall (wallSegments r') /\ visible wall = true /\
                  currentWallIndex w = Some (wallIndex wall)) /\
  (filter visible (wallSegments r') = [] ->
   option_map wm_visible (watermark r') <> Some true).
Proof.
  intros He Ht Hne Hn r'. subst r'.
  unfold updateWallVisibility.
  destruct (wallSegments r) as [|w0 ws] eqn:E; [contradiction|].
  rewrite <- E in Hn |- *. clear Hne.
  set (q := set_wallSegments
              (map (updateWall (cam_worldDirection cam) (group_quaternion r))
                   (wallSegments r)) r).
  assert (Hq : forallb has_normal (wallSegments q) = true)
    by (unfold q; cbn [wallSegments set_wallSegments];
        rewrite updateWall_has_normal; exact Hn).
  destruct (updateWatermarkPosition_same cam q) as (_ & _ & _ & W & _).
  rewrite W.
  unfold updateWatermarkPosition.
  replace (watermarkConfig q) with (watermarkConfig r) by reflexivity.
  replace (watermarkTexture q) with (watermarkTexture r) by reflexivity.
  rewrite He, Ht. cbn [negb orb].
  destruct (findVisibleWallForWatermark_visible q cam Hq) as (res & F & P).
  rewrite F. destruct res as [b|].
  - destruct P as [Pin Pvis]. cbn [fst snd].
    split; [reflexivity|]. split.
    + intros w Hw _. exists b. split; [exact Pin|]. split; [exact Pvis|].
      revert Hw. unfold set_wm_visible, updateWatermarkDistanceEffects.
      match goal with
      | |- context [if ?c then ?x else ?y] =>
          set (base := if c then x else y);
          assert (B : exists w0, watermark base = Some w0 /\
                                 currentWallIndex w0 = Some (wallIndex b))
      end.
      { subst base. destruct (watermark q) as [wm|] eqn:Wq.
        - unfold same_wall.
          destruct (currentWallIndex wm) as [k|] eqn:K; cbn [negb].
          + destruct (Nat.eqb_spec k (wallIndex b)) as [->|Ne]; cbn [negb].
            * exists wm. split; [exact Wq|exact K].
            * unfold set_currentWallIndex, createWatermark.
              replace (watermarkConfig q) with (watermarkConfig r)
                by reflexivity.
              replace (watermarkTexture q) with (watermarkTexture r)
                by reflexivity.
              rewrite He, Ht. cbn. eexists. split; reflexivity.
          + unfold set_currentWallIndex, createWatermark.
            replace (watermarkConfig q) with (watermarkConfig r)
              by reflexivity.
            replace (watermarkTexture q) with (watermarkTexture r)
              by reflexivity.
            rewrite He, Ht. cbn. eexists. split; reflexivity.
        - unfold set_currentWallIndex, createWatermark.
          replace (watermarkConfig q) with (watermarkConfig r) by reflexivity.
          replace (watermarkTexture q) with (watermarkTexture r) by reflexivity.
          rewrite He, Ht. cbn. eexists. split; reflexivity. }
      destruct B as (wm & B1 & B2). rewrite B1.
      cbn [watermark set_watermark]. intros [= <-].
      cbn [currentWallIndex]. exact B2.
    + intros Fe. exfalso.
      assert (I : In b (filter visible (wallSegments q)))
        by (apply filter_In; split; assumption).
      rewrite Fe in I. exact I.
  - cbn [fst snd]. split; [reflexivity|]. split.
    + intros w Hw Hv. exfalso. revert Hw Hv. unfold set_wm_visible.
      destruct (watermark q) eqn:Wq; cbn [watermark set_watermark].
      * intros [= <-]. cbn [wm_visible]. discriminate.
      * intros Hw. congruence.
    + intros _. unfold set_wm_visible.
      destruct (watermark q) eqn:Wq;
        cbn [watermark set_watermark option_map wm_visible];
        [discriminate|rewrite Wq; discriminate].
Qed.

Lemma watermark_sits_on_a_shown_wall_witness :
  let r' := snd (updateWallVisibility (Some borderline_camera) textured_room) in
  fst (updateWallVisibility (Some borderline_camera) textured_room) = Returned /\
  (forall w, watermark r' = Some w -> wm_visible w = true ->
     exists wall, In wall (wallSegments r') /\ visible wall = true /\
                  currentWallIndex w = Some (wallIndex wall)) /\
  (filter visible (wallSegments r') = [] ->
   option_map wm_visible (watermark r') <> Some true).
Proof.
  apply (watermark_sits_on_a_shown_wall borderline_camera textured_room);
    try reflexivity.
  discriminate.
Defined.

(** ** One watermark at most *)

Lemma filter_is_watermark_negb (l : list Child) :
  filter is_watermark (filter (fun c => negb (is_watermark c)) l) = [].
Proof.
  induction l as [|c l IH]; simpl; [reflexivity|].
  destruct (is_watermark c) eqn:E; simpl; [exact IH|]. rewrite E. exact IH.
Qed.

Lemma removeWatermark_consistent (r : Room) :
  watermark_consistent r ->
  watermark_consistent (removeWatermark r) /\ watermark (removeWatermark r) = None.
Proof.
  unfold watermark_consistent, removeWatermark. intros H.
  destruct (watermark r) eqn:E.
  - cbn [group_children watermark set_watermark set_children].
    split; [apply filter_is_watermark_negb|reflexivity].
  - rewrite E. split; [exact H|reflexivity].
Qed.

Lemma set_watermark_consistent (w w' : Watermark) (r : Room) :
  watermark r = Some w -> watermark_consistent r ->
  watermark_consistent (set_watermark (Some w') r).
Proof.
  unfold watermark_consistent. intros E H. rewrite E in H. exact H.
Qed.

Lemma set_wm_visible_consistent (v : bool) (r : Room) :
  watermark_consistent r -> watermark_consistent (set_wm_visible v r).
Proof.
  intros H. unfold set_wm_visible. destruct (watermark r) eqn:E; [|exact H].
  eapply set_watermark_consistent; eassumption.
Qed.

Lemma set_currentWallIndex_consistent (i : nat) (r : Room) :
  watermark_consistent r -> watermark_consistent (set_currentWallIndex i r).
Proof.
  intros H. unfold set_currentWallIndex. destruct (watermark r) eqn:E; [|exact H].
  eapply set_watermark_consistent; eassumption.
Qed.

Lemma updateWatermarkDistanceEffects_consistent (cam : Camera) (r : Room) :
  watermark_consistent r ->
  watermark_consistent (updateWatermarkDistanceEffects cam r).
Proof.
  intros H. unfold updateWatermarkDistanceEffects.
  destruct (watermark r) eqn:E; [|exact H].
  eapply set_watermark_consistent; eassumption.
Qed.

Lemma createWatermark_consistent (wall : Wall) (r : Room) :
  watermark_consistent r -> watermark_consistent (createWatermark wall r).
Proof.
  intros H. unfold createWatermark.
  destruct (negb (watermarkTexture r) || negb (enabled (watermarkConfig r)));
    [exact H|].
  destruct (removeWatermark_consistent r H) as [C N].
  unfold watermark_consistent in *.
  cbn [group_children watermark set_watermark set_children].
  rewrite filter_app, C, N. reflexivity.
Qed.

Lemma updateWatermarkPosition_consistent (cam : Camera) (r : Room) :
  watermark_consistent r ->
  watermark_consistent (snd (updateWatermarkPosition cam r)).
Proof.
  intros H. unfold updateWatermarkPosition.
  destruct (negb (enabled (watermarkConfig r)) || negb (watermarkTexture r));
    [exact H|].
  destruct (findVisibleWallForWatermark r cam) as [[bestWall|]|]; simpl.
  - apply set_wm_visible_consistent, updateWatermarkDistanceEffects_consistent.
    match goal with |- watermark_consistent (if ?c then _ else _) => destruct c end;
      [|exact H].
    apply set_currentWallIndex_consistent, createWatermark_consistent, H.
  - apply set_wm_visible_consistent, H.
  - exact H.
Qed.

(** X8.  The group never holds more than one watermark mesh: a room in
    which the group holds exactly the watermark the room knows of stays
    so through visibility updates, through switching the watermark on
    and off and through a build from any points, and the build leaves no
    watermark mesh in the group. *)
Theorem watermark_stays_single
        (camera : option Camera) (b : bool) (points : list Point2D)
        (isEmpty : bool) (r : Room) :
  watermark_consistent r ->
  watermark_consistent (snd (updateWallVisibility camera r)) /\
  watermark_consistent (setWatermarkEnabled b r) /\
  watermark_consistent (buildFromPolygon points isEmpty r) /\
  filter is_watermark (group_children (buildFromPolygon points isEmpty r)) = [].
Proof.
  intros H. split; [|split].
  - unfold updateWallVisibility. destruct camera as [cam|]; [|exact H].
    destruct (wallSegments r) as [|w ws]; [exact H|].
    apply updateWatermarkPosition_consistent. exact H.
  - unfold setWatermarkEnabled. destruct b.
    + cbn [watermark set_watermarkConfig].
      destruct (watermark r) eqn:E.
      * unfold watermark_consistent in *.
        cbn [group_children watermark set_watermarkConfig]. exact H.
      * unfold loadWatermarkTexture. cbn [watermarkTexture set_watermarkConfig].
        destruct (watermarkTexture r); unfold watermark_consistent in *;
          cbn [group_children watermark set_watermarkConfig
               set_watermarkTexture]; exact H.
    + apply removeWatermark_consistent.
      unfold watermark_consistent in *.
      cbn [group_children watermark set_watermarkConfig]. exact H.
  - assert (B : filter is_watermark
                  (group_children (buildFromPolygon points isEmpty r)) = []
                /\ watermark (buildFromPolygon points isEmpty r) = None).
    { destruct (Nat.ltb_spec (List.length points) 3) as [L|L].
      - unfold buildFromPolygon.
        destruct (Nat.ltb_spec (List.length points) 3); [|lia].
        rewrite clearRoom_fields. split; reflexivity.
      - rewrite (buildFromPolygon_result points isEmpty r L).
        cbn [group_children watermark filter is_watermark]. split; [|reflexivity].
        destruct isEmpty; [reflexivity|].
        induction (keptEdges (processPoints points)); simpl; auto. }
    destruct B as [B1 B2]. unfold watermark_consistent. rewrite B1, B2.
    split; reflexivity.
Qed.

Lemma watermark_stays_single_witness :
  watermark_consistent two_wall_room /\
  watermark_consistent
    (snd (updateWallVisibility (Some borderline_camera) two_wall_room)) /\
  watermark_consistent (setWatermarkEnabled true two_wall_room) /\
  watermark_consistent (buildFromPolygon cw_triangle false two_wall_room) /\
  filter is_watermark
    (group_children (buildFromPolygon cw_triangle false two_wall_room)) = [].
Proof.
  split; [reflexivity|].
  apply (watermark_stays_single (Some borderline_camera) true cw_triangle false
                                two_wall_room).
  reflexivity.
Defined.

(** ** The watermark's opacity *)

(** X9.  The distance effects leave the watermark with an opacity
    between a tenth of the configured opacity and the configured
    opacity, for a configured opacity that is not negative and a
    positive fade distance; with [alwaysVisible] set it is the
    configured opacity itself. *)
Theorem watermark_opacity_stays_in_range
        (cam : Camera) (r : Room) (w : Watermark) :
  watermark r = Some w ->
  0 <= cfg_opacity (watermarkConfig r) ->
  0 < fadeDistance (watermarkConfig r) ->
  exists w',
    watermark (updateWatermarkDistanceEffects cam r) = Some w' /\
    0.1 * cfg_opacity (watermarkConfig r) <= wm_opacity w'
      <= cfg_opacity (watermarkConfig r) /\
    (alwaysVisible (watermarkConfig r) = true ->
     wm_opacity w' = cfg_opacity (watermarkConfig r) * 1) /\
    currentWallIndex w' = currentWallIndex w /\
    wm_visible w' = wm_visible w /\
    wm_position w' = wm_position w.
Proof.
  intros E Ho Hf. unfold updateWatermarkDistanceEffects. rewrite E.
  eexists. split; [reflexivity|].
  cbn [wm_opacity currentWallIndex wm_visible wm_position].
  set (c := cfg_opacity (watermarkConfig r)) in *.
  set (fd := fadeDistance (watermarkConfig r)) in *.
  set (d := distanceTo (cam_worldPosition cam)
                       (getWorldPosition r (wm_position w))).
  split; [|split; [|repeat split]].
  - destruct (alwaysVisible (watermarkConfig r)); cbn [negb andb]; [lra|].
    unfold Rltb. destruct (Rlt_dec fd d) as [L|L]; [|lra].
    assert (P : 0 <= (d - fd) / (fd * 2)).
    { apply Rmult_le_pos; [lra|]. left. apply Rinv_0_lt_compat. lra. }
    assert (M : 0 <= Rmin ((d - fd) / (fd * 2)) 1)
      by (apply Rmin_glb; lra).
    pose proof (Rmax_r (1 - Rmin ((d - fd) / (fd * 2)) 1) 0.1) as A.
    assert (B : Rmax (1 - Rmin ((d - fd) / (fd * 2)) 1) 0.1 <= 1)
      by (apply Rmax_lub; lra).
    split.
    + replace (0.1 * c) with (c * 0.1) by ring.
      apply Rmult_le_compat_l; assumption.
    + rewrite <- (Rmult_1_r c) at 2. apply Rmult_le_compat_l; assumption.
  - intros A. rewrite A. reflexivity.
Qed.

Lemma watermark_opacity_stays_in_range_witness :
  exists w w',
    watermark watermarked_room = Some w /\
    watermark (updateWatermarkDistanceEffects borderline_camera watermarked_room)
      = Some w' /\
    0.1 * cfg_opacity (watermarkConfig watermarked_room) <= wm_opacity w'
      <= cfg_opacity (watermarkConfig watermarked_room) /\
    (alwaysVisible (watermarkConfig watermarked_room) = true ->
     wm_opacity w' = cfg_opacity (watermarkConfig watermarked_room) * 1) /\
    currentWallIndex w' = currentWallIndex w /\
    wm_visible w' = wm_visible w /\
    wm_position w' = wm_position w.
Proof.
  eexists.
  refine ((fun H => match H with
                    | ex_intro _ w' P => ex_intro _ w' (conj eq_refl P)
                    end)
            (watermark_opacity_stays_in_range borderline_camera watermarked_room
               _ eq_refl _ _)).
  - change (cfg_opacity (watermarkConfig watermarked_room)) with 0.3. lra.
  - change (fadeDistance (watermarkConfig watermarked_room)) with 50. lra.
Defined.

(** ** A watermark that is switched off *)

Lemma updateWallVisibility_disabled (camera : option Camera) (r : Room) :
  enabled (watermarkConfig r) = false ->
  watermark (snd (updateWallVisibility camera r)) = watermark r /\
  enabled (watermarkConfig (snd (updateWallVisibility camera r))) = false.
Proof.
  intros H. unfold updateWallVisibility.
  destruct camera as [cam|]; [|split; [reflexivity|exact H]].
  destruct (wallSegments r) as [|w ws]; [split; [reflexivity|exact H]|].
  unfold updateWatermarkPosition.
  cbn [watermarkConfig set_wallSegments]. rewrite H. cbn [negb orb snd].
  split; [reflexivity|exact H].
Qed.

(** X10.  Once the watermark is switched off the room has none, and no
    run of visibility updates, with or without a camera, brings one
    back. *)
Theorem switched_off_watermark_stays_off
        (cameras : list (option Camera)) (r : Room) :
  let off := setWatermarkEnabled false r in
  let later :=
    fold_left (fun q camera => snd (updateWallVisibility camera q)) cameras off in
  watermark off = None /\
  watermark later = None /\
  enabled (watermarkConfig later) = false.
Proof.
  cbv zeta.
  assert (B : watermark (setWatermarkEnabled false r) = None /\
              enabled (watermarkConfig (setWatermarkEnabled false r)) = false).
  { unfold setWatermarkEnabled, removeWatermark.
    cbn [watermark set_watermarkConfig].
    destruct (watermark r) eqn:E; cbn; [split; reflexivity|].
    rewrite E. split; reflexivity. }
  destruct B as [B1 B2]. split; [exact B1|].
  revert B1 B2. generalize (setWatermarkEnabled false r).
  induction cameras as [|c cs IH]; intros q B1 B2; simpl.
  - split; assumption.
  - destruct (updateWallVisibility_disabled c q B2) as [W E].
    apply IH; [rewrite W; exact B1|exact E].
Qed.

(** ** The floor dimension editor *)

Lemma nth_error_map_seq {A : Type} (f : nat -> A) (n i : nat) :
  (i < n)%nat -> nth_error (map f (seq 0 n)) i = Some (f i).
Proof.
  intros H. rewrite nth_error_map, nth_error_seq.
  destruct (Nat.ltb_spec i n); [reflexivity|lia].
Qed.

(** X11.  Opened on three points or more, the editor is active, keeps
    the points, lays the floor overlay on them and has one handle per
    vertex, over the vertex at the label height, and one label per edge,
    which carries the length of the edge.  Opened on fewer points it is
    left empty and inactive, whatever it held. *)
Theorem editor_opens_with_a_handle_and_a_label_each
        (points : list Point2D) (e : FloorDimensionEditor) :
  let e' := initEditor points e in
  ((List.length points < 3)%nat -> e' = mkEditor [] [] [] None false) /\
  ((3 <= List.length points)%nat ->
   isActive e' = true /\
   ed_points e' = points /\
   floorMesh e' = Some points /\
   List.length (handles e') = List.length points /\
   List.length (edgeLabels e') = List.length points /\
   forall i, (i < List.length points)%nat ->
     nth_error (handles e') i
       = Some (mkHandle i (vec3 (pt_x (point_at points i)) 0.02
                                (pt_z (point_at points i)))) /\
     nth_error (edgeLabels e') i = Some (createEdgeLabel points i) /\
     label_length (createEdgeLabel points i) = span (edge_at points i)).
Proof.
  cbv zeta. unfold initEditor, clearEditor. split; intros H.
  - destruct (Nat.ltb_spec (List.length points) 3); [reflexivity|lia].
  - destruct (Nat.ltb_spec (List.length points) 3); [lia|].
    unfold _createEdgeLabels, _createHandles, _createFloorMesh.
    cbn [ed_points handles edgeLabels floorMesh isActive].
    destruct (Nat.ltb_spec (List.length points) 3); [lia|].
    cbn [ed_points handles edgeLabels floorMesh isActive].
    rewrite !length_map, !length_seq.
    repeat split; try reflexivity.
    + rewrite nth_error_map_seq by assumption. reflexivity.
    + rewrite nth_error_map_seq by assumption. reflexivity.
Qed.

Lemma editor_opens_with_a_handle_and_a_label_each_witness :
  (List.length two_points < 3)%nat /\
  (3 <= List.length cw_triangle)%nat /\
  initEditor two_points (initEditor cw_triangle (mkEditor [] [] [] None true))
    = mkEditor [] [] [] None false /\
  let e' := initEditor cw_triangle (mkEditor [] [] [] None true) in
  isActive e' = true /\
  ed_points e' = cw_triangle /\
  floorMesh e' = Some cw_triangle /\
  List.length (handles e') = List.length cw_triangle /\
  List.length (edgeLabels e') = List.length cw_triangle /\
  forall i, (i < List.length cw_triangle)%nat ->
    nth_error (handles e') i
      = Some (mkHandle i (vec3 (pt_x (point_at cw_triangle i)) 0.02
                               (pt_z (point_at cw_triangle i)))) /\
    nth_error (edgeLabels e') i = Some (createEdgeLabel cw_triangle i) /\
    label_length (createEdgeLabel cw_triangle i) = span (edge_at cw_triangle i).
Proof.
  split; [simpl; lia|]. split; [simpl; lia|]. split.
  - apply (editor_opens_with_a_handle_and_a_label_each two_points
             (initEditor cw_triangle (mkEditor [] [] [] None true))).
    simpl. lia.
  - apply (editor_opens_with_a_handle_and_a_label_each cw_triangle
             (mkEditor [] [] [] None true)).
    simpl. lia.
Defined.

Lemma replace_at_length {A : Type} (i : nat) (x : A) (l : list A) :
  List.length (replace_at i x l) = List.length l.
Proof.
  revert i. induction l as [|a l IH]; intros [|i]; simpl; auto.
Qed.

Lemma nth_error_replace_at_same {A : Type} (i : nat) (x : A) (l : list A) :
  (i < List.length l)%nat -> nth_error (replace_at i x l) i = Some x.
Proof.
  revert i. induction l as [|a l IH]; intros [|i] H; simpl in *;
    try lia; [reflexivity|]. apply IH. lia.
Qed.

Lemma nth_error_replace_at_other {A : Type} (i j : nat) (x : A) (l : list A) :
  j <> i -> nth_error (replace_at i x l) j = nth_error l j.
Proof.
  revert i j. induction l as [|a l IH]; intros [|i] [|j] H; simpl;
    try reflexivity; try congruence.
  apply IH. congruence.
Qed.

Lemma point_at_replace_at_other (i j : nat) (x : Point2D) (l : list Point2D) :
  j <> i -> point_at (replace_at i x l) j = point_at l j.
Proof.
  intros H. unfold point_at. revert i j H. induction l as [|a l IH]; intros [|i] [|j] H; simpl;
    try reflexivity; try congruence.
  apply IH. congruence.
Qed.

Lemma createEdgeLabel_local (pts pts' : list Point2D) (j : nat) :
  List.length pts' = List.length pts ->
  point_at pts' j = point_at pts j ->
  point_at pts' (next_index pts j) = point_at pts (next_index pts j) ->
  createEdgeLabel pts' j = createEdgeLabel pts j.
Proof.
  intros L A B. unfold createEdgeLabel.
  assert (N : next_index pts' j = next_index pts j)
    by (unfold next_index; rewrite L; reflexivity).
  rewrite N, A, B. reflexivity.
Qed.

(** X12.  Dragging the handle of vertex [k] to [p] writes the x and z of
    [p] into point [k] and into nothing else: the other points and the
    other handles stay, the handle stands over the new point at the
    label height, the floor overlay follows the points, and of the
    labels only those of the two edges that meet at vertex [k] can
    change. *)
Theorem drag_moves_one_vertex
        (k : nat) (p : Vector3) (e : FloorDimensionEditor) (h : Handle) :
  nth_error (handles e) k = Some h ->
  vertexIndex h = k ->
  (k < List.length (ed_points e))%nat ->
  (3 <= List.length (ed_points e))%nat ->
  floorMesh e = Some (ed_points e) ->
  edgeLabels e
    = map (createEdgeLabel (ed_points e)) (seq 0 (List.length (ed_points e))) ->
  exists e',
    _onDrag k p e = (Returned, e') /\
    ed_points e' = replace_at k (point (vx p) (vz p)) (ed_points e) /\
    List.length (ed_points e') = List.length (ed_points e) /\
    nth_error (ed_points e') k = Some (point (vx p) (vz p)) /\
    (forall j, j <> k ->
       nth_error (ed_points e') j = nth_error (ed_points e) j /\
       nth_error (handles e') j = nth_error (handles e) j) /\
    nth_error (handles e') k = Some (mkHandle k (vec3 (vx p) 0.02 (vz p))) /\
    floorMesh e' = Some (ed_points e') /\
    edgeLabels e'
      = map (createEdgeLabel (ed_points e'))
            (seq 0 (List.length (ed_points e'))) /\
    (forall j, (j < List.length (ed_points e))%nat ->
       j <> k -> next_index (ed_points e) j <> k ->
       nth_error (edgeLabels e') j = nth_error (edgeLabels e) j).
Proof.
  intros Hh Hv Hk Hn Hf Hl. unfold _onDrag. rewrite Hh, Hv.
  cbn [ed_points handles edgeLabels floorMesh isActive].
  destruct (Nat.ltb_spec k (List.length (ed_points e))); [|lia].
  unfold _updateEdgeLabels, _updateFloorGeometry, _createEdgeLabels.
  cbn [ed_points handles edgeLabels floorMesh isActive]. rewrite Hf.
  rewrite replace_at_length.
  destruct (Nat.ltb_spec (List.length (ed_points e)) 3); [lia|].
  cbn [ed_points handles edgeLabels floorMesh isActive].
  eexists. split; [reflexivity|].
  cbn [ed_points handles edgeLabels floorMesh isActive].
  rewrite replace_at_length.
  split; [reflexivity|]. split; [reflexivity|].
  split; [apply nth_error_replace_at_same; exact Hk|].
  split; [intros j Hj; split; apply nth_error_replace_at_other; exact Hj|].
  split.
  { apply nth_error_replace_at_same.
    apply nth_error_Some. rewrite Hh. discriminate. }
  split; [reflexivity|]. split; [reflexivity|].
  intros j Hj Hjk Hnk. rewrite Hl, !nth_error_map_seq by assumption.
  f_equal. apply createEdgeLabel_local.
  - apply replace_at_length.
  - apply point_at_replace_at_other. exact Hjk.
  - apply point_at_replace_at_other. exact Hnk.
Qed.

Lemma drag_moves_one_vertex_witness :
  let e := initEditor cw_triangle (mkEditor [] [] [] None true) in
  exists e',
    _onDrag 1 (vec3 2 7 3) e = (Returned, e') /\
    ed_points e' = replace_at 1 (point 2 3) (ed_points e) /\
    List.length (ed_points e') = List.length (ed_points e) /\
    nth_error (ed_points e') 1 = Some (point 2 3) /\
    (forall j, j <> 1%nat ->
       nth_error (ed_points e') j = nth_error (ed_points e) j /\
       nth_error (handles e') j = nth_error (handles e) j) /\
    nth_error (handles e') 1 = Some (mkHandle 1 (vec3 2 0.02 3)) /\
    floorMesh e' = Some (ed_points e') /\
    edgeLabels e'
      = map (createEdgeLabel (ed_points e'))
            (seq 0 (List.length (ed_points e'))) /\
    (forall j, (j < List.length (ed_points e))%nat ->
       j <> 1%nat -> next_index (ed_points e) j <> 1%nat ->
       nth_error (edgeLabels e') j = nth_error (edgeLabels e) j).
Proof.
  apply (drag_moves_one_vertex 1 (vec3 2 7 3)
           (initEditor cw_triangle (mkEditor [] [] [] None true))
           (mkHandle 1 (vec3 0 0.02 1))).
  - reflexivity.
  - reflexivity.
  - simpl. lia.
  - simpl. lia.
  - reflexivity.
  - reflexivity.
Defined.

(** X13.  A label is never farther than the label distance 0.18 from
    the midpoint of its edge, also on an edge of length zero, where the
    divisor is 0.001 and not the length: the squared distance is
    0.18 squared times the squared ratio of the edge's length to the
    larger of 0.001 and that length.  The label is at the label height
    and the length it carries is not negative. *)
Theorem label_within_reach_of_its_edge (points : list Point2D) (i : nat) :
  let lab := createEdgeLabel points i in
  let m := midpoint points i in
  let len := span (edge_at points i) in
  let d2 := (vx (label_position lab) - pt_x m) * (vx (label_position lab) - pt_x m)
            + (vz (label_position lab) - pt_z m) * (vz (label_position lab) - pt_z m) in
  d2 = (len / Rmax 0.001 len) * (len / Rmax 0.001 len) * (0.18 * 0.18) /\
  d2 <= 0.18 * 0.18 /\
  vy (label_position lab) = 0.02 /\
  0 <= label_length lab.
Proof.
  cbv zeta. rewrite createEdgeLabel_edge. cbv zeta.
  cbn [label_position label_length vx vy vz]. unfold midpoint.
  cbn [pt_x pt_z].
  change (point_at points i) with (fst (edge_at points i)).
  change (point_at points (next_index points i)) with (snd (edge_at points i)).
  pose proof (span_sqr (edge_at points i)) as Sq.
  pose proof (sqrt_pos ((pt_x (snd (edge_at points i)) - pt_x (fst (edge_at points i)))
                        * (pt_x (snd (edge_at points i)) - pt_x (fst (edge_at points i)))
                        + (pt_z (snd (edge_at points i)) - pt_z (fst (edge_at points i)))
                          * (pt_z (snd (edge_at points i)) - pt_z (fst (edge_at points i)))))
    as Pos.
  change (sqrt _) with (span (edge_at points i)) in Pos.
  destruct (edge_at points i) as [a b]. cbn [fst snd] in *.
  set (dx := pt_x b - pt_x a) in *. set (dz := pt_z b - pt_z a) in *.
  remember (span (a, b)) as len eqn:Hl. clear Hl.
  pose proof (Rmax_l 0.001 len) as S1. pose proof (Rmax_r 0.001 len) as S2.
  remember (Rmax 0.001 len) as seg eqn:Hs. clear Hs.
  assert (E : (pt_x a + dx / 2 + - dz / seg * 0.18 - (pt_x a + pt_x b) / 2)
              * (pt_x a + dx / 2 + - dz / seg * 0.18 - (pt_x a + pt_x b) / 2)
              + (pt_z a + dz / 2 + dx / seg * 0.18 - (pt_z a + pt_z b) / 2)
                * (pt_z a + dz / 2 + dx / seg * 0.18 - (pt_z a + pt_z b) / 2)
              = len / seg * (len / seg) * (0.18 * 0.18)).
  { replace (len / seg * (len / seg) * (0.18 * 0.18))
      with ((len * len) / (seg * seg) * (0.18 * 0.18)) by (field; lra).
    rewrite Sq. unfold dx, dz. field. lra. }
  split; [exact E|]. split; [|split; [reflexivity|exact Pos]].
  rewrite E.
  assert (Q : 0 <= len / seg <= 1).
  { split.
    - apply Rmult_le_pos; [lra|]. left. apply Rinv_0_lt_compat. lra.
    - apply (Rmult_le_reg_r seg); [lra|].
      replace (len / seg * seg) with len by (field; lra). lra. }
  assert (Q2 : len / seg * (len / seg) <= 1).
  { replace 1 with (1 * 1) by ring.
    apply Rmult_le_compat; lra. }
  replace (0.18 * 0.18) with (1 * (0.18 * 0.18)) at 2 by ring.
  apply Rmult_le_compat_r; [lra|exact Q2].
Qed.

(** ** The floor editor session of the scene manager *)

(** X14.  For a room group that is moved and turned about the vertical
    axis only (a unit quaternion with x = z = 0, as the identity is),
    taking a floor point from room space to world space and back gives
    the point again, and so does taking it from world space to room
    space and back. *)
Theorem floor_points_round_trip (r : Room) (p : Point2D) :
  qx (group_quaternion r) = 0 ->
  qz (group_quaternion r) = 0 ->
  qy (group_quaternion r) * qy (group_quaternion r)
  + qw (group_quaternion r) * qw (group_quaternion r) = 1 ->
  worldToLocal r (localToWorld r p) = p /\
  localToWorld r (worldToLocal r p) = p.
Proof.
  intros Hx Hz Hu. unfold worldToLocal, localToWorld, getWorldPosition.
  destruct (group_quaternion r) as [x s z c].
  destruct (group_position r) as [tx ty tz]. destruct p as [px pz].
  cbn [qx qy qz qw] in Hx, Hz, Hu. subst x z.
  unfold applyQuaternion, conjugate, add, sub.
  cbn [qx qy qz qw vx vy vz pt_x pt_z].
  assert (C : c * c = 1 - s * s) by lra.
  split; f_equal.
  - transitivity (px * (1 - 4 * (s * s) + 4 * (s * s) * (s * s)
                        + 4 * (s * s) * (c * c))); [ring|].
    rewrite C. ring.
  - transitivity (pz * (1 - 4 * (s * s) + 4 * (s * s) * (s * s)
                        + 4 * (s * s) * (c * c))); [ring|].
    rewrite C. ring.
  - transitivity (px * (1 - 4 * (s * s) + 4 * (s * s) * (s * s)
                        + 4 * (s * s) * (c * c))
                  + tx * (4 * (s * s) - 4 * (s * s) * (s * s)
                          - 4 * (s * s) * (c * c))); [ring|].
    rewrite C. ring.
  - transitivity (pz * (1 - 4 * (s * s) + 4 * (s * s) * (s * s)
                        + 4 * (s * s) * (c * c))
                  + tz * (4 * (s * s) - 4 * (s * s) * (s * s)
                          - 4 * (s * s) * (c * c))); [ring|].
    rewrite C. ring.
Qed.

Lemma floor_points_round_trip_witness :
  qx (group_quaternion (newRoom 2.5)) = 0 /\
  qz (group_quaternion (newRoom 2.5)) = 0 /\
  qy (group_quaternion (newRoom 2.5)) * qy (group_quaternion (newRoom 2.5))
  + qw (group_quaternion (newRoom 2.5)) * qw (group_quaternion (newRoom 2.5)) = 1 /\
  worldToLocal (newRoom 2.5) (localToWorld (newRoom 2.5) (point 5 3)) = point 5 3 /\
  localToWorld (newRoom 2.5) (worldToLocal (newRoom 2.5) (point 5 3)) = point 5 3.
Proof.
  split; [reflexivity|]. split; [reflexivity|].
  split; [cbn [newRoom group_quaternion identityQuaternion qy qw]; lra|].
  apply (floor_points_round_trip (newRoom 2.5) (point 5 3)).
  - reflexivity.
  - reflexivity.
  - cbn [newRoom group_quaternion identityQuaternion qy qw]. lra.
Defined.




Lemma worldToLocal_identity (r : Room) (w : Point2D) :
  group_quaternion r = identityQuaternion ->
  worldToLocal r w
  = point (pt_x w + - vx (group_position r)) (pt_z w + - vz (group_position r)).
Proof.
  intros H. unfold worldToLocal. rewrite H.
  unfold applyQuaternion, conjugate, identityQuaternion, sub.
  cbn [qx qy qz qw vx vy vz]. f_equal; ring.
Qed.

Lemma localToWorld_identity (r : Room) (p : Point2D) :
  group_quaternion r = identityQuaternion ->
  localToWorld r p
  = point (pt_x p + vx (group_position r)) (pt_z p + vz (group_position r)).
Proof.
  intros H. unfold localToWorld, getWorldPosition. rewrite H.
  unfold applyQuaternion, identityQuaternion, add.
  cbn [qx qy qz qw vx vy vz]. f_equal; ring.
Qed.

Lemma in_processPoints (p : Point2D) (l : list Point2D) :
  In p (processPoints l) <-> In p l.
Proof.
  rewrite processPoints_cases. destruct (isClockwise l); [|reflexivity].
  symmetry. apply in_rev.
Qed.

(** X16.  A commit from the editor puts the room back around the world
    origin: for a room group that is not turned and three world points
    or more, each point the rebuilt room stores lies, in world space, at
    one of the committed points moved by minus the mean of the committed
    points, and each committed point is met so.  The rebuilt room shows
    the editor's polygon where the editor has it only when the mean of
    the polygon is the origin. *)
Theorem commit_recentres_the_room (W : list Point2D) (a : Planner) :
  group_quaternion (room a) = identityQuaternion ->
  (3 <= List.length W)%nat ->
  let a' := onFloorPointsUpdated W a in
  let n := INR (List.length W) in
  let shifted w :=
    point (pt_x w - pt_x (sum_points W) / n) (pt_z w - pt_z (sum_points W) / n) in
  List.length (_currentPoints (room a')) = List.length W /\
  (forall p, In p (_currentPoints (room a')) ->
     exists w, In w W /\ localToWorld (room a') p = shifted w) /\
  (forall w, In w W ->
     exists p, In p (_currentPoints (room a')) /\
               localToWorld (room a') p = shifted w).
Proof.
  intros Hq H a' n shifted. subst a'. unfold onFloorPointsUpdated.
  cbn [room].
  set (r := room a) in *.
  set (L := map (worldToLocal r) W).
  assert (LL : List.length L = List.length W) by apply length_map.
  rewrite (buildFromPolygon_result L false r) by lia.
  set (r' := mkRoom _ _ _ _ _ _ _ _ _ _).
  assert (Q' : group_quaternion r' = identityQuaternion) by exact Hq.
  cbn [_currentPoints r'].
  assert (Hn : n <> 0) by (unfold n; apply not_0_INR; lia).
  assert (Sx : pt_x (sum_points L)
               = pt_x (sum_points W) + n * - vx (group_position r)).
  { unfold sum_points. rewrite !sum_points_Rsum. cbn [pt_x].
    unfold L. rewrite map_map.
    rewrite (map_ext _ (fun w => pt_x w + - vx (group_position r)))
      by (intros w; rewrite (worldToLocal_identity r w Hq); reflexivity).
    rewrite Rsum_shift. fold n. lra. }
  assert (Sz : pt_z (sum_points L)
               = pt_z (sum_points W) + n * - vz (group_position r)).
  { unfold sum_points. rewrite !sum_points_Rsum. cbn [pt_z].
    unfold L. rewrite map_map.
    rewrite (map_ext _ (fun w => pt_z w + - vz (group_position r)))
      by (intros w; rewrite (worldToLocal_identity r w Hq); reflexivity).
    rewrite Rsum_shift. fold n. lra. }
  assert (K : forall w, localToWorld r' (worldToLocal r w) = shifted w).
  { intros w. rewrite (localToWorld_identity r' _ Q').
    rewrite (worldToLocal_identity r w Hq).
    unfold r'. cbn [group_position vx vz pt_x pt_z]. rewrite LL. fold n.
    rewrite Sx, Sz. unfold shifted. f_equal; field; exact Hn. }
  split; [rewrite processPoints_length; exact LL|]. split.
  - intros p Hp. apply (proj1 (in_processPoints _ _)) in Hp. unfold L in Hp.
    apply in_map_iff in Hp. destruct Hp as (w & <- & Hw).
    exists w. split; [exact Hw|apply K].
  - intros w Hw. exists (worldToLocal r w). split; [|apply K].
    apply (proj2 (in_processPoints _ _)). unfold L. apply in_map. exact Hw.
Qed.

Lemma commit_recentres_the_room_witness :
  let a := mkPlanner empty_scene (newRoom 2.5) (mkEditor [] [] [] None false)
                     true in
  let a' := onFloorPointsUpdated defaultRoomPoints a in
  let n := INR (List.length defaultRoomPoints) in
  let shifted w :=
    point (pt_x w - pt_x (sum_points defaultRoomPoints) / n)
          (pt_z w - pt_z (sum_points defaultRoomPoints) / n) in
  List.length (_currentPoints (room a')) = List.length defaultRoomPoints /\
  (forall p, In p (_currentPoints (room a')) ->
     exists w, In w defaultRoomPoints /\ localToWorld (room a') p = shifted w) /\
  (forall w, In w defaultRoomPoints ->
     exists p, In p (_currentPoints (room a')) /\
               localToWorld (room a') p = shifted w).
Proof.
  apply (commit_recentres_the_room defaultRoomPoints
           (mkPlanner empty_scene (newRoom 2.5) (mkEditor [] [] [] None false)
                      true)).
  - reflexivity.
  - simpl. lia.
Defined.

(** ** Adding, removing and deleting, followed by undo *)

Lemma without_fresh (o : ObjId) (l : list ObjId) : ~ In o l -> without o l = l.
Proof.
  intros N. induction l as [|a l IH]; [reflexivity|].
  unfold without in *. simpl.
  destruct (Nat.eqb a o) eqn:E.
  - apply Nat.eqb_eq in E. subst a. exfalso. apply N. left. reflexivity.
  - simpl. f_equal. apply IH. intros H. apply N. right. exact H.
Qed.

Lemma without_idem (o : ObjId) (l : list ObjId) :
  without o (without o l) = without o l.
Proof. apply without_fresh, not_in_without. Qed.

Lemma without_push (o : ObjId) (l : list ObjId) : without o (l ++ [o]) = without o l.
Proof.
  unfold without. rewrite filter_app. simpl. rewrite Nat.eqb_refl. simpl.
  apply app_nil_r.
Qed.

Lemma same_object_false (a : option ObjId) (o : ObjId) :
  a <> Some o -> same_object a o = false.
Proof.
  intros N. destruct a as [b|]; [|reflexivity]. simpl.
  apply Nat.eqb_neq. intros ->. apply N. reflexivity.
Qed.

Lemma same_object_true (a : option ObjId) (o : ObjId) :
  same_object a o = true -> a = Some o.
Proof.
  destruct a as [b|]; simpl; [|discriminate].
  intros H. apply Nat.eqb_eq in H. subst b. reflexivity.
Qed.

(** X17.  Adding a model that is new to the scene and undoing at once
    gives back the scene and the object list as they were, with the undo
    stack as before the add; the redo stack holds the add alone, what it
    held before the add being gone, and nothing is selected. *)
Theorem add_then_undo_restores_the_lists
        (o : ObjId) (model : Object3D) (s : SceneManager)
        (im : InteractionManager) :
  interactionManager s = Some im ->
  im_selectedObject im <> Some o ->
  ~ In o (scene_children s) ->
  ~ In o (objects s) ->
  exists s',
    undo (addModel o model s) = (Returned, s') /\
    scene_children s' = scene_children s /\
    objects s' = objects s /\
    undoStack s' = undoStack s /\
    redoStack s' = [mkAction "add" o (Some (getObjectState model)) None None] /\
    selectedObject s' = None.
Proof.
  intros M N C O.
  destruct s as [sc st cam objs sel mgr us rs dis].
  cbn [interactionManager scene_children objects] in M, C, O. subst mgr.
  destruct im as [isel pins dr ro mode dsp osp osr dp dof ptr sptr orb].
  cbn [im_selectedObject] in N.
  unfold addModel, selectObject, addToUndoStack, select, scene_add.
  cbn -[pop without push update same_object deselect].
  rewrite (same_object_false _ _ N).
  destruct isel as [o2|]; cbn -[pop without push update undo]; scene_fields;
    unfold undo; scene_fields; unfold push at 1; rewrite pop_push;
    cbn -[pop without push update]; scene_fields;
    unfold pushRedo, takeOut, scene_remove; scene_fields;
    cbn [same_object]; rewrite Nat.eqb_refl;
    unfold deselectObject, deselect; scene_fields; cbn [im_selectedObject];
    scene_fields; (eexists; split; [reflexivity|]); scene_fields;
    unfold push; rewrite !without_push, ?without_idem,
      (without_fresh o sc C), (without_fresh o objs O);
    repeat split; reflexivity.
Qed.

Lemma add_then_undo_restores_the_lists_witness :
  exists s',
    undo (addModel 2%nat chair scene_with_chair) = (Returned, s') /\
    scene_children s' = scene_children scene_with_chair /\
    objects s' = objects scene_with_chair /\
    undoStack s' = undoStack scene_with_chair /\
    redoStack s' = [mkAction "add" 2%nat (Some (getObjectState chair)) None None] /\
    selectedObject s' = None.
Proof.
  apply (add_then_undo_restores_the_lists 2%nat chair scene_with_chair
           selecting_manager).
  - reflexivity.
  - discriminate.
  - simpl. intros [H|[]]. discriminate.
  - simpl. intros [H|[]]. discriminate.
Defined.

Lemma lookup_update_some (o o2 : ObjId) (f : Object3D -> Object3D)
      (h : list (ObjId * Object3D)) (obj : Object3D) :
  lookup o h = Some obj ->
  exists obj1,
    lookup o (update o2 f h) = Some obj1 /\
    (o2 <> o -> obj1 = obj) /\ (o2 = o -> obj1 = f obj).
Proof.
  intros L. destruct (Nat.eq_dec o2 o) as [->|N].
  - rewrite lookup_update, L. exists (f obj).
    split; [reflexivity|]. split; [intros X; contradiction|reflexivity].
  - rewrite lookup_update_other by exact N. exists obj.
    split; [exact L|]. split; [reflexivity|intros X; contradiction].
Qed.

(** X18.  Removing an object and undoing at once puts the object back
    with the position, rotation and scale it had, at the end of the
    scene's children and of the object list (not at the place it had);
    the undo stack is as before the removal and the redo stack holds
    the removal alone. *)
Theorem remove_then_undo_puts_the_object_back
        (o : ObjId) (obj : Object3D) (s : SceneManager) :
  lookup o (store s) = Some obj ->
  exists s' obj',
    undo (removeObject o s) = (Returned, s') /\
    scene_children s' = without o (scene_children s) ++ [o] /\
    objects s' = without o (objects s) ++ [o] /\
    undoStack s' = undoStack s /\
    redoStack s' = [mkAction "remove" o (Some (getObjectState obj)) None None] /\
    lookup o (store s') = Some obj' /\
    position obj' = position obj /\
    rotation obj' = rotation obj /\
    scale obj' = scale obj.
Proof.
  intros L. destruct s as [sc st cam objs sel mgr us rs dis].
  cbn [store] in L.
  unfold removeObject. scene_fields. rewrite L.
  unfold addToUndoStack, deselectObject, scene_remove. scene_fields.
  assert (K : forall st1 dis1 sel1 mgr1,
             (exists obj1, lookup o st1 = Some obj1) ->
             exists s' obj',
               undo (mkSceneManager (without o sc) st1 cam (without o objs) sel1
                       mgr1
                       (push us (mkAction "remove" o (Some (getObjectState obj))
                                          None None)) [] dis1)
               = (Returned, s') /\
               scene_children s' = without o sc ++ [o] /\
               objects s' = without o objs ++ [o] /\
               undoStack s' = us /\
               redoStack s'
               = [mkAction "remove" o (Some (getObjectState obj)) None None] /\
               lookup o (store s') = Some obj' /\
               position obj' = position obj /\
               rotation obj' = rotation obj /\
               scale obj' = scale obj).
  { intros st1 dis1 sel1 mgr1 [obj1 L1]. unfold undo. scene_fields.
    unfold push at 1. rewrite pop_push.
    cbn [type object properties String.eqb Ascii.eqb Bool.eqb].
    unfold putBack, scene_add, applyObjectState, andThen, pushRedo.
    scene_fields.
    eexists. exists (mkObject (position obj) (rotation obj) (scale obj)
                              (userData obj)).
    split; [reflexivity|]. scene_fields.
    rewrite !without_idem, lookup_update, L1. unfold push.
    repeat split; reflexivity. }
  destruct (same_object sel o).
  - destruct mgr as [im|].
    + unfold deselect. destruct (im_selectedObject im) as [o2|]; scene_fields.
      * apply K.
        destruct (lookup_update_some o o2 (set_boundingBoxHelper false) st obj L)
          as (obj1 & L1 & _).
        exists obj1. exact L1.
      * apply K. exists obj. exact L.
    + apply K. exists obj. exact L.
  - apply K. exists obj. exact L.
Qed.

Lemma remove_then_undo_puts_the_object_back_witness :
  exists s' obj',
    undo (removeObject 1%nat scene_with_chair) = (Returned, s') /\
    scene_children s' = without 1%nat (scene_children scene_with_chair) ++ [1%nat] /\
    objects s' = without 1%nat (objects scene_with_chair) ++ [1%nat] /\
    undoStack s' = undoStack scene_with_chair /\
    redoStack s'
    = [mkAction "remove" 1%nat
                (Some (getObjectState (set_boundingBoxHelper true chair)))
                None None] /\
    lookup 1%nat (store s') = Some obj' /\
    position obj' = position (set_boundingBoxHelper true chair) /\
    rotation obj' = rotation (set_boundingBoxHelper true chair) /\
    scale obj' = scale (set_boundingBoxHelper true chair).
Proof.
  apply (remove_then_undo_puts_the_object_back 1%nat
           (set_boundingBoxHelper true chair) scene_with_chair).
  reflexivity.
Defined.

Lemma isPinned_without (o : ObjId) (l : list ObjId) :
  existsb (Nat.eqb o) (without o l) = false.
Proof.
  destruct (existsb (Nat.eqb o) (without o l)) eqn:E; [|reflexivity].
  apply existsb_exists in E. destruct E as (x & I & E).
  apply Nat.eqb_eq in E. subst x. exfalso. exact (not_in_without o l I).
Qed.

(** X19.  Deleting the selected object and undoing at once puts the
    object back in the scene and in the object list with the position,
    rotation and scale it had and with the [isPinned] flag of its user
    data as it was, but the interaction manager no longer has it among
    its pinned objects and has nothing selected: an object that was
    pinned comes back with its flag set and free to be moved. *)
Theorem delete_then_undo_forgets_the_pin
        (o : ObjId) (obj : Object3D) (s : SceneManager)
        (im : InteractionManager) :
  interactionManager s = Some im ->
  im_selectedObject im = Some o ->
  lookup o (store s) = Some obj ->
  exists s' im' obj',
    undo (deleteSelected im s) = (Returned, s') /\
    In o (scene_children s') /\
    In o (objects s') /\
    interactionManager s' = Some im' /\
    isPinned_ im' o = false /\
    im_selectedObject im' = None /\
    lookup o (store s') = Some obj' /\
    position obj' = position obj /\
    rotation obj' = rotation obj /\
    scale obj' = scale obj /\
    isPinned (userData obj') = isPinned (userData obj).
Proof.
  intros M S L. destruct s as [sc st cam objs sel mgr us rs dis].
  cbn [interactionManager store] in M, L. subst mgr.
  destruct im as [isel pins dr ro mode dsp osp osr dp dof ptr sptr orb].
  cbn [im_selectedObject] in S. subst isel.
  unfold deleteSelected, deselect. cbn [im_selectedObject]. scene_fields.
  unfold scene_remove, onObjectDeleted. scene_fields.
  rewrite lookup_update, L. cbn [option_map].
  unfold addToUndoStack, undo. scene_fields.
  unfold push at 1. rewrite pop_push.
  cbn [type object properties String.eqb Ascii.eqb Bool.eqb].
  unfold putBack, scene_add, applyObjectState, andThen, pushRedo.
  cbn [getObjectState]. scene_fields.
  do 3 eexists. split; [reflexivity|]. scene_fields.
  rewrite lookup_update, lookup_update, L.
  cbn [option_map set_pinnedObjects isPinned_ pinnedObjects im_selectedObject
       set_boundingBoxHelper position rotation scale userData isPinned
       st_position st_rotation st_scale st_userData].
  split; [apply in_or_app; right; left; reflexivity|].
  split; [apply in_or_app; right; left; reflexivity|].
  split; [reflexivity|]. split; [apply isPinned_without|].
  repeat split; reflexivity.
Qed.

Lemma delete_then_undo_forgets_the_pin_witness :
  exists s' im' obj',
    undo (deleteSelected selecting_manager scene_with_chair) = (Returned, s') /\
    In 1%nat (scene_children s') /\
    In 1%nat (objects s') /\
    interactionManager s' = Some im' /\
    isPinned_ im' 1%nat = false /\
    im_selectedObject im' = None /\
    lookup 1%nat (store s') = Some obj' /\
    position obj' = position (set_boundingBoxHelper true chair) /\
    rotation obj' = rotation (set_boundingBoxHelper true chair) /\
    scale obj' = scale (set_boundingBoxHelper true chair) /\
    isPinned (userData obj') = isPinned (userData (set_boundingBoxHelper true chair)).
Proof.
  apply (delete_then_undo_forgets_the_pin 1%nat
           (set_boundingBoxHelper true chair) scene_with_chair
           selecting_manager).
  - reflexivity.
  - reflexivity.
  - reflexivity.
Defined.

(** ** What undo and redo do to the two stacks *)

Lemma deselectObject_stacks (s : SceneManager) :
  undoStack (deselectObject s) = undoStack s /\
  redoStack (deselectObject s) = redoStack s /\
  (interactionManager s = None -> interactionManager (deselectObject s) = None) /\
  (interactionManager s <> None -> interactionManager (deselectObject s) <> None).
Proof.
  unfold deselectObject. destruct (interactionManager s) as [im|] eqn:M.
  - unfold deselect. destruct (im_selectedObject im).
    + scene_fields. repeat split; try reflexivity; intros; discriminate.
    + rewrite M. repeat split; try reflexivity; intros; discriminate.
  - rewrite M. repeat split; try reflexivity. intros X. exact X.
Qed.

Lemma takeOut_stacks (o : ObjId) (s : SceneManager) :
  undoStack (takeOut o s) = undoStack s /\
  redoStack (takeOut o s) = redoStack s.
Proof.
  unfold takeOut.
  match goal with
  | |- context [if ?c then deselectObject ?q else ?q] =>
      destruct c; [destruct (deselectObject_stacks q) as (U & R & _)|]
  end.
  - rewrite U, R. split; reflexivity.
  - split; reflexivity.
Qed.

Lemma kind_cases (a : Action) :
  (String.eqb (type a) "add" = true /\ type a = "add"%string) \/
  (String.eqb (type a) "add" = false /\ String.eqb (type a) "remove" = true
   /\ type a = "remove"%string) \/
  (String.eqb (type a) "add" = false /\ String.eqb (type a) "remove" = false
   /\ String.eqb (type a) "transform" = true /\ type a = "transform"%string) \/
  (String.eqb (type a) "add" = false /\ String.eqb (type a) "remove" = false
   /\ String.eqb (type a) "transform" = false /\ type a <> "add"%string
   /\ type a <> "remove"%string /\ type a <> "transform"%string).
Proof.
  destruct (String.eqb_spec (type a) "add") as [E1|E1]; [left; auto|].
  destruct (String.eqb_spec (type a) "remove") as [E2|E2]; [right; left; auto|].
  destruct (String.eqb_spec (type a) "transform") as [E3|E3];
    [right; right; left; auto|].
  right; right; right. repeat split; auto.
Qed.

(** X20.  [undo] takes the last action off the undo stack whatever
    happens next; the action reaches the redo stack exactly when [undo]
    returns, and when [undo] throws the redo stack is as it was, so that
    the action is on neither stack.  [redo] does the same the other way
    round. *)
Theorem an_action_is_lost_exactly_when_the_call_throws
        (s : SceneManager) (a : Action) (rest : list Action) :
  (undoStack s = rest ++ [a] ->
   undoStack (snd (undo s)) = rest /\
   redoStack (snd (undo s))
   = match fst (undo s) with
     | Returned => redoStack s ++ [a]
     | Threw => redoStack s
     end) /\
  (redoStack s = rest ++ [a] ->
   redoStack (snd (redo s)) = rest /\
   undoStack (snd (redo s))
   = match fst (redo s) with
     | Returned => undoStack s ++ [a]
     | Threw => undoStack s
     end).
Proof.
  split; intros H.
  - unfold undo. rewrite H, pop_push.
    destruct (kind_cases a) as [(E1 & _)|[(E1 & E2 & _)|[(E1 & E2 & E3 & _)
                                |(E1 & E2 & E3 & _)]]].
    + rewrite E1. unfold pushRedo, push.
      cbn [fst snd undoStack redoStack set_redoStack].
      destruct (takeOut_stacks (object a) (set_undoStack rest s)) as (U & R).
      rewrite U, R. split; reflexivity.
    + rewrite E1, E2. unfold putBack, applyObjectState.
      destruct (properties a); unfold andThen, pushRedo; cbn [fst snd];
        split; reflexivity.
    + rewrite E1, E2, E3. unfold applyObjectState.
      destruct (previousProperties a); unfold andThen, updateControlsForObject;
        [|cbn [fst snd]; split; reflexivity].
      cbn [interactionManager set_store set_undoStack].
      destruct (interactionManager s); unfold pushRedo; cbn [fst snd];
        split; reflexivity.
    + rewrite E1, E2, E3. unfold pushRedo. cbn [fst snd]. split; reflexivity.
  - unfold redo. rewrite H, pop_push.
    destruct (kind_cases a) as [(E1 & _)|[(E1 & E2 & _)|[(E1 & E2 & E3 & _)
                                |(E1 & E2 & E3 & _)]]].
    + rewrite E1. unfold putBack, applyObjectState.
      destruct (properties a); unfold andThen, pushUndo; cbn [fst snd];
        split; reflexivity.
    + rewrite E1, E2. unfold pushUndo, push.
      cbn [fst snd undoStack redoStack set_undoStack].
      destruct (takeOut_stacks (object a) (set_redoStack rest s)) as (U & R).
      rewrite U, R. split; reflexivity.
    + rewrite E1, E2, E3. unfold applyObjectState.
      destruct (newProperties a); unfold andThen, updateControlsForObject;
        [|cbn [fst snd]; split; reflexivity].
      cbn [interactionManager set_store set_redoStack].
      destruct (interactionManager s); unfold pushUndo; cbn [fst snd];
        split; reflexivity.
    + rewrite E1, E2, E3. unfold pushUndo. cbn [fst snd]. split; reflexivity.
Qed.

Lemma an_action_is_lost_exactly_when_the_call_throws_witness :
  (undoStack dragged = [add_chair] ++ [move_chair] /\
   redoStack scene_with_redo_paint = [] ++ [paint]) /\
  (undoStack (snd (undo dragged)) = [add_chair] /\
   redoStack (snd (undo dragged))
   = match fst (undo dragged) with
     | Returned => redoStack dragged ++ [move_chair]
     | Threw => redoStack dragged
     end) /\
  (redoStack (snd (redo scene_with_redo_paint)) = [] /\
   undoStack (snd (redo scene_with_redo_paint))
   = match fst (redo scene_with_redo_paint) with
     | Returned => undoStack scene_with_redo_paint ++ [paint]
     | Threw => undoStack scene_with_redo_paint
     end).
Proof.
  destruct dragged_fields as (_ & _ & U & _).
  split; [split; [exact U|reflexivity]|]. split.
  - apply (an_action_is_lost_exactly_when_the_call_throws dragged move_chair
             [add_chair]).
    exact U.
  - apply (an_action_is_lost_exactly_when_the_call_throws
             scene_with_redo_paint paint []).
    reflexivity.
Defined.

(** X21.  When [undo] throws: never for an add action or one of unknown
    kind; for a remove action when the action carries no state; for a
    transform action when it carries no previous state or when the scene
    manager has an interaction manager. *)
Theorem undo_throws_exactly_when
        (s : SceneManager) (a : Action) (rest : list Action) :
  undoStack s = rest ++ [a] ->
  (fst (undo s) = Threw <->
   (type a = "remove"%string /\ properties a = None) \/
   (type a = "transform"%string /\
    (previousProperties a = None \/ interactionManager s <> None))).
Proof.
  intros H. unfold undo. rewrite H, pop_push.
  destruct (kind_cases a) as [(E1 & T)|[(E1 & E2 & T)|[(E1 & E2 & E3 & T)
                              |(E1 & E2 & E3 & T1 & T2 & T3)]]].
  - rewrite E1. unfold pushRedo. cbn [fst]. split; [discriminate|].
    rewrite T. intros [[X _]|[X _]]; discriminate.
  - rewrite E1, E2. unfold putBack, applyObjectState.
    destruct (properties a); unfold andThen, pushRedo; cbn [fst]; split.
    + discriminate.
    + rewrite T. intros [[_ X]|[X _]]; discriminate.
    + intros _. left. split; [exact T|reflexivity].
    + reflexivity.
  - rewrite E1, E2, E3. unfold applyObjectState.
    destruct (previousProperties a); unfold andThen, updateControlsForObject.
    + cbn [interactionManager set_store set_undoStack].
      destruct (interactionManager s); unfold pushRedo; cbn [fst]; split.
      * intros _. right. split; [exact T|]. right. discriminate.
      * reflexivity.
      * discriminate.
      * rewrite T. intros [[X _]|[_ [X|X]]]; try discriminate.
        exfalso. apply X. reflexivity.
    + cbn [fst]. split; [|reflexivity].
      intros _. right. split; [exact T|]. left. reflexivity.
  - rewrite E1, E2, E3. unfold pushRedo. cbn [fst]. split; [discriminate|].
    intros [[X _]|[X _]]; contradiction.
Qed.

Lemma undo_throws_exactly_when_witness :
  undoStack dragged = [add_chair] ++ [move_chair] /\
  (fst (undo dragged) = Threw <->
   (type move_chair = "remove"%string /\ properties move_chair = None) \/
   (type move_chair = "transform"%string /\
    (previousProperties move_chair = None \/ interactionManager dragged <> None))).
Proof.
  destruct dragged_fields as (_ & _ & U & _).
  split; [exact U|].
  apply (undo_throws_exactly_when dragged move_chair [add_chair]).
  exact U.
Defined.

(** ** The two selections *)

(** X22.  The scene manager and its interaction manager each keep a
    selected object.  Once the two agree, they agree after every pointer
    event, after selecting and deselecting, after adding, duplicating,
    removing and deleting, after pinning and rotating, and after undo
    and redo, whether these return or throw. *)
Theorem selection_stays_in_sync (s : SceneManager) :
  in_sync s ->
  (forall p hit, in_sync (onPointerDown p hit s)) /\
  (forall p, in_sync (onPointerMove p s)) /\
  in_sync (onPointerUp s) /\
  (forall o, in_sync (selectObject o s)) /\
  in_sync (deselectObject s) /\
  (forall o model, in_sync (addModel o model s)) /\
  (forall o c, in_sync (duplicateObject o c s)) /\
  (forall o, in_sync (removeObject o s)) /\
  in_sync (snd (undo s)) /\
  in_sync (snd (redo s)) /\
  (forall im o angle,
     interactionManager s = Some im ->
     in_sync (deleteSelected im s) /\
     in_sync (togglePin o im s) /\
     in_sync (rotateObject o angle im s)).
Proof.
  intros H. destruct s as [sc st cam objs sel mgr us rs dis].
  unfold in_sync in *. cbn [interactionManager selectedObject] in H.
  destruct mgr as [im|].
  - destruct im as [isel pins dr ro mode dsp osp osr dp dof ptr sptr orb].
    cbn [im_selectedObject] in H. subst sel.
    repeat split; intros;
      try match goal with
          | M : interactionManager _ = Some _ |- _ =>
              cbn [interactionManager] in M; injection M as <-
          end;
      run_operations; try reflexivity; try exact I.
  - repeat split; intros;
      try match goal with
          | M : interactionManager _ = Some _ |- _ =>
              cbn [interactionManager] in M; discriminate M
          end;
      run_operations; try reflexivity; try exact I.
Qed.

Lemma selection_stays_in_sync_witness :
  (forall p hit, in_sync (onPointerDown p hit scene_with_chair)) /\
  (forall p, in_sync (onPointerMove p scene_with_chair)) /\
  in_sync (onPointerUp scene_with_chair) /\
  (forall o, in_sync (selectObject o scene_with_chair)) /\
  in_sync (deselectObject scene_with_chair) /\
  (forall o model, in_sync (addModel o model scene_with_chair)) /\
  (forall o c, in_sync (duplicateObject o c scene_with_chair)) /\
  (forall o, in_sync (removeObject o scene_with_chair)) /\
  in_sync (snd (undo scene_with_chair)) /\
  in_sync (snd (redo scene_with_chair)) /\
  (forall im o angle,
     interactionManager scene_with_chair = Some im ->
     in_sync (deleteSelected im scene_with_chair) /\
     in_sync (togglePin o im scene_with_chair) /\
     in_sync (rotateObject o angle im scene_with_chair)).
Proof.
  apply (selection_stays_in_sync scene_with_chair). reflexivity.
Defined.

(** ** Pointer moves *)

(** A pointer move, seen from one object of the store. *)
Lemma pointer_frame
        (p : R * R) (s : SceneManager) (o : ObjId) (obj : Object3D) :
  lookup o (store s) = Some obj ->
  exists obj',
    lookup o (store (onPointerMove p s)) = Some obj' /\
    vy (position obj') = vy (position obj) /\
    ex (rotation obj') = ex (rotation obj) /\
    ez (rotation obj') = ez (rotation obj) /\
    scale obj' = scale obj /\
    userData obj' = userData obj /\
    (forall im, interactionManager s = Some im ->
       im_selectedObject im <> Some o \/ isDragging im = false
       \/ isPinned_ im o = true ->
       obj' = obj).
Proof.
  intros L. destruct s as [sc st cam objs sel mgr us rs dis].
  cbn [store] in L.
  assert (Same : exists obj',
             Some obj = Some obj' /\
             vy (position obj') = vy (position obj) /\
             ex (rotation obj') = ex (rotation obj) /\
             ez (rotation obj') = ez (rotation obj) /\
             scale obj' = scale obj /\
             userData obj' = userData obj /\
             (forall im : InteractionManager, mgr = Some im ->
                im_selectedObject im <> Some o \/ isDragging im = false
                \/ isPinned_ im o = true ->
                obj' = obj))
    by (exists obj; repeat split; reflexivity).
  unfold onPointerMove. cbn [interactionManager].
  destruct mgr as [im|]; [|cbn [store]; rewrite L; exact Same].
  destruct im as [isel pins dr ro mode dsp osp osr dp dof ptr sptr orb].
  unfold set_pointer, isPinned_ at 1.
  cbn [im_selectedObject isDragging isRotating pinnedObjects
       interactionMode dragStartPosition objectStartPosition
       objectStartRotation dragPlane dragOffset pointer startPointer
       orbitControls_enabled].
  destruct isel as [o1|]; [|cbn [store set_interactionManager]; rewrite L; exact Same].
  destruct dr; cbn [andb];
    [|cbn [store set_interactionManager]; rewrite L; exact Same].
  destruct (existsb (Nat.eqb o1) pins) eqn:Pin; cbn [negb andb];
    [cbn [store set_interactionManager]; rewrite L; exact Same|].
  assert (K : forall s2 : SceneManager,
             store (onObjectChanged o1 None s2) = store s2).
  { intros s2. unfold onObjectChanged.
    destruct (lookup o1 (store s2)); reflexivity. }
  rewrite K. destruct ro.
  - unfold handleRotation. scene_fields.
    cbn [pointer startPointer objectStartRotation fst].
    match goal with
    | |- context [update o1 ?f st] =>
        destruct (lookup_update_some o o1 f st obj L) as (obj1 & L1 & N1 & E1)
    end.
    exists obj1. split; [exact L1|].
    destruct (Nat.eq_dec o1 o) as [E|N].
    + rewrite (E1 E). subst o1. unfold set_rotation_y.
      cbn [position rotation scale userData ex ez].
      repeat split; try reflexivity.
      intros im [= <-]. unfold isPinned_.
      cbn [im_selectedObject isDragging pinnedObjects].
      intros [X|[X|X]].
      * exfalso. apply X. reflexivity.
      * discriminate X.
      * rewrite Pin in X. discriminate X.
    + rewrite (N1 N). repeat split; reflexivity.
  - unfold handleTranslation. scene_fields.
    cbn [pointer dragPlane dragOffset].
    destruct (intersectPlane (cam_ray cam p) dp) as [i|];
      [|cbn [store]; rewrite L; exact Same].
    destruct (lookup o1 st) as [obj0|] eqn:L0;
      [|cbn [store]; rewrite L; exact Same].
    scene_fields.
    match goal with
    | |- context [update o1 ?f st] =>
        destruct (lookup_update_some o o1 f st obj L) as (obj1 & L1 & N1 & E1)
    end.
    exists obj1. split; [exact L1|].
    destruct (Nat.eq_dec o1 o) as [E|N].
    + rewrite (E1 E). subst o1. rewrite L in L0. injection L0 as <-.
      unfold set_position. cbn [position rotation scale userData vy].
      repeat split; try reflexivity.
      intros im [= <-]. unfold isPinned_.
      cbn [im_selectedObject isDragging pinnedObjects].
      intros [X|[X|X]].
      * exfalso. apply X. reflexivity.
      * discriminate X.
      * rewrite Pin in X. discriminate X.
    + rewrite (N1 N). repeat split; reflexivity.
Qed.

(** X23.  A pointer move keeps every object of the store, with its
    height, its scale, its user data and its rotation about x and z; it
    changes nothing of an object that is not the selected one, nor of
    the selected one when no drag is under way or when it is pinned.
    The scene's children, the object list, the selection and the camera
    are as they were. *)
Theorem pointer_move_stays_in_the_plane
        (p : R * R) (s : SceneManager) (o : ObjId) (obj : Object3D) :
  lookup o (store s) = Some obj ->
  (exists obj',
     lookup o (store (onPointerMove p s)) = Some obj' /\
     vy (position obj') = vy (position obj) /\
     ex (rotation obj') = ex (rotation obj) /\
     ez (rotation obj') = ez (rotation obj) /\
     scale obj' = scale obj /\
     userData obj' = userData obj /\
     (forall im, interactionManager s = Some im ->
        im_selectedObject im <> Some o \/ isDragging im = false
        \/ isPinned_ im o = true ->
        obj' = obj)) /\
  scene_children (onPointerMove p s) = scene_children s /\
  objects (onPointerMove p s) = objects s /\
  selectedObject (onPointerMove p s) = selectedObject s /\
  camera (onPointerMove p s) = camera s.
Proof.
  intros L. split; [exact (pointer_frame p s o obj L)|].
  destruct s as [sc st cam objs sel mgr us rs dis].
  destruct mgr as [im|]; [|repeat split; reflexivity].
  destruct im as [isel pins dr ro mode dsp osp osr dp dof ptr sptr orb].
  unfold isPinned_.
  run_operations; repeat split; reflexivity.
Qed.

Lemma pointer_move_stays_in_the_plane_witness :
  (exists obj',
     lookup 1%nat (store (onPointerMove (0, 0) grabbed)) = Some obj' /\
     vy (position obj') = vy (position (set_boundingBoxHelper true chair)) /\
     ex (rotation obj') = ex (rotation (set_boundingBoxHelper true chair)) /\
     ez (rotation obj') = ez (rotation (set_boundingBoxHelper true chair)) /\
     scale obj' = scale (set_boundingBoxHelper true chair) /\
     userData obj' = userData (set_boundingBoxHelper true chair) /\
     (forall im, interactionManager grabbed = Some im ->
        im_selectedObject im <> Some 1%nat \/ isDragging im = false
        \/ isPinned_ im 1%nat = true ->
        obj' = set_boundingBoxHelper true chair)) /\
  scene_children (onPointerMove (0, 0) grabbed) = scene_children grabbed /\
  objects (onPointerMove (0, 0) grabbed) = objects grabbed /\
  selectedObject (onPointerMove (0, 0) grabbed) = selectedObject grabbed /\
  camera (onPointerMove (0, 0) grabbed) = camera grabbed.
Proof.
  apply (pointer_move_stays_in_the_plane (0, 0) grabbed 1%nat
           (set_boundingBoxHelper true chair)).
  reflexivity.
Defined.

(** What one pointer move of a drag leaves. *)
Lemma onPointerMove_dragging
      (p : R * R) (s : SceneManager) (im : InteractionManager) (o : ObjId)
      (obj : Object3D) :
  interactionManager s = Some im ->
  im_selectedObject im = Some o ->
  isDragging im = true ->
  isPinned_ im o = false ->
  lookup o (store s) = Some obj ->
  let obj' :=
    if isRotating im then
      set_rotation_y (ey (objectStartRotation im)
                      + (fst p - fst (startPointer im)) * 5) obj
    else
      match intersectPlane (cam_ray (camera s) p) (dragPlane im) with
      | Some i =>
          set_position (vec3 (vx i - vx (dragOffset im)) (vy (position obj))
                             (vz i - vz (dragOffset im))) obj
      | None => obj
      end in
  let s' := onPointerMove p s in
  interactionManager s' = Some (set_pointer p im) /\
  camera s' = camera s /\
  scene_children s' = scene_children s /\
  objects s' = objects s /\
  lookup o (store s') = Some obj' /\
  undoStack s'
  = undoStack s ++ [mkAction "transform" o None None (Some (getObjectState obj'))] /\
  redoStack s' = [].
Proof.
  intros M S D P L obj' s'. subst s' obj'.
  destruct s as [sc st cam objs sel mgr us rs dis].
  cbn [interactionManager store camera scene_children objects undoStack] in *.
  subst mgr.
  destruct im as [isel pins dr ro mode dsp osp osr dp dof ptr sptr orb].
  unfold isPinned_ in P.
  cbn [im_selectedObject isDragging pinnedObjects isRotating
       objectStartRotation startPointer dragPlane dragOffset] in *.
  subst isel dr.
  unfold onPointerMove, set_pointer, isPinned_.
  cbn [interactionManager im_selectedObject isDragging isRotating
       pinnedObjects].
  rewrite P. cbn [negb andb].
  destruct ro.
  - unfold handleRotation, onObjectChanged. scene_fields.
    cbn [pointer startPointer objectStartRotation].
    rewrite lookup_update, L. cbn [option_map].
    unfold addToUndoStack, push. scene_fields.
    rewrite ?lookup_update, ?L. cbn [option_map].
    repeat split; reflexivity.
  - unfold handleTranslation. scene_fields. cbn [pointer dragPlane dragOffset].
    rewrite L.
    destruct (intersectPlane (cam_ray cam p) dp) as [i|].
    + unfold onObjectChanged. scene_fields.
      rewrite lookup_update, L. cbn [option_map].
      unfold addToUndoStack, push. scene_fields.
    rewrite ?lookup_update, ?L. cbn [option_map].
      repeat split; reflexivity.
    + unfold onObjectChanged. scene_fields. rewrite L.
      unfold addToUndoStack, push. scene_fields. rewrite ?L.
      repeat split; reflexivity.
Qed.

(** X24.  While a drag is under way, every pointer move is recorded: it
    appends to the undo stack one transform action that holds the state
    of the object after the move and no previous state, and it empties
    the redo stack, also when the ray misses the drag plane and the
    object has not moved. *)
Theorem each_pointer_move_of_a_drag_is_recorded
        (p : R * R) (s : SceneManager) (im : InteractionManager) (o : ObjId)
        (obj : Object3D) :
  interactionManager s = Some im ->
  im_selectedObject im = Some o ->
  isDragging im = true ->
  isPinned_ im o = false ->
  lookup o (store s) = Some obj ->
  exists obj',
    lookup o (store (onPointerMove p s)) = Some obj' /\
    undoStack (onPointerMove p s)
    = undoStack s
      ++ [mkAction "transform" o None None (Some (getObjectState obj'))] /\
    redoStack (onPointerMove p s) = [].
Proof.
  intros M S D P L.
  destruct (onPointerMove_dragging p s im o obj M S D P L)
    as (_ & _ & _ & _ & L' & U & R).
  eexists. split; [exact L'|]. split; [exact U|exact R].
Qed.

Lemma each_pointer_move_of_a_drag_is_recorded_witness :
  exists obj',
    lookup 1%nat (store (onPointerMove (0, 0) grabbed)) = Some obj' /\
    undoStack (onPointerMove (0, 0) grabbed)
    = undoStack grabbed
      ++ [mkAction "transform" 1%nat None None (Some (getObjectState obj'))] /\
    redoStack (onPointerMove (0, 0) grabbed) = [].
Proof.
  apply (each_pointer_move_of_a_drag_is_recorded (0, 0) grabbed
           dragging_manager 1%nat (set_boundingBoxHelper true chair)).
  - reflexivity.
  - reflexivity.
  - reflexivity.
  - reflexivity.
  - reflexivity.
Defined.

(** X25.  During a drag the object follows the pointer and not the path
    of the pointer: after a move to [p1] and a move to [p2] the object
    is as after a move to [p2] alone, in a rotate drag always and in a
    translate drag when the ray through [p2] meets the drag plane. *)
Theorem drag_follows_the_pointer
        (p1 p2 : R * R) (s : SceneManager) (im : InteractionManager)
        (o : ObjId) (obj : Object3D) :
  interactionManager s = Some im ->
  im_selectedObject im = Some o ->
  isDragging im = true ->
  isPinned_ im o = false ->
  lookup o (store s) = Some obj ->
  isRotating im = true
  \/ intersectPlane (cam_ray (camera s) p2) (dragPlane im) <> None ->
  lookup o (store (onPointerMove p2 (onPointerMove p1 s)))
  = lookup o (store (onPointerMove p2 s)).
Proof.
  intros M S D P L H.
  destruct (onPointerMove_dragging p1 s im o obj M S D P L)
    as (M1 & C1 & _ & _ & L1 & _).
  destruct (onPointerMove_dragging p2 s im o obj M S D P L)
    as (_ & _ & _ & _ & L2 & _).
  destruct (onPointerMove_dragging p2 (onPointerMove p1 s) (set_pointer p1 im)
              o _ M1 S D P L1) as (_ & _ & _ & _ & L12 & _).
  rewrite L12, L2, C1. f_equal.
  unfold set_pointer.
  cbn [isRotating objectStartRotation startPointer dragPlane dragOffset].
  destruct (isRotating im).
  - unfold set_rotation_y. cbn [position rotation scale userData ex ez].
    reflexivity.
  - destruct H as [H|H]; [discriminate H|].
    destruct (intersectPlane (cam_ray (camera s) p2) (dragPlane im)) as [i|];
      [|exfalso; apply H; reflexivity].
    destruct (intersectPlane (cam_ray (camera s) p1) (dragPlane im)) as [i1|];
      unfold set_position; cbn [position rotation scale userData vy];
      reflexivity.
Qed.

Lemma drag_follows_the_pointer_witness :
  lookup 1%nat (store (onPointerMove (0, 0) (onPointerMove (1, 0) grabbed)))
  = lookup 1%nat (store (onPointerMove (0, 0) grabbed)).
Proof.
  apply (drag_follows_the_pointer (1, 0) (0, 0) grabbed dragging_manager
           1%nat (set_boundingBoxHelper true chair)).
  - reflexivity.
  - reflexivity.
  - reflexivity.
  - reflexivity.
  - reflexivity.
  - right. change (camera grabbed) with tilted_camera.
    unfold dragging_manager, floorPlane, tilted_camera.
    cbn [dragPlane cam_ray fst snd].
    rewrite intersectPlane_floor by (cbn [vy]; lra).
    discriminate.
Defined.

(** ** Pins and rotation by the buttons *)

Lemma existsb_without_other (o o2 : ObjId) (l : list ObjId) :
  o2 <> o -> existsb (Nat.eqb o2) (without o l) = existsb (Nat.eqb o2) l.
Proof.
  intros N. induction l as [|a l IH]; [reflexivity|].
  unfold without in *. simpl.
  destruct (Nat.eqb a o) eqn:E; simpl.
  - apply Nat.eqb_eq in E. subst a.
    destruct (Nat.eqb o2 o) eqn:E2; [apply Nat.eqb_eq in E2; contradiction|].
    exact IH.
  - rewrite IH. reflexivity.
Qed.

Lemma existsb_set_add_same (o : ObjId) (l : list ObjId) :
  existsb (Nat.eqb o) (set_add o l) = true.
Proof.
  unfold set_add. destruct (existsb (Nat.eqb o) l) eqn:E; [exact E|].
  rewrite existsb_app. simpl. rewrite Nat.eqb_refl.
  rewrite orb_true_l. apply orb_true_r.
Qed.

Lemma existsb_set_add_other (o o2 : ObjId) (l : list ObjId) :
  o2 <> o -> existsb (Nat.eqb o2) (set_add o l) = existsb (Nat.eqb o2) l.
Proof.
  intros N. unfold set_add. destruct (existsb (Nat.eqb o) l); [reflexivity|].
  rewrite existsb_app. simpl.
  destruct (Nat.eqb o2 o) eqn:E; [apply Nat.eqb_eq in E; contradiction|].
  simpl. apply orb_false_r.
Qed.

(** X26.  [togglePin] flips the pin of one object: afterwards the object
    is among the pinned objects exactly when it was not before, the
    [isPinned] flag of its user data says the same, its position,
    rotation and scale are as they were, and for every other object
    neither the pin nor any field has changed; the selection of the
    interaction manager stays. *)
Theorem toggle_pin_flips_one_object
        (o : ObjId) (im : InteractionManager) (s : SceneManager)
        (obj : Object3D) :
  lookup o (store s) = Some obj ->
  exists im' obj',
    interactionManager (togglePin o im s) = Some im' /\
    lookup o (store (togglePin o im s)) = Some obj' /\
    isPinned_ im' o = negb (isPinned_ im o) /\
    isPinned (userData obj') = negb (isPinned_ im o) /\
    position obj' = position obj /\
    rotation obj' = rotation obj /\
    scale obj' = scale obj /\
    im_selectedObject im' = im_selectedObject im /\
    (forall o2, o2 <> o ->
       isPinned_ im' o2 = isPinned_ im o2 /\
       lookup o2 (store (togglePin o im s)) = lookup o2 (store s)).
Proof.
  intros L. unfold togglePin.
  destruct (isPinned_ im o) eqn:P; cbn [negb].
  - unfold unpinObject.
    cbn [store interactionManager dispatchEvent set_interactionManager set_store].
    do 2 eexists. split; [reflexivity|].
    rewrite lookup_update, L. cbn [option_map].
    split; [reflexivity|].
    unfold isPinned_, set_pinnedObjects, set_isPinned.
    cbn [pinnedObjects im_selectedObject position rotation scale userData
         isPinned].
    split; [apply isPinned_without|].
    repeat split; try reflexivity.
    + apply existsb_without_other. assumption.
    + apply lookup_update_other. intros E. subst o2. contradiction.
  - unfold pinObject.
    cbn [store interactionManager dispatchEvent set_interactionManager set_store].
    do 2 eexists. split; [reflexivity|].
    rewrite lookup_update, L. cbn [option_map].
    split; [reflexivity|].
    unfold isPinned_, set_pinnedObjects, set_isPinned.
    cbn [pinnedObjects im_selectedObject position rotation scale userData
         isPinned].
    split; [apply existsb_set_add_same|].
    repeat split; try reflexivity.
    + apply existsb_set_add_other. assumption.
    + apply lookup_update_other. intros E. subst o2. contradiction.
Qed.

Lemma toggle_pin_flips_one_object_witness :
  exists im' obj',
    interactionManager (togglePin 1%nat selecting_manager scene_with_chair)
    = Some im' /\
    lookup 1%nat (store (togglePin 1%nat selecting_manager scene_with_chair))
    = Some obj' /\
    isPinned_ im' 1%nat = negb (isPinned_ selecting_manager 1%nat) /\
    isPinned (userData obj') = negb (isPinned_ selecting_manager 1%nat) /\
    position obj' = position (set_boundingBoxHelper true chair) /\
    rotation obj' = rotation (set_boundingBoxHelper true chair) /\
    scale obj' = scale (set_boundingBoxHelper true chair) /\
    im_selectedObject im' = im_selectedObject selecting_manager /\
    (forall o2, o2 <> 1%nat ->
       isPinned_ im' o2 = isPinned_ selecting_manager o2 /\
       lookup o2 (store (togglePin 1%nat selecting_manager scene_with_chair))
       = lookup o2 (store scene_with_chair)).
Proof.
  apply (toggle_pin_flips_one_object 1%nat selecting_manager scene_with_chair
           (set_boundingBoxHelper true chair)).
  reflexivity.
Defined.

(** X27.  Once an object is pinned, the interaction manager that
    [pinObject] leaves moves it no more: [rotateObject] and [startDrag]
    on it return with nothing changed, and no pointer move changes any
    of its fields, whatever is selected and whether a drag is under way
    or not. *)
Theorem a_pinned_object_stays_put
        (o : ObjId) (im : InteractionManager) (s : SceneManager)
        (obj : Object3D) :
  lookup o (store s) = Some obj ->
  let s1 := pinObject o im s in
  exists im1,
    interactionManager s1 = Some im1 /\
    (forall angle, rotateObject o angle im1 s1 = s1) /\
    (forall hitPoint, startDrag o hitPoint im1 s1 = s1) /\
    (forall p, lookup o (store (onPointerMove p s1)) = lookup o (store s1)).
Proof.
  intros L s1.
  assert (L1 : lookup o (store s1) = Some (set_isPinned true obj)).
  { unfold s1, pinObject.
    cbn [store dispatchEvent set_interactionManager set_store].
    rewrite lookup_update, L. reflexivity. }
  assert (M1 : interactionManager s1
               = Some (set_pinnedObjects (set_add o (pinnedObjects im)) im))
    by reflexivity.
  assert (P1 : isPinned_ (set_pinnedObjects (set_add o (pinnedObjects im)) im) o
               = true).
  { unfold isPinned_, set_pinnedObjects. cbn [pinnedObjects].
    apply existsb_set_add_same. }
  eexists. split; [exact M1|]. split; [|split].
  - intros angle. unfold rotateObject. rewrite P1. reflexivity.
  - intros hitPoint. unfold startDrag. rewrite P1. reflexivity.
  - intros p.
    destruct (pointer_frame p s1 o _ L1) as (obj' & L' & _ & _ & _ & _ & _ & F).
    rewrite L', L1. f_equal.
    apply (F _ M1). right. right. exact P1.
Qed.

Lemma a_pinned_object_stays_put_witness :
  let s1 := pinObject 1%nat selecting_manager scene_with_chair in
  exists im1,
    interactionManager s1 = Some im1 /\
    (forall angle, rotateObject 1%nat angle im1 s1 = s1) /\
    (forall hitPoint, startDrag 1%nat hitPoint im1 s1 = s1) /\
    (forall p, lookup 1%nat (store (onPointerMove p s1)) = lookup 1%nat (store s1)).
Proof.
  apply (a_pinned_object_stays_put 1%nat selecting_manager scene_with_chair
           (set_boundingBoxHelper true chair)).
  reflexivity.
Defined.

(** What one [rotateObject] leaves. *)
Lemma rotateObject_result
      (o : ObjId) (a : R) (im : InteractionManager) (s : SceneManager)
      (obj : Object3D) :
  isPinned_ im o = false ->
  lookup o (store s) = Some obj ->
  let obj' := set_rotation_y (ey (rotation obj) + degToRad a) obj in
  lookup o (store (rotateObject o a im s)) = Some obj' /\
  undoStack (rotateObject o a im s)
  = undoStack s ++ [mkAction "transform" o None None (Some (getObjectState obj'))] /\
  redoStack (rotateObject o a im s) = [].
Proof.
  intros P L obj'. subst obj'.
  destruct s as [sc st cam objs sel mgr us rs dis]. cbn [store] in L.
  unfold rotateObject. rewrite P.
  unfold onObjectChanged. scene_fields. rewrite lookup_update, L.
  cbn [option_map]. unfold addToUndoStack, push. scene_fields.
  rewrite ?lookup_update, ?L. cbn [option_map].
  repeat split; reflexivity.
Qed.

(** X28.  Rotations by the buttons add up: after [rotateObject] by [a]
    degrees and then by [b] degrees, the rotation of an object that is
    not pinned is what it was plus [a + b] degrees in radians, position
    and scale are as they were, the undo stack has two more transform
    actions, neither with a previous state, and the redo stack is
    empty. *)
Theorem button_rotations_add_up
        (o : ObjId) (a b : R) (im : InteractionManager) (s : SceneManager)
        (obj : Object3D) :
  isPinned_ im o = false ->
  lookup o (store s) = Some obj ->
  let s2 := rotateObject o b im (rotateObject o a im s) in
  exists obj' act1 act2,
    lookup o (store s2) = Some obj' /\
    ey (rotation obj') = ey (rotation obj) + degToRad (a + b) /\
    ex (rotation obj') = ex (rotation obj) /\
    ez (rotation obj') = ez (rotation obj) /\
    position obj' = position obj /\
    scale obj' = scale obj /\
    undoStack s2 = undoStack s ++ [act1; act2] /\
    type act1 = "transform"%string /\ previousProperties act1 = None /\
    type act2 = "transform"%string /\ previousProperties act2 = None /\
    redoStack s2 = [].
Proof.
  intros P L s2. subst s2.
  destruct (rotateObject_result o a im s obj P L) as (L1 & U1 & _).
  destruct (rotateObject_result o b im _ _ P L1) as (L2 & U2 & R2).
  do 3 eexists. split; [exact L2|].
  unfold set_rotation_y. cbn [position rotation scale userData ex ey ez].
  split; [unfold degToRad; ring|].
  rewrite U2, U1, <- app_assoc. cbn [app].
  repeat split; try reflexivity. exact R2.
Qed.

Lemma button_rotations_add_up_witness :
  let s2 := rotateObject 1%nat 45 selecting_manager
              (rotateObject 1%nat 45 selecting_manager scene_with_chair) in
  exists obj' act1 act2,
    lookup 1%nat (store s2) = Some obj' /\
    ey (rotation obj')
    = ey (rotation (set_boundingBoxHelper true chair)) + degToRad (45 + 45) /\
    ex (rotation obj') = ex (rotation (set_boundingBoxHelper true chair)) /\
    ez (rotation obj') = ez (rotation (set_boundingBoxHelper true chair)) /\
    position obj' = position (set_boundingBoxHelper true chair) /\
    scale obj' = scale (set_boundingBoxHelper true chair) /\
    undoStack s2 = undoStack scene_with_chair ++ [act1; act2] /\
    type act1 = "transform"%string /\ previousProperties act1 = None /\
    type act2 = "transform"%string /\ previousProperties act2 = None /\
    redoStack s2 = [].
Proof.
  apply (button_rotations_add_up 1%nat 45 45 selecting_manager scene_with_chair
           (set_boundingBoxHelper true chair)).
  - reflexivity.
  - reflexivity.
Defined.

(** ** Closing the editor and disposing of the room *)

Lemma set_orbit_lists (b : bool) (s : SceneManager) :
  scene_children (set_orbit b s) = scene_children s /\
  objects (set_orbit b s) = objects s /\
  store (set_orbit b s) = store s /\
  undoStack (set_orbit b s) = undoStack s /\
  redoStack (set_orbit b s) = redoStack s.
Proof.
  unfold set_orbit. destruct (interactionManager s); repeat split; reflexivity.
Qed.

(** X29.  Opening the floor editor on a room of three points or more
    and closing it again leaves the room as it was and the editor
    cleared and inactive, without its commit callback, so that a drag
    end that comes late builds nothing; scene, object list and both
    stacks of the scene manager are as before. *)
Theorem editor_opened_and_closed_keeps_the_room (a : Planner) :
  isActive (floorDimensionEditorInstance a) = false ->
  (3 <= List.length (_currentPoints (room a)))%nat ->
  let a2 := toggleFloorEditor (toggleFloorEditor a) in
  room a2 = room a /\
  floorDimensionEditorInstance a2 = mkEditor [] [] [] None false /\
  onPointsUpdated a2 = false /\
  room (_onDragEnd a2) = room a /\
  scene_children (sceneManager a2) = scene_children (sceneManager a) /\
  objects (sceneManager a2) = objects (sceneManager a) /\
  undoStack (sceneManager a2) = undoStack (sceneManager a) /\
  redoStack (sceneManager a2) = redoStack (sceneManager a).
Proof.
  intros Ha H a2. subst a2.
  set (E := initEditor (map (localToWorld (room a)) (_currentPoints (room a)))
                       (floorDimensionEditorInstance a)).
  assert (AE : isActive E = true).
  { unfold E, initEditor. rewrite length_map.
    destruct (Nat.ltb_spec (List.length (_currentPoints (room a))) 3); [lia|].
    reflexivity. }
  assert (Open : toggleFloorEditor a
                 = mkPlanner (deselectObject (sceneManager a)) (room a) E true).
  { unfold toggleFloorEditor. rewrite Ha. unfold getCurrentPoints.
    rewrite copy_points.
    destruct (Nat.leb_spec 3 (List.length (_currentPoints (room a))));
      [reflexivity|lia]. }
  rewrite Open. unfold toggleFloorEditor.
  cbn [floorDimensionEditorInstance room sceneManager onPointsUpdated].
  rewrite AE. unfold _onDragEnd, clearEditor.
  cbn [floorDimensionEditorInstance room sceneManager onPointsUpdated].
  destruct (set_orbit_lists true (deselectObject (sceneManager a)))
    as (C & O & _ & U & R).
  rewrite C, O, U, R.
  destruct (deselectObject_stacks (sceneManager a)) as (U' & R' & _).
  rewrite U', R'.
  unfold deselectObject. destruct (interactionManager (sceneManager a)) as [im|];
    [|repeat split; reflexivity].
  unfold deselect. destruct (im_selectedObject im); repeat split; reflexivity.
Qed.

Lemma editor_opened_and_closed_keeps_the_room_witness :
  let a := mkPlanner scene_with_chair
                     (buildFromPolygon cw_triangle false (newRoom 2.5))
                     (mkEditor [] [] [] None false) false in
  let a2 := toggleFloorEditor (toggleFloorEditor a) in
  room a2 = room a /\
  floorDimensionEditorInstance a2 = mkEditor [] [] [] None false /\
  onPointsUpdated a2 = false /\
  room (_onDragEnd a2) = room a /\
  scene_children (sceneManager a2) = scene_children (sceneManager a) /\
  objects (sceneManager a2) = objects (sceneManager a) /\
  undoStack (sceneManager a2) = undoStack (sceneManager a) /\
  redoStack (sceneManager a2) = redoStack (sceneManager a).
Proof.
  apply (editor_opened_and_closed_keeps_the_room
           (mkPlanner scene_with_chair
                      (buildFromPolygon cw_triangle false (newRoom 2.5))
                      (mkEditor [] [] [] None false) false)).
  - reflexivity.
  - cbn [room]. rewrite buildFromPolygon_currentPoints by (simpl; lia).
    rewrite processPoints_length. simpl. lia.
Defined.

Lemma dispose_result (r : Room) :
  dispose r
  = mkRoom (height r) [] (group_position r) (group_quaternion r) [] [] None
           false (watermarkConfig r) (console r).
Proof.
  destruct r as [h ch gp gq ws cp wm tex cfg con].
  destruct wm as [w|]; reflexivity.
Qed.

(** X30.  A disposed room stays empty: it has no children, no wall
    segments, no points, no watermark and no texture; disposing of it
    again, or updating the visibility of its walls for any camera,
    returns it unchanged, and the floor editor does not open on it. *)
Theorem a_disposed_room_stays_empty (r : Room) (camera : option Camera) :
  let d := dispose r in
  group_children d = [] /\
  wallSegments d = [] /\
  _currentPoints d = [] /\
  watermark d = None /\
  watermarkTexture d = false /\
  dispose d = d /\
  updateWallVisibility camera d = (Returned, d) /\
  (forall sm pts hs ls fm cb,
     toggleFloorEditor (mkPlanner sm d (mkEditor pts hs ls fm false) cb)
     = mkPlanner sm d (mkEditor pts hs ls fm false) cb).
Proof.
  intros d. subst d. rewrite dispose_result.
  repeat split; try reflexivity.
  - unfold updateWallVisibility. destruct camera; reflexivity.
Qed.
